(** * wl-scanner: a shallow embedding of the Wayland binding generator

    The repository holds two variants of the generator, both [package main]:
    - [wl-scanner.go], the template-driven generator (module [WlScanner]);
    - [scanner.go], the older buffer-driven generator (module [Legacy]).

    Conventions of the embedding.
    - A Go [string] is a byte sequence: [string] of the Standard Library,
      whose characters are the 256 values of [ascii].
    - The functions of Go's [strings] package that the program calls are
      modelled in [GoStrings]; they are exact on ASCII input, which is what
      protocol XML identifiers are.  [Title] and [TrimSpace] leave bytes
      of value 128 and above untouched.
    - A Go [map[string]string] is a [gmap string string]; reading a key
      that is absent yields the zero value, the empty string.
    - The process-wide variables ([wlNames], [fileBuffer], the log) are
      threaded explicitly.
    - [log.Fatal] ends the run: fallible code returns a [result]. *)

From Stdlib Require Import Ascii String.
From stdpp Require Import gmap strings list pretty.

Local Open Scope nat_scope.

(** ** Go's [strings] package, as far as the generator uses it *)
Module GoStrings.

Definition byte_eqb (a b : ascii) : bool := Ascii.eqb a b.

(** [strings.HasPrefix(s, prefix)] *)
Fixpoint HasPrefix (s prefix : string) {struct prefix} : bool :=
  match prefix, s with
  | EmptyString, _ => true
  | String a prefix', String b s' => byte_eqb a b && HasPrefix s' prefix'
  | String _ _, EmptyString => false
  end.

Fixpoint drop_bytes (n : nat) (s : string) : string :=
  match n, s with
  | S n', String _ s' => drop_bytes n' s'
  | _, _ => s
  end.

(** [strings.TrimPrefix(s, prefix)] *)
Definition TrimPrefix (s prefix : string) : string :=
  if HasPrefix s prefix then drop_bytes (String.length prefix) s else s.

(** [strings.Replace(s, old, new, -1)] for a one-byte [old]: every call in
    the program replaces a single character, everywhere. *)
Fixpoint Replace (s : string) (old : ascii) (new : string) : string :=
  match s with
  | EmptyString => EmptyString
  | String c s' =>
      (if byte_eqb c old then new else String c EmptyString) +:+ Replace s' old new
  end.

Definition in_range (lo hi : nat) (c : ascii) : bool :=
  (lo <=? nat_of_ascii c) && (nat_of_ascii c <=? hi).

Definition is_digit (c : ascii) : bool := in_range 48 57 c.
Definition is_lower (c : ascii) : bool := in_range 97 122 c.
Definition is_upper (c : ascii) : bool := in_range 65 90 c.

(** [isSeparator] of Go's [strings] package: ASCII letters, digits and the
    underscore do not separate words, every other ASCII byte does. *)
Definition isSeparator (r : ascii) : bool :=
  if nat_of_ascii r <=? 127
  then negb (is_digit r || is_lower r || is_upper r || byte_eqb r "_")
  else false.

(** [unicode.ToTitle] on the ASCII range. *)
Definition ToTitle (r : ascii) : ascii :=
  if is_lower r then ascii_of_nat (nat_of_ascii r - 32) else r.

(** [strings.Title]: the mapping function keeps the previous rune and
    title-cases a rune that follows a separator; [prev] starts as a space. *)
Fixpoint Title_from (prev : ascii) (s : string) : string :=
  match s with
  | EmptyString => EmptyString
  | String r s' =>
      String (if isSeparator prev then ToTitle r else r) (Title_from r s')
  end.

Definition Title (s : string) : string := Title_from " " s.

(** [strings.Split(s, sep)] for a one-byte separator: n occurrences of the
    separator give n+1 parts, so the empty string gives one empty part. *)
Fixpoint Split (s : string) (sep : ascii) : list string :=
  match s with
  | EmptyString => [EmptyString]
  | String c s' =>
      if byte_eqb c sep then EmptyString :: Split s' sep
      else match Split s' sep with
           | p :: ps => String c p :: ps
           | [] => [String c EmptyString]
           end
  end.

(** [strings.Join(elems, sep)] *)
Fixpoint Join (elems : list string) (sep : string) : string :=
  match elems with
  | [] => EmptyString
  | [e] => e
  | e :: rest => e +:+ sep +:+ Join rest sep
  end.

(** [strings.Index(s, sep)] for a one-byte [sep]: the position of the first
    occurrence, or -1. *)
Fixpoint Index_from (i : Z) (s : string) (sep : ascii) : Z :=
  match s with
  | EmptyString => (-1)%Z
  | String c s' => if byte_eqb c sep then i else Index_from (i + 1)%Z s' sep
  end.

Definition Index (s : string) (sep : ascii) : Z := Index_from 0%Z s sep.

(** ASCII white space, as [strings.TrimSpace] sees it. *)
Definition is_space (c : ascii) : bool :=
  in_range 9 13 c || byte_eqb c " ".

Fixpoint trim_left (s : string) : string :=
  match s with
  | String c s' => if is_space c then trim_left s' else s
  | EmptyString => EmptyString
  end.

Fixpoint trim_right (s : string) : string :=
  match s with
  | EmptyString => EmptyString
  | String c s' =>
      match trim_right s' with
      | EmptyString => if is_space c then EmptyString else String c EmptyString
      | t => String c t
      end
  end.

(** [strings.TrimSpace(s)] *)
Definition TrimSpace (s : string) : string := trim_right (trim_left s).

(** The text [text/template] and [fmt] print for an [int]. *)
Definition Itoa (n : nat) : string := pretty n.

End GoStrings.

Import GoStrings.

Definition nl : string := String (ascii_of_nat 10) EmptyString.
Definition tab : string := String (ascii_of_nat 9) EmptyString.

(** ** Name casing, shared by both variants of the generator *)

(** [CamelCase] (wl-scanner.go 425-440, scanner.go 207-222). *)
Definition CamelCase (wlName : string) : string :=
  let wlName :=
    if HasPrefix wlName "wl_" then TrimPrefix wlName "wl_" else wlName in
  (* replace all "_" chars to " " chars *)
  let wlName := Replace wlName "_" " " in
  (* Capitalize first chars *)
  let wlName := Title wlName in
  (* remove all spaces *)
  Replace wlName " " "".

(** [snakeCase] (wl-scanner.go 442-458): the loop title-cases every part
    but the one at index 0. *)
Definition snakeCase (wlName : string) : string :=
  let wlName :=
    if HasPrefix wlName "wl_" then TrimPrefix wlName "wl_" else wlName in
  let wlName := Replace wlName "_" " " in
  let parts := Split wlName " " in
  let parts := imap (fun i p => if decide (i = 0) then p else Title p) parts in
  Join parts "".

(** ** The protocol description, as decoded from XML

    The structs of wl-scanner.go 21-85; the [XMLName] fields, which only
    steer the decoder, are left out.  [scanner.go] declares the same
    structs, its [Description] naming the text field differently. *)

Record Description := {
  Description_Summary : string;
  Description_Text : string
}.

Record Arg := {
  Arg_Name : string;
  Arg_Type : string;
  Arg_Interface : string;
  Arg_Enum : string;
  Arg_AllowNull : bool;
  Arg_Summary : string
}.

Record Request := {
  Request_Name : string;
  Request_Type : string;
  Request_Since : Z;
  Request_Description : Description;
  Request_Args : list Arg
}.

Record Event := {
  Event_Name : string;
  Event_Since : Z;
  Event_Description : Description;
  Event_Args : list Arg
}.

Record Entry := {
  Entry_Name : string;
  Entry_Value : string;
  Entry_Summary : string
}.

Record Enum := {
  Enum_Name : string;
  Enum_BitField : bool;
  Enum_Description : Description;
  Enum_Entries : list Entry
}.

Record Interface := {
  Interface_Name : string;
  Interface_Version : Z;
  Interface_Since : Z;
  Interface_Description : Description;
  Interface_Requests : list Request;
  Interface_Events : list Event;
  Interface_Enums : list Enum
}.

Record Protocol := {
  Protocol_Name : string;
  Protocol_Copyright : string;
  Protocol_Interfaces : list Interface
}.

(** [wlTypes]: wire type to Go type (both variants). *)
Definition wlTypes : gmap string string :=
  list_to_map
    [("int", "int32"); ("uint", "uint32"); ("string", "string");
     ("fd", "uintptr"); ("fixed", "float32"); ("array", "[]int32")].

(** A Go map read [m[k]]: the zero value when the key is absent. *)
Definition map_index (m : gmap string string) (k : string) : string :=
  default EmptyString (m !! k).

(** How a run ends: [log.Fatal] exits with status 1 after logging. *)
Inductive result (A : Type) : Type :=
| Ok (a : A)
| Fatal (msg : string).
Arguments Ok {A} a.
Arguments Fatal {A} msg.

(** ** Go slices of strings

    A slice is a window on a backing array; [append] writes in place while
    the capacity lasts, and two slices cut from one array see each other's
    writes.  Arrays live in a heap and are addressed by position; address
    0 is the nil array. *)
Module Slice.

Record t := { ptr : nat; len : nat; cap : nat }.

Abbreviation Heap := (list (list string)).

Definition empty_heap : Heap := [[]].

(** The nil slice of a [var s []string] declaration. *)
Definition nil : t := {| ptr := 0; len := 0; cap := 0 |}.

(** Capacity after growth by one element, as the gc runtime does it for
    slices of fewer than 256 strings: doubling, from 1. *)
Definition growcap (oldcap : nat) : nat :=
  if decide (oldcap = 0) then 1 else 2 * oldcap.

Definition array (h : Heap) (p : nat) : list string := default [] (h !! p).

(** The elements a slice shows. *)
Definition elems (h : Heap) (s : t) : list string := take (len s) (array h (ptr s)).

(** [append(s, x)] *)
Definition append (h : Heap) (s : t) (x : string) : Heap * t :=
  if decide (len s < cap s)
  then (<[ptr s := <[len s := x]> (array h (ptr s))]> h,
        {| ptr := ptr s; len := S (len s); cap := cap s |})
  else
    let newcap := growcap (cap s) in
    (h ++ [elems h s ++ x :: replicate (newcap - S (len s)) EmptyString],
     {| ptr := length h; len := S (len s); cap := newcap |}).

(** A slice is well formed in a heap when its array is there, has the
    length of the capacity, and the slice does not reach beyond it. *)
Definition wf (h : Heap) (s : t) : Prop :=
  ptr s < length h /\ len s <= cap s /\ length (array h (ptr s)) = cap s.

End Slice.

(** ** The operating system, as the generator meets it

    What the run reads from outside is an input of the model: the bytes
    behind a source location, the result of decoding them, whether a file
    can be created, where the [go] executable is and how the formatter
    command ends.  A Go [error] is its message. *)
Record Env := {
  http_Get : string -> result string;
  os_Open : string -> result string;
  xml_Decode : string -> result Protocol;
  os_Create : string -> option string;
  exec_LookPath : string -> result string;
  cmd_Run : string -> list string -> option string
}.

(** What a run leaves behind: the exit status (1 after [log.Fatal]), the
    files written and the log. *)
Record Outcome := {
  exit_status : nat;
  files : gmap string string;
  log_lines : list string
}.

Definition dquote : string := String (ascii_of_nat 34) EmptyString.

(** ** wl-scanner.go: the template-driven generator *)
Module WlScanner.

(** The generator's own records (wl-scanner.go 88-134). *)
Record GoRequest := {
  GoRequest_Name : string;
  GoRequest_IfaceName : string;
  GoRequest_Params : string;
  GoRequest_Returns : string;
  GoRequest_Args : string;
  GoRequest_HasNewId : bool;
  GoRequest_NewIdInterface : string;
  GoRequest_Order : nat;
  GoRequest_Summary : string;
  GoRequest_Description : string
}.

Record GoArg := {
  GoArg_Name : string;
  GoArg_Type : string;
  GoArg_PName : string;
  GoArg_BufMethod : string
}.

Record GoEvent := {
  GoEvent_Name : string;
  GoEvent_IfaceName : string;
  GoEvent_PName : string;
  GoEvent_Args : list GoArg
}.

Record GoEntry := {
  GoEntry_Name : string;
  GoEntry_Value : string
}.

Record GoEnum := {
  GoEnum_Name : string;
  GoEnum_IfaceName : string;
  GoEnum_Entries : list GoEntry
}.

Record GoInterface := {
  GoInterface_Name : string;
  GoInterface_WlInterface : Interface;
  GoInterface_Requests : list GoRequest;
  GoInterface_Events : list GoEvent;
  GoInterface_Enums : list GoEnum
}.

(** [bufTypesMap]: Go type to the decode call of the event buffer. *)
Definition bufTypesMap : gmap string string :=
  list_to_map
    [("int32", "Int32()"); ("uint32", "Uint32()"); ("string", "String()");
     ("float32", "Float32()"); ("[]int32", "Array()"); ("uintptr", "FD()")].

Definition inheritedNames : list string :=
  ["wl_display"; "wl_registry"; "wl_callback"; "wl_compositor";
   "wl_shm_pool"; "wl_shm"; "wl_buffer"; "wl_data_offer"; "wl_data_source";
   "wl_data_device"; "wl_data_device_manager"; "wl_shell";
   "wl_shell_surface"; "wl_surface"; "wl_seat"; "wl_pointer"; "wl_keyboard";
   "wl_touch"; "wl_output"; "wl_region"; "wl_subcompositor";
   "wl_subsurface"].

(** The package-level variables. *)
Record World := {
  wlNames : gmap string string;
  fileBuffer : string;
  logged : list string
}.

Definition set_wlNames (m : gmap string string) (w : World) : World :=
  {| wlNames := m; fileBuffer := fileBuffer w; logged := logged w |}.

(** Writing to [fileBuffer]: [fmt.Fprintf(fileBuffer, ...)] and a
    template executed into it. *)
Definition emit (text : string) (w : World) : World :=
  {| wlNames := wlNames w; fileBuffer := fileBuffer w +:+ text;
     logged := logged w |}.

(** [log.Printf] *)
Definition log_Printf (msg : string) (w : World) : World :=
  {| wlNames := wlNames w; fileBuffer := fileBuffer w;
     logged := logged w ++ [msg] |}.

(** [caseAndRegister] (247-253): registers the name, returns its
    canonical form. *)
Definition caseAndRegister (wlName : string) (w : World) : string * World :=
  let orj := wlName in
  let wlName := CamelCase wlName in
  (wlName, set_wlNames (<[orj := wlName]> (wlNames w)) w).

(** [reflow] (594-600) *)
Definition reflow (text : string) : string :=
  fold_left (fun ret line => ret +:+ "// " +:+ TrimSpace line +:+ nl)
            (Split text (ascii_of_nat 10)) EmptyString.

(** *** The templates

    Each template is the function from its data to the text that
    [text/template] prints for it; a [{{-] eats the white space before
    it, and no template of the program can fail on the data it is given. *)

(** [requestTemplate] (517-528) *)
Definition requestTemplate (r : GoRequest) : string :=
  nl +:+ "// " +:+ GoRequest_Name r +:+ " will " +:+ GoRequest_Summary r +:+ "." +:+ nl
  +:+ "//" +:+ nl
  +:+ GoRequest_Description r +:+ "func (p *" +:+ GoRequest_IfaceName r +:+ ") "
  +:+ GoRequest_Name r +:+ "(" +:+ GoRequest_Params r +:+ ") "
  +:+ GoRequest_Returns r +:+ " {"
  +:+ (if GoRequest_HasNewId r
       then nl +:+ tab +:+ "ret := New" +:+ GoRequest_NewIdInterface r +:+ "(p.Context())"
            +:+ nl +:+ tab +:+ "return ret , p.Context().sendRequest(p,"
            +:+ Itoa (GoRequest_Order r) +:+ GoRequest_Args r +:+ ")"
       else nl +:+ tab +:+ "return p.Context().sendRequest(p,"
            +:+ Itoa (GoRequest_Order r) +:+ GoRequest_Args r +:+ ")")
  +:+ nl +:+ "}" +:+ nl.

(** [eventTemplate] (530-536) *)
Definition eventTemplate (ev : GoEvent) : string :=
  nl +:+ "type " +:+ GoEvent_IfaceName ev +:+ GoEvent_Name ev +:+ "Event struct {"
  +:+ String.concat EmptyString
        (map (fun a => nl +:+ tab +:+ GoArg_Name a +:+ " " +:+ GoArg_Type a)
             (GoEvent_Args ev))
  +:+ nl +:+ "}" +:+ nl.

(** [ifaceAddRemoveHandlerTemplate] (495-515) *)
Definition ifaceAddRemoveHandlerTemplate (ev : GoEvent) : string :=
  let handlers := "p." +:+ GoEvent_PName ev +:+ "Handlers" in
  nl +:+ "func (p *" +:+ GoEvent_IfaceName ev +:+ ") Add" +:+ GoEvent_Name ev
  +:+ "Handler(h Handler) {" +:+ nl
  +:+ tab +:+ "if h != nil {" +:+ nl
  +:+ tab +:+ tab +:+ "p.mu.Lock()" +:+ nl
  +:+ tab +:+ tab +:+ handlers +:+ " = append(" +:+ handlers +:+ " , h)" +:+ nl
  +:+ tab +:+ tab +:+ "p.mu.Unlock()" +:+ nl
  +:+ tab +:+ "}" +:+ nl
  +:+ "}" +:+ nl
  +:+ nl
  +:+ "func (p *" +:+ GoEvent_IfaceName ev +:+ ") Remove" +:+ GoEvent_Name ev
  +:+ "Handler(h Handler) {" +:+ nl
  +:+ tab +:+ "p.mu.Lock()" +:+ nl
  +:+ tab +:+ "defer p.mu.Unlock()" +:+ nl
  +:+ nl
  +:+ tab +:+ "for i , e := range " +:+ handlers +:+ " {" +:+ nl
  +:+ tab +:+ tab +:+ "if e == h {" +:+ nl
  +:+ tab +:+ tab +:+ tab +:+ handlers +:+ " = append(" +:+ handlers +:+ "[:i] , "
  +:+ handlers +:+ "[i+1:]...)" +:+ nl
  +:+ tab +:+ tab +:+ tab +:+ "break" +:+ nl
  +:+ tab +:+ tab +:+ "}" +:+ nl
  +:+ tab +:+ "}" +:+ nl
  +:+ "}" +:+ nl.

(** One [case] of the dispatch switch: the body of the template's
    [range $i , $event := .Events]. *)
Definition dispatchCase (ifaceName : string) (i : nat) (ev : GoEvent) : string :=
  let handlers := "p." +:+ GoEvent_PName ev +:+ "Handlers" in
  nl +:+ tab +:+ "case " +:+ Itoa i +:+ ":" +:+ nl
  +:+ tab +:+ tab +:+ "if len(" +:+ handlers +:+ ") > 0 {" +:+ nl
  +:+ tab +:+ tab +:+ tab +:+ "ev := " +:+ ifaceName +:+ GoEvent_Name ev +:+ "Event{}"
  +:+ String.concat EmptyString
        (map (fun a => nl +:+ tab +:+ tab +:+ tab +:+ "ev." +:+ GoArg_Name a
                       +:+ " = event." +:+ GoArg_BufMethod a)
             (GoEvent_Args ev))
  +:+ nl
  +:+ tab +:+ tab +:+ tab +:+ "p.mu.RLock()" +:+ nl
  +:+ tab +:+ tab +:+ tab +:+ "for _, h := range " +:+ handlers +:+ " {" +:+ nl
  +:+ tab +:+ tab +:+ tab +:+ tab +:+ "h.Handle(ev)" +:+ nl
  +:+ tab +:+ tab +:+ tab +:+ "}" +:+ nl
  +:+ tab +:+ tab +:+ tab +:+ "p.mu.RUnlock()" +:+ nl
  +:+ tab +:+ tab +:+ "}".

(** [ifaceDispatchTemplate] (537-557) *)
Definition ifaceDispatchTemplate (i : GoInterface) : string :=
  nl +:+ "func (p *" +:+ GoInterface_Name i +:+ ") Dispatch(event *Event) {"
  +:+ nl +:+ tab +:+ "switch event.opcode {"
  +:+ String.concat EmptyString
        (imap (dispatchCase (GoInterface_Name i)) (GoInterface_Events i))
  +:+ nl +:+ tab +:+ "}" +:+ nl
  +:+ "}" +:+ nl.

(** [ifaceTypeTemplate] (476-487) *)
Definition ifaceTypeTemplate (i : GoInterface) : string :=
  nl +:+ "type " +:+ GoInterface_Name i +:+ " struct {" +:+ nl
  +:+ tab +:+ "BaseProxy"
  +:+ (if decide (0 < length (GoInterface_Events i))
       then nl +:+ tab +:+ "mu sync.RWMutex" else EmptyString)
  +:+ String.concat EmptyString
        (map (fun ev => nl +:+ tab +:+ GoEvent_PName ev +:+ "Handlers []Handler")
             (GoInterface_Events i))
  +:+ nl +:+ "}" +:+ nl.

(** [ifaceConstructorTemplate] (488-494) *)
Definition ifaceConstructorTemplate (i : GoInterface) : string :=
  nl +:+ "func New" +:+ GoInterface_Name i +:+ "(ctx *Context) *"
  +:+ GoInterface_Name i +:+ " {" +:+ nl
  +:+ tab +:+ "ret := new(" +:+ GoInterface_Name i +:+ ")" +:+ nl
  +:+ tab +:+ "ctx.register(ret)" +:+ nl
  +:+ tab +:+ "return ret" +:+ nl
  +:+ "}" +:+ nl.

(** [ifaceEnums] (558-566) *)
Definition ifaceEnums (e : GoEnum) : string :=
  nl +:+ "const ("
  +:+ String.concat EmptyString
        (map (fun en => nl +:+ tab +:+ GoEnum_IfaceName e +:+ GoEnum_Name e
                        +:+ GoEntry_Name en +:+ " = " +:+ GoEntry_Value en)
             (GoEnum_Entries e))
  +:+ nl +:+ ")" +:+ nl.

(** [executeTemplate] (255-261): the text goes to [fileBuffer]. *)
Definition executeTemplate {A : Type} (tpl : A -> string) (data : A) (w : World) : World :=
  emit (tpl data) w.

(** *** [ProcessRequests] (268-335) *)

(** The variables of one turn of the request loop.  [params] and
    [sendRequestArgs] are slices on one heap, since line 294 cuts the
    second from the first; [returns] is only ever appended to itself. *)
Record ReqVars := {
  heap : Slice.Heap;
  returns : list string;
  params : Slice.t;
  sendRequestArgs : Slice.t;
  HasNewId : bool;
  NewIdInterface : string
}.

Definition ReqVars_init : ReqVars :=
  {| heap := Slice.empty_heap; returns := []; params := Slice.nil;
     sendRequestArgs := Slice.nil; HasNewId := false;
     NewIdInterface := EmptyString |}.

(** [params = append(params, x)] *)
Definition append_params (x : string) (v : ReqVars) : ReqVars :=
  let '(h, s) := Slice.append (heap v) (params v) x in
  {| heap := h; returns := returns v; params := s;
     sendRequestArgs := sendRequestArgs v; HasNewId := HasNewId v;
     NewIdInterface := NewIdInterface v |}.

(** [sendRequestArgs = append(sendRequestArgs, x)] *)
Definition append_sendRequestArgs (x : string) (v : ReqVars) : ReqVars :=
  let '(h, s) := Slice.append (heap v) (sendRequestArgs v) x in
  {| heap := h; returns := returns v; params := params v;
     sendRequestArgs := s; HasNewId := HasNewId v;
     NewIdInterface := NewIdInterface v |}.

(** [sendRequestArgs = append(params, x)], line 294. *)
Definition sendRequestArgs_append_params (x : string) (v : ReqVars) : ReqVars :=
  let '(h, s) := Slice.append (heap v) (params v) x in
  {| heap := h; returns := returns v; params := params v;
     sendRequestArgs := s; HasNewId := HasNewId v;
     NewIdInterface := NewIdInterface v |}.

(** [returns = append(returns, x)] *)
Definition append_returns (x : string) (v : ReqVars) : ReqVars :=
  {| heap := heap v; returns := returns v ++ [x]; params := params v;
     sendRequestArgs := sendRequestArgs v; HasNewId := HasNewId v;
     NewIdInterface := NewIdInterface v |}.

(** [req.NewIdInterface = newIdIface] *)
Definition set_NewIdInterface (newIdIface : string) (v : ReqVars) : ReqVars :=
  {| heap := heap v; returns := returns v; params := params v;
     sendRequestArgs := sendRequestArgs v; HasNewId := HasNewId v;
     NewIdInterface := newIdIface |}.

(** [req.HasNewId = true] *)
Definition set_HasNewId (b : bool) (v : ReqVars) : ReqVars :=
  {| heap := heap v; returns := returns v; params := params v;
     sendRequestArgs := sendRequestArgs v; HasNewId := b;
     NewIdInterface := NewIdInterface v |}.

(** The body of [for _, arg := range wlReq.Args] (289-318). *)
Definition request_arg (names : gmap string string) (v : ReqVars) (arg : Arg) : ReqVars :=
  if decide (Arg_Type arg = "new_id") then
    if decide (Arg_Interface arg <> "") then
      let newIdIface := map_index names (Arg_Interface arg) in
      let v := set_NewIdInterface newIdIface v in
      let v := sendRequestArgs_append_params "Proxy(ret)" v in
      let v := set_HasNewId true v in
      append_returns ("*" +:+ newIdIface) v
    else (* special for registry.Bind *)
      let v := append_sendRequestArgs "iface" v in
      let v := append_sendRequestArgs "version" v in
      let v := append_sendRequestArgs (Arg_Name arg) v in
      let v := append_params "iface string" v in
      let v := append_params "version uint32" v in
      append_params (Arg_Name arg +:+ " Proxy") v
  else if decide (Arg_Type arg = "object" /\ Arg_Interface arg <> "") then
    let paramTypeName := map_index names (Arg_Interface arg) in
    let v := append_params (Arg_Name arg +:+ " *" +:+ paramTypeName) v in
    append_sendRequestArgs (Arg_Name arg) v
  else
    let v := append_sendRequestArgs (Arg_Name arg) v in
    append_params (Arg_Name arg +:+ " " +:+ map_index wlTypes (Arg_Type arg)) v.

Definition request_args (names : gmap string string) (args : list Arg) : ReqVars :=
  fold_left (request_arg names) args ReqVars_init.

(** One turn of [for order, wlReq := range i.WlInterface.Requests], up to
    the record handed to the template (270-330). *)
Definition GoRequest_of (names : gmap string string) (ifaceName : string)
    (order : nat) (wlReq : Request) : GoRequest :=
  let v := request_args names (Request_Args wlReq) in
  let sendArgs := Slice.elems (heap v) (sendRequestArgs v) in
  {| GoRequest_Name := CamelCase (Request_Name wlReq);
     GoRequest_IfaceName := ifaceName;
     GoRequest_Params := Join (Slice.elems (heap v) (params v)) ",";
     GoRequest_Returns :=
       (if decide (0 < length (returns v))
        then "(" +:+ Join (returns v) "," +:+ " , error)"
        else "error");
     GoRequest_Args :=
       (if decide (0 < length sendArgs)
        then "," +:+ Join sendArgs "," else EmptyString);
     GoRequest_HasNewId := HasNewId v;
     GoRequest_NewIdInterface := NewIdInterface v;
     GoRequest_Order := order;
     GoRequest_Summary := Description_Summary (Request_Description wlReq);
     GoRequest_Description := reflow (Description_Text (Request_Description wlReq)) |}.

Definition add_Request (req : GoRequest) (i : GoInterface) : GoInterface :=
  {| GoInterface_Name := GoInterface_Name i;
     GoInterface_WlInterface := GoInterface_WlInterface i;
     GoInterface_Requests := GoInterface_Requests i ++ [req];
     GoInterface_Events := GoInterface_Events i;
     GoInterface_Enums := GoInterface_Enums i |}.

Fixpoint ProcessRequests_from (order : nat) (reqs : list Request)
    (i : GoInterface) (w : World) : GoInterface * World :=
  match reqs with
  | [] => (i, w)
  | wlReq :: rest =>
      let req := GoRequest_of (wlNames w) (GoInterface_Name i) order wlReq in
      let w := executeTemplate requestTemplate req w in
      ProcessRequests_from (S order) rest (add_Request req i) w
  end.

Definition ProcessRequests (i : GoInterface) (w : World) : GoInterface * World :=
  ProcessRequests_from 0 (Interface_Requests (GoInterface_WlInterface i)) i w.

(** *** [ProcessEvents] (337-389) *)

(** The body of [for _, arg := range wlEv.Args] (346-378): the [GoArg]
    and, when the Go type has no decode call, a log line. *)
Definition event_arg (arg : Arg) (w : World) : GoArg * World :=
  let name := CamelCase (Arg_Name arg) in
  let pname := snakeCase (Arg_Name arg) in
  match wlTypes !! Arg_Type arg with
  | Some t => (* if basic type *)
      match bufTypesMap !! t with
      | None =>
          ({| GoArg_Name := name; GoArg_Type := t; GoArg_PName := pname;
              GoArg_BufMethod := EmptyString |},
           log_Printf (t +:+ " not registered") w)
      | Some bufMethod =>
          ({| GoArg_Name := name; GoArg_Type := t; GoArg_PName := pname;
              GoArg_BufMethod := bufMethod |}, w)
      end
  | None => (* interface type *)
      if decide ((Arg_Type arg = "object" \/ Arg_Type arg = "new_id")
                 /\ Arg_Interface arg <> "")
      then
        let t := "*" +:+ map_index (wlNames w) (Arg_Interface arg) in
        ({| GoArg_Name := name; GoArg_Type := t; GoArg_PName := pname;
            GoArg_BufMethod := "Proxy(p.Context()).(" +:+ t +:+ ")" |}, w)
      else
        ({| GoArg_Name := name; GoArg_Type := "Proxy"; GoArg_PName := pname;
            GoArg_BufMethod := "Proxy(p.Context())" |}, w)
  end.

Fixpoint event_args (args : list Arg) (acc : list GoArg) (w : World) : list GoArg * World :=
  match args with
  | [] => (acc, w)
  | arg :: rest =>
      let '(goarg, w) := event_arg arg w in
      event_args rest (acc ++ [goarg]) w
  end.

Definition add_Event (ev : GoEvent) (i : GoInterface) : GoInterface :=
  {| GoInterface_Name := GoInterface_Name i;
     GoInterface_WlInterface := GoInterface_WlInterface i;
     GoInterface_Requests := GoInterface_Requests i;
     GoInterface_Events := GoInterface_Events i ++ [ev];
     GoInterface_Enums := GoInterface_Enums i |}.

Fixpoint ProcessEvents_loop (evs : list Event) (i : GoInterface) (w : World)
    : GoInterface * World :=
  match evs with
  | [] => (i, w)
  | wlEv :: rest =>
      let '(args, w) := event_args (Event_Args wlEv) [] w in
      let ev := {| GoEvent_Name := CamelCase (Event_Name wlEv);
                   GoEvent_IfaceName := GoInterface_Name i;
                   GoEvent_PName := snakeCase (Event_Name wlEv);
                   GoEvent_Args := args |} in
      let w := executeTemplate eventTemplate ev w in
      let w := executeTemplate ifaceAddRemoveHandlerTemplate ev w in
      ProcessEvents_loop rest (add_Event ev i) w
  end.

Definition ProcessEvents (i : GoInterface) (w : World) : GoInterface * World :=
  let '(i, w) := ProcessEvents_loop (Interface_Events (GoInterface_WlInterface i)) i w in
  if decide (0 < length (GoInterface_Events i))
  then (i, executeTemplate ifaceDispatchTemplate i w)
  else (i, w).

(** [Constructor] (263-266) *)
Definition Constructor (i : GoInterface) (w : World) : World :=
  let w := executeTemplate ifaceTypeTemplate i w in
  executeTemplate ifaceConstructorTemplate i w.

(** [ProcessEnums] (391-409); the local [goEnum] is not stored in [i]. *)
Definition ProcessEnums (i : GoInterface) (w : World) : World :=
  fold_left
    (fun w wlEnum =>
       let goEnum :=
         {| GoEnum_Name := CamelCase (Enum_Name wlEnum);
            GoEnum_IfaceName := GoInterface_Name i;
            GoEnum_Entries :=
              map (fun wlEntry =>
                     {| GoEntry_Name := CamelCase (Entry_Name wlEntry);
                        GoEntry_Value := Entry_Value wlEntry |})
                  (Enum_Entries wlEnum) |} in
       executeTemplate ifaceEnums goEnum w)
    (Interface_Enums (GoInterface_WlInterface i)) w.

(** [fmtFile] (460-472) *)
Definition fmtFile (env : Env) (output : string) (w : World) : result World :=
  match exec_LookPath env "go" with
  | Fatal err =>
      Ok (log_Printf ("go executable cannot found run " +:+ dquote +:+ "go fmt "
                      +:+ output +:+ dquote +:+ " yourself: " +:+ err) w)
  | Ok goex =>
      match cmd_Run env goex ["fmt"; output] with
      | Some er2 => Fatal ("Cannot run cmd: " +:+ er2)
      | None => Ok w
      end
  end.

(** [sourceData] (160-178) followed by [decodeWlXML] (239-245). *)
Definition sourceData (env : Env) (source : string) : result string :=
  if decide (source = "") then Fatal "Must specify a -source"
  else if HasPrefix source "http:" || HasPrefix source "https:"
       then http_Get env source
       else os_Open env source.

Definition decodeWlXML (env : Env) (file : string) : result Protocol :=
  match xml_Decode env file with
  | Ok prot => Ok prot
  | Fatal err => Fatal ("Cannot decode wayland.xml: " +:+ err)
  end.

Definition new_GoInterface (names : gmap string string) (iface : Interface) : GoInterface :=
  {| GoInterface_Name := map_index names (Interface_Name iface);
     GoInterface_WlInterface := iface;
     GoInterface_Requests := [];
     GoInterface_Events := [];
     GoInterface_Enums := [] |}.

(** The body of the second loop of [main] (216-226). *)
Definition generate_interface (w : World) (iface : Interface) : World :=
  let goIface := new_GoInterface (wlNames w) iface in
  let '(goIface, w) := ProcessEvents goIface w in
  let w := Constructor goIface w in
  let '(goIface, w) := ProcessRequests goIface w in
  ProcessEnums goIface w.

(** [main] from the decoded protocol to the filled [fileBuffer] (198-226). *)
Definition generate (source : string) (protocol : Protocol) : World :=
  let names : gmap string string :=
    if decide (Protocol_Name protocol <> "wayland")
    then fold_left (fun m inherit => <[inherit := CamelCase inherit]> m)
                   inheritedNames ∅
    else ∅ in
  let w := {| wlNames := names; fileBuffer := EmptyString; logged := [] |} in
  (* required for request and event parameters *)
  let w := fold_left (fun w iface => snd (caseAndRegister (Interface_Name iface) w))
                     (Protocol_Interfaces protocol) w in
  let w := emit ("// generated by wl-scanner" +:+ nl
                 +:+ "// https://github.com/dkolbly/wl-scanner" +:+ nl) w in
  let w := emit ("// from: " +:+ source +:+ nl) w in
  let w := emit ("package wl" +:+ nl) w in
  let w := emit ("import " +:+ dquote +:+ "sync" +:+ dquote +:+ nl) w in
  fold_left generate_interface (Protocol_Interfaces protocol) w.

Definition fatal (msg : string) (fs : gmap string string) (log : list string) : Outcome :=
  {| exit_status := 1; files := fs; log_lines := log ++ [msg] |}.

(** [main] (180-237); [fs] is the file system before the run. *)
Definition main (env : Env) (source output : string) (fs : gmap string string) : Outcome :=
  let dest := output in
  if decide (dest = "") then fatal "Must specify -output" fs []
  else
    match sourceData env source with
    | Fatal err => fatal err fs []
    | Ok file =>
        match decodeWlXML env file with
        | Fatal err => fatal err fs []
        | Ok protocol =>
            let w := generate source protocol in
            match os_Create env dest with
            | Some err => fatal err fs (logged w)
            | None =>
                let fs := <[dest := fileBuffer w]> fs in
                match fmtFile env output w with
                | Fatal err => fatal err fs (logged w)
                | Ok w => {| exit_status := 0; files := fs; log_lines := logged w |}
                end
            end
        end
    end.

End WlScanner.

(** ** scanner.go: the older, buffer-driven generator *)
Module Legacy.

(** The package-level variables the request code touches. *)
Record World := {
  wlNames : gmap string string;
  ifaceBuffer : string;
  reqCodesBuffer : string
}.

(** [caseAndRegister] (188-193) *)
Definition caseAndRegister (wlName : string) (w : World) : string * World :=
  let orj := wlName in
  let wlName := CamelCase wlName in
  (wlName, {| wlNames := <[orj := wlName]> (wlNames w);
              ifaceBuffer := ifaceBuffer w;
              reqCodesBuffer := reqCodesBuffer w |}).

(** [enumArgName] (195-205).  After [log.Fatal] nothing is returned. *)
Definition enumArgName (ifaceName enumName : string) : result string :=
  if decide (Index enumName "." = (-1)%Z) then
    Ok (ifaceName +:+ CamelCase enumName)
  else
    let parts := Split enumName "." in
    if decide (length parts <> 2) then
      Fatal ("enum args must be " +:+ dquote +:+ "interface.enum" +:+ dquote +:+ " format")
    else
      Ok (CamelCase (parts !!! 0) +:+ CamelCase (parts !!! 1)).

(** The body of the loop of [requestArgs] (337-355): the parameters the
    argument adds. *)
Definition requestArg (names : gmap string string) (ifaceName : string) (arg : Arg)
    : result (list string) :=
  (* special type, for example registry.bind *)
  if decide (Arg_Type arg = "new_id") then
    if decide (Arg_Interface arg = "") then
      Ok ["iface string"; "version uint32"; Arg_Name arg +:+ " Proxy"]
    else Ok []
  else if decide (Arg_Type arg = "object" /\ Arg_Interface arg <> "") then
    let argTypeName := map_index names (Arg_Interface arg) in
    Ok [Arg_Name arg +:+ " *" +:+ argTypeName]
  else if decide (Arg_Type arg = "uint" /\ Arg_Enum arg <> "") then
    match enumArgName ifaceName (Arg_Enum arg) with
    | Ok t => Ok [Arg_Name arg +:+ " " +:+ t]
    | Fatal msg => Fatal msg
    end
  else
    Ok [Arg_Name arg +:+ " " +:+ map_index wlTypes (Arg_Type arg)].

Fixpoint requestArgs_loop (names : gmap string string) (ifaceName : string)
    (l : list Arg) (args : list string) : result (list string) :=
  match l with
  | [] => Ok args
  | arg :: rest =>
      match requestArg names ifaceName arg with
      | Ok new => requestArgs_loop names ifaceName rest (args ++ new)
      | Fatal msg => Fatal msg
      end
  end.

(** [requestArgs] (331-360) *)
Definition requestArgs (names : gmap string string) (ifaceName : string) (req : Request)
    : result string :=
  match requestArgs_loop names ifaceName (Request_Args req) [] with
  | Ok args => Ok (Join args ",")
  | Fatal msg => Fatal msg
  end.

(** [requestRets] (362-387) *)
Definition requestRets (names : gmap string string) (req : Request) : string :=
  let rets :=
    fold_left
      (fun rets arg =>
         if decide (Arg_Type arg = "new_id" /\ Arg_Interface arg <> "")
         then rets ++ ["*" +:+ map_index names (Arg_Interface arg)]
         else rets)
      (Request_Args req) [] in
  (* all request have an error return *)
  let rets := rets ++ ["error"] in
  let retstr := Join rets "," in
  if decide (1 < length rets) then "( " +:+ retstr +:+ " )" else retstr.

(** The variables of the first loop of [requestBody]. *)
Record BodyVars := {
  params : list string;
  bodyBuffer : string;
  hasRet : string
}.

(** [requestBody] (389-421) *)
Definition requestBody (names : gmap string string) (req : Request)
    (reqCodeName : string) : string :=
  let v :=
    fold_left
      (fun v arg =>
         if decide (Arg_Type arg = "new_id") then
           if decide (Arg_Interface arg <> "") then
             let retTypeName := map_index names (Arg_Interface arg) in
             {| bodyBuffer := bodyBuffer v +:+ "ret := New" +:+ retTypeName
                              +:+ "(p.Connection())" +:+ nl;
                params := params v ++ ["Proxy(ret)"];
                hasRet := "ret," |}
           else
             {| bodyBuffer := bodyBuffer v;
                params := params v ++ ["iface"; "version"; Arg_Name arg];
                hasRet := hasRet v |}
         else
           {| bodyBuffer := bodyBuffer v;
              params := params v ++ [Arg_Name arg];
              hasRet := hasRet v |})
      (Request_Args req)
      {| params := []; bodyBuffer := EmptyString; hasRet := EmptyString |} in
  let paramsBuffer :=
    fold_left (fun buf param => buf +:+ "," +:+ param) (params v) EmptyString in
  bodyBuffer v +:+ "return " +:+ hasRet v +:+ " p.Connection().SendRequest(p,"
  +:+ reqCodeName +:+ paramsBuffer +:+ ")".

(** [fmtFile] (450-461) *)
Definition fmtFile (env : Env) (log : list string) : result (list string) :=
  match exec_LookPath env "go" with
  | Fatal err =>
      Ok (log ++ ["go executable cannot found run " +:+ dquote
                  +:+ "go fmt client.go" +:+ dquote +:+ " yourself: " +:+ err])
  | Ok goex =>
      match cmd_Run env goex ["fmt"; "client.go"] with
      | Some err => Fatal ("Cannot run cmd : " +:+ err)
      | None => Ok log
      end
  end.

End Legacy.

(** ** The behaviour of the generated code

    What the methods printed by [ifaceAddRemoveHandlerTemplate] and
    [ifaceDispatchTemplate] do when they run, one goroutine at a time.
    The transport is outside the generator: the decode calls on an event
    and the handlers are parameters. *)
Module Generated.

Import WlScanner.

(** A value of the interface type [Handler]: nil, or an object with an
    identity. *)
Inductive Handler : Type :=
| nil_Handler
| a_Handler (id : nat).

Global Instance Handler_eq_dec : EqDecision Handler.
Proof. solve_decision. Defined.

(** An instance of a generated interface type: its handler fields, by
    the event's [PName]; a field never assigned holds the nil slice. *)
Abbreviation Instance := (gmap string (list Handler)).

(** [new(T)] of the generated constructor. *)
Definition new_Instance : Instance := ∅.

(** [p.{{.PName}}Handlers] *)
Definition Handlers (p : Instance) (ev : GoEvent) : list Handler :=
  default [] (p !! GoEvent_PName ev).

(** [Add{{.Name}}Handler]: the append sits under [if h != nil]. *)
Definition AddHandler (ev : GoEvent) (h : Handler) (p : Instance) : Instance :=
  if decide (h <> nil_Handler)
  then <[GoEvent_PName ev := Handlers p ev ++ [h]]> p
  else p.

(** The loop of [Remove{{.Name}}Handler]: the first element equal to [h]
    is cut out, then [break]. *)
Fixpoint remove_first (h : Handler) (l : list Handler) : list Handler :=
  match l with
  | [] => []
  | e :: rest => if decide (e = h) then rest else e :: remove_first h rest
  end.

(** [Remove{{.Name}}Handler] *)
Definition RemoveHandler (ev : GoEvent) (h : Handler) (p : Instance) : Instance :=
  match p !! GoEvent_PName ev with
  | Some l => <[GoEvent_PName ev := remove_first h l]> p
  | None => p
  end.

Section Dispatch.

(** The payload of a wire event, and what a decode call ([Int32()],
    [Proxy(p.Context())], ...) returns and leaves of it. *)
Variable Buffer : Type.
Variable Value : Type.
Variable decode : string -> Buffer -> Value * Buffer.

Record WireEvent := { opcode : nat; payload : Buffer }.

(** The inner [range $event.Args]: one assignment
    [ev.{{.Name}} = event.{{.BufMethod}}] after the other. *)
Fixpoint decode_fields (args : list GoArg) (buf : Buffer) : list (string * Value) :=
  match args with
  | [] => []
  | a :: rest =>
      let '(v, buf) := decode (GoArg_BufMethod a) buf in
      (GoArg_Name a, v) :: decode_fields rest buf
  end.

(** A call [h.Handle(ev)]. *)
Definition Call : Type := Handler * list (string * Value).

(** The body of one [case]. *)
Definition case_body (ev : GoEvent) (event : WireEvent) (p : Instance) : list Call :=
  if decide (0 < length (Handlers p ev)) then
    let record := decode_fields (GoEvent_Args ev) (payload event) in
    map (fun h => (h, record)) (Handlers p ev)
  else [].

(** A Go [switch] on constants: the first case whose label is the tag
    runs; without a default, no match does nothing. *)
Fixpoint switch {A : Type} (tag : nat) (cases : list (nat * list A)) : list A :=
  match cases with
  | [] => []
  | (label, body) :: rest => if decide (tag = label) then body else switch tag rest
  end.

(** [Dispatch]: the cases are those of [range $i , $event := .Events]. *)
Definition Dispatch (i : GoInterface) (event : WireEvent) (p : Instance) : list Call :=
  switch (opcode event)
         (imap (fun k ev => (k, case_body ev event p)) (GoInterface_Events i)).

End Dispatch.

Arguments opcode {Buffer} _.
Arguments payload {Buffer} _.
Arguments decode_fields {Buffer Value} decode args buf.
Arguments case_body {Buffer Value} decode ev event p.
Arguments Dispatch {Buffer Value} decode i event p.

(** Calls made on an instance from outside. *)
Inductive Op : Type :=
| Add (ev : GoEvent) (h : Handler)
| Remove (ev : GoEvent) (h : Handler).

Definition run_Op (p : Instance) (o : Op) : Instance :=
  match o with
  | Add ev h => AddHandler ev h p
  | Remove ev h => RemoveHandler ev h p
  end.

Definition run_Ops (ops : list Op) (p : Instance) : Instance :=
  fold_left run_Op ops p.

End Generated.

(** ** Sample inputs *)
Module Samples.

Definition no_Description : Description :=
  {| Description_Summary := EmptyString; Description_Text := EmptyString |}.

Definition mkArg (name type iface : string) : Arg :=
  {| Arg_Name := name; Arg_Type := type; Arg_Interface := iface;
     Arg_Enum := EmptyString; Arg_AllowNull := false;
     Arg_Summary := EmptyString |}.

Definition mkEnumArg (name enum : string) : Arg :=
  {| Arg_Name := name; Arg_Type := "uint"; Arg_Interface := EmptyString;
     Arg_Enum := enum; Arg_AllowNull := false; Arg_Summary := EmptyString |}.

Definition mkRequest (name : string) (args : list Arg) : Request :=
  {| Request_Name := name; Request_Type := EmptyString; Request_Since := 0%Z;
     Request_Description := no_Description; Request_Args := args |}.

Definition mkEvent (name : string) (args : list Arg) : Event :=
  {| Event_Name := name; Event_Since := 0%Z;
     Event_Description := no_Description; Event_Args := args |}.

Definition mkInterface (name : string) (reqs : list Request) (evs : list Event)
    : Interface :=
  {| Interface_Name := name; Interface_Version := 1%Z; Interface_Since := 0%Z;
     Interface_Description := no_Description; Interface_Requests := reqs;
     Interface_Events := evs; Interface_Enums := [] |}.

(** The world after the registration pass over a protocol that declares
    [wl_pointer] and [wl_surface]. *)
Definition world0 : WlScanner.World :=
  {| WlScanner.wlNames := <["wl_pointer" := "Pointer"]> (<["wl_surface" := "Surface"]> ∅);
     WlScanner.fileBuffer := EmptyString;
     WlScanner.logged := [] |}.

(** [wl_pointer] with its [motion] and [button] events, abridged. *)
Definition wl_pointer : Interface :=
  mkInterface "wl_pointer"
    [mkRequest "set_cursor" [mkArg "serial" "uint" ""; mkArg "surface" "object" "wl_surface"];
     mkRequest "release" []]
    [mkEvent "motion" [mkArg "time" "uint" ""; mkArg "surface_x" "fixed" ""];
     mkEvent "button" [mkArg "serial" "uint" ""; mkArg "button" "uint" ""]].

End Samples.

(** ** The shape of a request method, argument by argument

    What one argument contributes to the parameter list and to the list
    of returned types, and the invariant that ties the two slices of the
    request loop. *)
Module Shape.

Import WlScanner.

(** The parameters an argument adds (lines 303-305, 309, 316). *)
Definition arg_params (names : gmap string string) (arg : Arg) : list string :=
  if decide (Arg_Type arg = "new_id") then
    if decide (Arg_Interface arg <> "") then []
    else ["iface string"; "version uint32"; Arg_Name arg +:+ " Proxy"]
  else if decide (Arg_Type arg = "object" /\ Arg_Interface arg <> "") then
    [Arg_Name arg +:+ " *" +:+ map_index names (Arg_Interface arg)]
  else
    [Arg_Name arg +:+ " " +:+ map_index wlTypes (Arg_Type arg)].

(** The returned types an argument adds (line 297). *)
Definition arg_returns (names : gmap string string) (arg : Arg) : list string :=
  if decide (Arg_Type arg = "new_id" /\ Arg_Interface arg <> "")
  then ["*" +:+ map_index names (Arg_Interface arg)]
  else [].

(** A new-object argument that names its interface. *)
Definition typed_new_id (arg : Arg) : Prop :=
  Arg_Type arg = "new_id" /\ Arg_Interface arg <> "".

(** A new-object argument that names no interface. *)
Definition untyped_new_id (arg : Arg) : Prop :=
  Arg_Type arg = "new_id" /\ Arg_Interface arg = "".

Global Instance typed_new_id_dec (arg : Arg) : Decision (typed_new_id arg).
Proof. unfold typed_new_id. apply _. Defined.

Global Instance untyped_new_id_dec (arg : Arg) : Decision (untyped_new_id arg).
Proof. unfold untyped_new_id. apply _. Defined.

(** The wire arguments an argument stands for in the send call: the new
    object, the three values of a late binding, or the argument itself. *)
Definition arg_send (arg : Arg) : list string :=
  if decide (Arg_Type arg = "new_id") then
    if decide (Arg_Interface arg <> "") then ["Proxy(ret)"]
    else ["iface"; "version"; Arg_Name arg]
  else [Arg_Name arg].

(** The two slices share no array that can be written. *)
Definition separate (v : ReqVars) : Prop :=
  Slice.ptr (sendRequestArgs v) = Slice.ptr (params v) -> Slice.cap (params v) = 0.

(** Both slices are well formed. *)
Definition slices_wf (v : ReqVars) : Prop :=
  Slice.wf (heap v) (params v) /\ Slice.wf (heap v) (sendRequestArgs v).

(** While [sendRequestArgs] sits on the array of [params], their lengths
    differ by [m - n]. *)
Definition aliased_at (v : ReqVars) (n m : nat) : Prop :=
  Slice.ptr (sendRequestArgs v) = Slice.ptr (params v) ->
  0 < Slice.cap (params v) ->
  Slice.len (sendRequestArgs v) + n = Slice.len (params v) + m.

End Shape.

(** ** More sample inputs *)
Module Samples2.
Import Samples.

(** A request with two new-object arguments, the first late-bound. *)
Definition bind_both : Request :=
  mkRequest "bind_both" [mkArg "id" "new_id" ""; mkArg "obj" "new_id" "wl_surface"].

(** A request with two typed new-object arguments. *)
Definition make_two : Request :=
  mkRequest "make_two" [mkArg "a" "new_id" "wl_pointer"; mkArg "b" "new_id" "wl_surface"].

(** [wl_registry.bind] and [wl_compositor.create_surface]. *)
Definition bind : Request :=
  mkRequest "bind" [mkArg "name" "uint" ""; mkArg "id" "new_id" ""].

Definition create_surface : Request :=
  mkRequest "create_surface" [mkArg "id" "new_id" "wl_surface"].

(** A request whose typed new-object argument follows another argument. *)
Definition get_thing : Request :=
  mkRequest "get_thing" [mkArg "x" "int" ""; mkArg "id" "new_id" "wl_surface"].

End Samples2.

(** ** Auxiliary notions of the properties *)
Module Aux.

Import WlScanner Generated.

(** [strings.Contains], to look into generated text. *)
Fixpoint Contains (s substr : string) : bool :=
  HasPrefix s substr
  || match s with
     | EmptyString => false
     | String _ s' => Contains s' substr
     end.

(** The words of a native name: the prefix stripped, cut at the
    underscores. *)
Definition name_words (wlName : string) : list string :=
  Split (Replace (if HasPrefix wlName "wl_" then TrimPrefix wlName "wl_" else wlName)
                 "_" " ") " ".

(** How often a byte occurs. *)
Fixpoint count_byte (s : string) (c : ascii) : nat :=
  match s with
  | EmptyString => 0
  | String a s' => (if byte_eqb a c then 1 else 0) + count_byte s' c
  end.

(** What is left of a payload after the decode calls for [args]. *)
Definition payload_after {Buffer Value : Type}
    (decode : string -> Buffer -> Value * Buffer) (args : list GoArg) (buf : Buffer)
    : Buffer :=
  fold_left (fun b a => (decode (GoArg_BufMethod a) b).2) args buf.

(** Every handler stored in the instance is a real one. *)
Definition no_nil_handler (p : Instance) : Prop :=
  forall (field : string) (l : list Handler),
    p !! field = Some l -> Forall (fun h => h <> nil_Handler) l.

(** A transport for examples: the payload is a list of numbers, every
    decode call takes the next one. *)
Definition decode_next (method : string) (buf : list nat) : nat * list nat :=
  match buf with
  | [] => (0, [])
  | x :: rest => (x, rest)
  end.

End Aux.

(** ** Sample handlers *)
Module Samples3.
Import WlScanner Generated.

(** [wl_pointer] as the event loop leaves it. *)
Definition pointer : GoInterface :=
  (ProcessEvents (new_GoInterface (wlNames Samples.world0) Samples.wl_pointer)
                 Samples.world0).1.

Definition motion : GoEvent :=
  {| GoEvent_Name := "Motion"; GoEvent_IfaceName := "Pointer";
     GoEvent_PName := "motion"; GoEvent_Args := [] |}.

Definition button : GoEvent :=
  {| GoEvent_Name := "Button"; GoEvent_IfaceName := "Pointer";
     GoEvent_PName := "button"; GoEvent_Args := [] |}.

(** One handler registered for each of the two events. *)
Definition two_handlers : Instance :=
  AddHandler button (a_Handler 2) (AddHandler motion (a_Handler 1) new_Instance).

End Samples3.

(** ** Sample runs *)
Module Runs.
Import Samples.

(** A protocol whose only interface refers to [wl_missing], which no
    interface of the protocol declares and the inherited names lack. *)
Definition wl_thing : Interface :=
  mkInterface "wl_thing"
    [mkRequest "attach" [mkArg "s" "object" "wl_missing"];
     mkRequest "create" [mkArg "id" "new_id" "wl_missing"]]
    [mkEvent "enter" [mkArg "s" "object" "wl_missing"]].

Definition thing_protocol : Protocol :=
  {| Protocol_Name := "wayland"; Protocol_Copyright := EmptyString;
     Protocol_Interfaces := [wl_thing] |}.

(** Everything outside the generator works; [fmt_result] is how the
    formatter command ends. *)
Definition env_with (fmt_result : option string) : Env :=
  {| http_Get := fun _ => Fatal "no network";
     os_Open := fun _ => Ok "<protocol/>";
     xml_Decode := fun _ => Ok thing_protocol;
     os_Create := fun _ => None;
     exec_LookPath := fun _ => Ok "/usr/bin/go";
     cmd_Run := fun _ _ => fmt_result |}.

End Runs.

(** ** The output, piece by piece

    Reference functions for the text of an interface: what the three
    loops and the constructor print for it, given the registry. *)
Module Pieces.

Import WlScanner.

Definition world_of (names : gmap string string) : World :=
  {| wlNames := names; fileBuffer := EmptyString; logged := [] |}.

(** The record of an event (lines 340-378). *)
Definition event_record (names : gmap string string) (ifaceName : string) (e : Event)
    : GoEvent :=
  {| GoEvent_Name := CamelCase (Event_Name e);
     GoEvent_IfaceName := ifaceName;
     GoEvent_PName := snakeCase (Event_Name e);
     GoEvent_Args := map (fun a => (event_arg a (world_of names)).1) (Event_Args e) |}.

(** The record of an enum (lines 394-405). *)
Definition enum_record (ifaceName : string) (e : Enum) : GoEnum :=
  {| GoEnum_Name := CamelCase (Enum_Name e);
     GoEnum_IfaceName := ifaceName;
     GoEnum_Entries :=
       map (fun wlEntry =>
              {| GoEntry_Name := CamelCase (Entry_Name wlEntry);
                 GoEntry_Value := Entry_Value wlEntry |})
           (Enum_Entries e) |}.

(** The interface as the event loop leaves it. *)
Definition with_events (names : gmap string string) (iface : Interface) : GoInterface :=
  {| GoInterface_Name := map_index names (Interface_Name iface);
     GoInterface_WlInterface := iface;
     GoInterface_Requests := [];
     GoInterface_Events :=
       map (event_record names (map_index names (Interface_Name iface)))
           (Interface_Events iface);
     GoInterface_Enums := [] |}.

Definition events_text (names : gmap string string) (iface : Interface) : string :=
  String.concat EmptyString
    (map (fun ev => eventTemplate ev +:+ ifaceAddRemoveHandlerTemplate ev)
         (GoInterface_Events (with_events names iface)))
  +:+ (if decide (0 < length (Interface_Events iface))
       then ifaceDispatchTemplate (with_events names iface) else EmptyString).

Definition requests_text (names : gmap string string) (iface : Interface) : string :=
  String.concat EmptyString
    (imap (fun k r => requestTemplate
                        (GoRequest_of names (map_index names (Interface_Name iface)) k r))
          (Interface_Requests iface)).

Definition enums_text (names : gmap string string) (iface : Interface) : string :=
  String.concat EmptyString
    (map (fun e => ifaceEnums (enum_record (map_index names (Interface_Name iface)) e))
         (Interface_Enums iface)).

(** Events and dispatch, then type and constructor, then requests, then
    enums: the order of the calls in [main]. *)
Definition interface_text (names : gmap string string) (iface : Interface) : string :=
  events_text names iface
  +:+ ifaceTypeTemplate (with_events names iface)
  +:+ ifaceConstructorTemplate (with_events names iface)
  +:+ requests_text names iface
  +:+ enums_text names iface.

(** The four lines [main] prints first. *)
Definition header (source : string) : string :=
  "// generated by wl-scanner" +:+ nl
  +:+ "// https://github.com/dkolbly/wl-scanner" +:+ nl
  +:+ "// from: " +:+ source +:+ nl
  +:+ "package wl" +:+ nl
  +:+ "import " +:+ dquote +:+ "sync" +:+ dquote +:+ nl.

(** The names [main] registers before it generates anything. *)
Definition registered (protocol : Protocol) (k : string) : Prop :=
  k ∈ map Interface_Name (Protocol_Interfaces protocol)
  \/ (Protocol_Name protocol <> "wayland" /\ k ∈ inheritedNames).

Global Instance registered_dec (protocol : Protocol) (k : string) :
  Decision (registered protocol k).
Proof. unfold registered. apply _. Defined.

End Pieces.

(** ** A protocol with a forward reference *)
Module Forward.
Import Samples.

(** [wl_seat] is declared before [wl_pointer] and refers to it. *)
Definition wl_seat : Interface :=
  mkInterface "wl_seat"
    [mkRequest "set_focus" [mkArg "serial" "uint" ""; mkArg "pointer" "object" "wl_pointer"]]
    [].

Definition protocol : Protocol :=
  {| Protocol_Name := "wayland"; Protocol_Copyright := EmptyString;
     Protocol_Interfaces := [wl_seat; wl_pointer] |}.

End Forward.

(** ** scanner.go: the rest of the older generator

    The first pass, the five functions that [main] calls for every
    interface, and the tail of [main] from the decoded protocol on.  How
    [main] gets at the XML (a file handle, or [getDevelXml] over HTTP
    into a temporary file) is left to the environment. *)
Module LegacyMain.

Import Legacy.

(** All package-level variables: those of [Legacy.World] and
    [constBuffer]. *)
Record State := {
  world : World;
  constBuffer : string
}.

Definition names (st : State) : gmap string string := wlNames (world st).

(** Writing to one of the three buffers. *)
Definition to_ifaceBuffer (text : string) (st : State) : State :=
  {| world := {| wlNames := wlNames (world st);
                 ifaceBuffer := ifaceBuffer (world st) +:+ text;
                 reqCodesBuffer := reqCodesBuffer (world st) |};
     constBuffer := constBuffer st |}.

Definition to_reqCodesBuffer (text : string) (st : State) : State :=
  {| world := {| wlNames := wlNames (world st);
                 ifaceBuffer := ifaceBuffer (world st);
                 reqCodesBuffer := reqCodesBuffer (world st) +:+ text |};
     constBuffer := constBuffer st |}.

Definition to_constBuffer (text : string) (st : State) : State :=
  {| world := world st; constBuffer := constBuffer st +:+ text |}.

(** [caseAndRegister] on the whole state. *)
Definition register (wlName : string) (st : State) : string * State :=
  let '(name, w) := caseAndRegister wlName (world st) in
  (name, {| world := w; constBuffer := constBuffer st |}).

(** [strings.ToTitle] on ASCII: every letter in upper case. *)
Fixpoint ToTitle_string (s : string) : string :=
  match s with
  | EmptyString => EmptyString
  | String c s' => String (ToTitle c) (ToTitle_string s')
  end.

(** The line of one argument in an event struct (306-322). *)
Definition eventField (names : gmap string string) (ifaceName : string) (arg : Arg)
    : string :=
  match wlTypes !! Arg_Type arg with
  | Some t => (* if basic type *)
      if decide (Arg_Type arg = "uint" /\ Arg_Enum arg <> "") then (* enum type *)
        let enumTypeName := ifaceName +:+ CamelCase (Arg_Enum arg) in
        CamelCase (Arg_Name arg) +:+ " " +:+ enumTypeName +:+ nl
      else
        CamelCase (Arg_Name arg) +:+ " " +:+ t +:+ nl
  | None => (* interface type *)
      let t :=
        if decide ((Arg_Type arg = "object" \/ Arg_Type arg = "new_id")
                   /\ Arg_Interface arg <> "")
        then "*" +:+ map_index names (Arg_Interface arg)
        else "Proxy" in
      CamelCase (Arg_Name arg) +:+ " " +:+ t +:+ nl
  end.

(** [interfaceEvents] (295-329): the text of the event structs, the
    event names, and the state with those names registered. *)
Fixpoint interfaceEvents_loop (ifaceName : string) (events : list Event)
    (eventBuffer : string) (eventNames : list string) (st : State)
    : string * list string * State :=
  match events with
  | [] => (eventBuffer, eventNames, st)
  | event :: rest =>
      let '(eventName, st) := register (Event_Name event) st in
      let eventBuffer :=
        eventBuffer +:+ nl +:+ "type " +:+ ifaceName +:+ eventName
        +:+ "Event struct {" +:+ nl in
      let eventBuffer :=
        fold_left (fun buf arg => buf +:+ eventField (names st) ifaceName arg)
                  (Event_Args event) eventBuffer in
      interfaceEvents_loop ifaceName rest (eventBuffer +:+ "}" +:+ nl)
                           (eventNames ++ [eventName]) st
  end.

Definition interfaceEvents (iface : Interface) (st : State)
    : string * list string * State :=
  interfaceEvents_loop (map_index (names st) (Interface_Name iface))
                       (Interface_Events iface) EmptyString [] st.

(** [interfaceTypes] (239-248) *)
Definition interfaceTypes (iface : Interface) (eventNames : list string) (st : State)
    : State :=
  let ifaceName := map_index (names st) (Interface_Name iface) in
  let st := to_ifaceBuffer (nl +:+ "type " +:+ ifaceName +:+ " struct {" +:+ nl) st in
  let st := to_ifaceBuffer ("BaseProxy" +:+ nl) st in
  let st :=
    fold_left (fun st evName =>
                 to_ifaceBuffer (evName +:+ "Chan chan " +:+ ifaceName +:+ evName
                                 +:+ "Event" +:+ nl) st)
              eventNames st in
  to_ifaceBuffer ("}" +:+ nl) st.

(** [interfaceConstructor] (224-237) *)
Definition interfaceConstructor (iface : Interface) (eventNames : list string)
    (st : State) : State :=
  let ifaceName := map_index (names st) (Interface_Name iface) in
  let st := to_ifaceBuffer (nl +:+ "func New" +:+ ifaceName +:+ "(conn *Connection) *"
                            +:+ ifaceName +:+ " {" +:+ nl) st in
  let st := to_ifaceBuffer ("ret := new(" +:+ ifaceName +:+ ")" +:+ nl) st in
  let st :=
    fold_left (fun st evName =>
                 to_ifaceBuffer ("ret." +:+ evName +:+ "Chan = make(chan " +:+ ifaceName
                                 +:+ evName +:+ "Event)" +:+ nl) st)
              eventNames st in
  let st := to_ifaceBuffer ("conn.Register(ret)" +:+ nl) st in
  let st := to_ifaceBuffer ("return ret" +:+ nl) st in
  to_ifaceBuffer ("}" +:+ nl) st.

(** The name of a request's code constant (257): the first underscore
    keeps the constant from being exported. *)
Definition reqCodeName (ifaceName reqName : string) : string :=
  ToTitle_string ("_" +:+ ifaceName +:+ "_" +:+ reqName).

(** [interfaceRequests] (250-275); [requestArgs] may end the run. *)
Fixpoint interfaceRequests_loop (ifaceName : string) (order : nat)
    (reqs : list Request) (st : State) : result State :=
  match reqs with
  | [] => Ok st
  | req :: rest =>
      let reqName := CamelCase (Request_Name req) in
      let code := reqCodeName ifaceName reqName in
      let st := to_reqCodesBuffer (code +:+ " = " +:+ Itoa order +:+ nl) st in
      let st := to_ifaceBuffer (nl +:+ "func (p *" +:+ ifaceName +:+ ") " +:+ reqName
                                +:+ "(") st in
      (* get args buffer *)
      match requestArgs (names st) ifaceName req with
      | Fatal msg => Fatal msg
      | Ok args =>
          let st := to_ifaceBuffer args st in
          let st := to_ifaceBuffer ")" st in (* close the args *)
          (* get returns buffer *)
          let st := to_ifaceBuffer (requestRets (names st) req) st in
          let st := to_ifaceBuffer ("{" +:+ nl) st in
          (* get method body *)
          let st := to_ifaceBuffer (requestBody (names st) req code) st in
          let st := to_ifaceBuffer (nl +:+ "}" +:+ nl) st in
          interfaceRequests_loop ifaceName (S order) rest st
      end
  end.

Definition interfaceRequests (iface : Interface) (st : State) : result State :=
  interfaceRequests_loop (map_index (names st) (Interface_Name iface)) 0
                         (Interface_Requests iface) st.

(** The inner loop of [interfaceEnums] (286-290). *)
Fixpoint enumEntries_loop (ifaceName enumName constTypeName : string)
    (entries : list Entry) (st : State) : State :=
  match entries with
  | [] => st
  | entry :: rest =>
      let '(entryName, st) := register (Entry_Name entry) st in
      let constName := ifaceName +:+ enumName +:+ entryName in
      let st := to_constBuffer (constName +:+ " " +:+ constTypeName +:+ " = "
                                +:+ Entry_Value entry +:+ nl) st in
      enumEntries_loop ifaceName enumName constTypeName rest st
  end.

(** [interfaceEnums] (277-293) *)
Fixpoint interfaceEnums_loop (ifaceName : string) (enums : list Enum) (st : State)
    : State :=
  match enums with
  | [] => st
  | enum :: rest =>
      let '(enumName, st) := register (Enum_Name enum) st in
      let constTypeName := ifaceName +:+ enumName in
      (* enums are uint *)
      let st := to_constBuffer (nl +:+ "type " +:+ constTypeName +:+ " uint32" +:+ nl) st in
      let st := to_constBuffer ("const (" +:+ nl) st in
      let st := enumEntries_loop ifaceName enumName constTypeName (Enum_Entries enum) st in
      let st := to_constBuffer (")" +:+ nl) st in
      interfaceEnums_loop ifaceName rest st
  end.

Definition interfaceEnums (iface : Interface) (st : State) : State :=
  interfaceEnums_loop (map_index (names st) (Interface_Name iface))
                      (Interface_Enums iface) st.

(** The body of the second loop of [main] (152-160). *)
Definition generate_interface (iface : Interface) (st : State) : result State :=
  let '(eventBuffer, eventNames, st) := interfaceEvents iface st in
  let st := to_ifaceBuffer eventBuffer st in
  let st := interfaceTypes iface eventNames st in
  let st := interfaceConstructor iface eventNames st in
  match interfaceRequests iface st with
  | Fatal msg => Fatal msg
  | Ok st => Ok (interfaceEnums iface st)
  end.

Fixpoint generate_interfaces (ifaces : list Interface) (st : State) : result State :=
  match ifaces with
  | [] => Ok st
  | iface :: rest =>
      match generate_interface iface st with
      | Fatal msg => Fatal msg
      | Ok st => generate_interfaces rest st
      end
  end.

(** [main] from the decoded protocol to the three filled buffers
    (140-162). *)
Definition generate (protocol : Protocol) : result State :=
  let st := {| world := {| wlNames := ∅; ifaceBuffer := EmptyString;
                           reqCodesBuffer := EmptyString |};
               constBuffer := "package wl" |} in
  (* required for arg type's determine *)
  let st := fold_left (fun st iface => snd (register (Interface_Name iface) st))
                      (Protocol_Interfaces protocol) st in
  let st := to_reqCodesBuffer (nl +:+ "//Interface Request Codes" +:+ nl) st in
  let st := to_reqCodesBuffer (nl +:+ "const (" +:+ nl) st in
  match generate_interfaces (Protocol_Interfaces protocol) st with
  | Fatal msg => Fatal msg
  | Ok st => Ok (to_reqCodesBuffer ")" st) (* request codes end *)
  end.

(** [main] from the decoded protocol on (140-185).  [overwrite] is the
    [-o] flag; [client.go] exists when the file system holds it. *)
Definition main_decoded (env : Env) (overwrite : bool) (protocol : Protocol)
    (fs : gmap string string) : Outcome :=
  match generate protocol with
  | Fatal msg => {| exit_status := 1; files := fs; log_lines := [msg] |}
  | Ok st =>
      (* if file exists *)
      if decide (is_Some (fs !! "client.go") /\ overwrite = false) then
        {| exit_status := 0; files := fs;
           log_lines := ["client.go exists if you want to overwrite try -o flag"] |}
      else
        match os_Create env "client.go" with
        | Some err =>
            {| exit_status := 1; files := fs;
               log_lines := ["Cannot create file: " +:+ err] |}
        | None =>
            let text := constBuffer st +:+ reqCodesBuffer (world st)
                        +:+ ifaceBuffer (world st) in
            let fs := <["client.go" := text]> fs in
            (* go fmt file *)
            match fmtFile env [] with
            | Fatal msg => {| exit_status := 1; files := fs; log_lines := [msg] |}
            | Ok log => {| exit_status := 0; files := fs; log_lines := log |}
            end
        end
  end.

End LegacyMain.

(** ** Enum references the older generator rejects *)
Module Rejects.

Import Aux.

(** An unsigned argument whose enum-reference holds two dots or more. *)
Definition bad_enum_arg (arg : Arg) : Prop :=
  Arg_Type arg = "uint" /\ 2 <= count_byte (Arg_Enum arg) ".".

Definition bad_request (req : Request) : Prop :=
  Exists bad_enum_arg (Request_Args req).

Definition bad_interface (iface : Interface) : Prop :=
  Exists bad_request (Interface_Requests iface).

(** A protocol for the examples: one enum, referred to by a request and
    by an event, once well and once with two dots. *)
Definition axis : Enum :=
  {| Enum_Name := "axis"; Enum_BitField := false;
     Enum_Description := Samples.no_Description;
     Enum_Entries :=
       [{| Entry_Name := "vertical_scroll"; Entry_Value := "0";
           Entry_Summary := EmptyString |};
        {| Entry_Name := "horizontal_scroll"; Entry_Value := "0x1";
           Entry_Summary := EmptyString |}] |}.

Definition pointer_with (enum_ref : string) : Interface :=
  {| Interface_Name := "wl_pointer"; Interface_Version := 1%Z;
     Interface_Since := 0%Z; Interface_Description := Samples.no_Description;
     Interface_Requests :=
       [Samples.mkRequest "set_axis" [Samples.mkEnumArg "ax" enum_ref];
        Samples.mkRequest "release" []];
     Interface_Events :=
       [Samples.mkEvent "axis" [Samples.mkArg "time" "uint" "";
                                Samples.mkEnumArg "axis" "axis"]];
     Interface_Enums := [axis] |}.

Definition protocol_with (enum_ref : string) : Protocol :=
  {| Protocol_Name := "wayland"; Protocol_Copyright := EmptyString;
     Protocol_Interfaces := [pointer_with enum_ref] |}.

End Rejects.

(** ** The pieces of the older generator's output *)
Module LegacyPieces.

Import Legacy LegacyMain Rejects.

#[global] Instance bad_enum_arg_dec (arg : Arg) : Decision (bad_enum_arg arg).
Proof. unfold bad_enum_arg. apply _. Defined.

#[global] Instance bad_request_dec (req : Request) : Decision (bad_request req).
Proof. unfold bad_request. apply _. Defined.

#[global] Instance bad_interface_dec (iface : Interface) : Decision (bad_interface iface).
Proof. unfold bad_interface. apply _. Defined.

(** What [interfaceRequests] writes to [ifaceBuffer] for one request whose
    parameter list is [args] (258-273). *)
Definition method_text (names : gmap string string) (ifaceName : string)
    (req : Request) (args : string) : string :=
  nl +:+ "func (p *" +:+ ifaceName +:+ ") " +:+ CamelCase (Request_Name req) +:+ "("
  +:+ args +:+ ")" +:+ requestRets names req +:+ "{" +:+ nl
  +:+ requestBody names req (reqCodeName ifaceName (CamelCase (Request_Name req)))
  +:+ nl +:+ "}" +:+ nl.

(** What [interfaceEnums] writes to [constBuffer] for one entry and for
    one enum (281-291). *)
Definition entry_text (constTypeName : string) (entry : Entry) : string :=
  constTypeName +:+ CamelCase (Entry_Name entry) +:+ " " +:+ constTypeName +:+ " = "
  +:+ Entry_Value entry +:+ nl.

Definition enum_text (ifaceName : string) (enum : Enum) : string :=
  let constTypeName := ifaceName +:+ CamelCase (Enum_Name enum) in
  nl +:+ "type " +:+ constTypeName +:+ " uint32" +:+ nl
  +:+ "const (" +:+ nl
  +:+ String.concat "" (map (entry_text constTypeName) (Enum_Entries enum))
  +:+ ")" +:+ nl.

(** The state before the second loop of [main] on a protocol. *)
Definition registered_state (protocol : Protocol) : State :=
  fold_left (fun st iface => snd (register (Interface_Name iface) st))
            (Protocol_Interfaces protocol)
            {| world := {| wlNames := ∅; ifaceBuffer := EmptyString;
                           reqCodesBuffer := EmptyString |};
               constBuffer := "package wl" |}.

End LegacyPieces.

(** ** The event pieces of the older generator's output *)
Module LegacyEvents.

Import Legacy LegacyMain.

(** The registry after [interfaceEvents] has met the given events. *)
Definition register_events (events : list Event) (names : gmap string string)
    : gmap string string :=
  fold_left (fun m event => <[Event_Name event := CamelCase (Event_Name event)]> m)
            events names.

(** What [interfaceEvents] writes for one event (300-325). *)
Definition event_struct (names : gmap string string) (ifaceName : string) (event : Event)
    : string :=
  nl +:+ "type " +:+ ifaceName +:+ CamelCase (Event_Name event) +:+ "Event struct {" +:+ nl
  +:+ String.concat "" (map (eventField names ifaceName) (Event_Args event))
  +:+ "}" +:+ nl.

End LegacyEvents.

(** * Properties *)

(** ** Strings *)

Lemma append_cons (a : ascii) (s t : string) : String a s +:+ t = String a (s +:+ t).
Proof. reflexivity. Qed.

Lemma append_empty_l (s : string) : "" +:+ s = s.
Proof. reflexivity. Qed.

Lemma append_empty_r (s : string) : s +:+ "" = s.
Proof. induction s as [|a s IH]; [reflexivity|]. rewrite append_cons. by f_equal. Qed.

Lemma append_assoc (s t u : string) : (s +:+ t) +:+ u = s +:+ t +:+ u.
Proof.
  induction s as [|a s IH]; [reflexivity|].
  rewrite !append_cons. by f_equal.
Qed.

Lemma concat_app (l1 l2 : list string) :
  String.concat "" (l1 ++ l2) = String.concat "" l1 +:+ String.concat "" l2.
Proof.
  induction l1 as [|x l1 IH]; [reflexivity|].
  destruct l1 as [|y l1].
  - destruct l2 as [|z l2]; cbn -[String.append].
    + by rewrite append_empty_r.
    + reflexivity.
  - change (String.concat "" ((x :: y :: l1) ++ l2))
      with (x +:+ "" +:+ String.concat "" ((y :: l1) ++ l2)).
    change (String.concat "" (x :: y :: l1))
      with (x +:+ "" +:+ String.concat "" (y :: l1)).
    rewrite IH. by rewrite !append_empty_l, append_assoc.
Qed.

Lemma concat_cons (x : string) (l : list string) :
  String.concat "" (x :: l) = x +:+ String.concat "" l.
Proof. apply (concat_app [x] l). Qed.

(** A text that sits in the middle of a concatenation. *)
Lemma concat_lookup {A : Type} (f : A -> string) (l : list A) (k : nat) (x : A) :
  l !! k = Some x ->
  String.concat "" (map f l)
  = String.concat "" (map f (take k l)) +:+ f x +:+ String.concat "" (map f (drop (S k) l)).
Proof.
  intros Hk. rewrite <-(take_drop_middle l k x Hk) at 1.
  by rewrite map_app, concat_app, map_cons, concat_cons.
Qed.

(** ** Name casing *)

Lemma HasPrefix_wl (u : string) : HasPrefix ("wl_" +:+ u) "wl_" = true.
Proof. reflexivity. Qed.

Lemma TrimPrefix_wl (u : string) : TrimPrefix ("wl_" +:+ u) "wl_" = u.
Proof. reflexivity. Qed.

Lemma CamelCase_prefixed (u : string) :
  HasPrefix u "wl_" = false -> CamelCase ("wl_" +:+ u) = CamelCase u.
Proof.
  intros Hu. unfold CamelCase.
  by rewrite HasPrefix_wl, TrimPrefix_wl, Hu.
Qed.

Lemma CamelCase_some_thing : CamelCase "wl_some_thing" = "SomeThing".
Proof. vm_compute. reflexivity. Qed.

Lemma snakeCase_some_thing : snakeCase "wl_some_thing" = "someThing".
Proof. vm_compute. reflexivity. Qed.

(** C6, the claim as written fails: the prefix is stripped once, so the
    native name [wl_wl_foo] registers as [WlFoo] while its form without
    the prefix, [wl_foo], registers as [Foo]. *)
Lemma register_strips_prefix_once :
  TrimPrefix "wl_wl_foo" "wl_" = "wl_foo"
  /\ fst (WlScanner.caseAndRegister "wl_foo" Samples.world0) = "Foo"
  /\ fst (WlScanner.caseAndRegister "wl_wl_foo" Samples.world0) = "WlFoo"
  /\ fst (WlScanner.caseAndRegister (TrimPrefix "wl_wl_foo" "wl_") Samples.world0)
     <> fst (WlScanner.caseAndRegister "wl_wl_foo" Samples.world0).
Proof. vm_compute. repeat split; discriminate. Qed.

(** C6, amended: registering [wl_some_thing] yields [SomeThing], and for
    every name [u] that does not itself begin with [wl_], registering [u]
    and registering [wl_u] yield the same canonical name; the registry
    then maps each native name to it. *)
Theorem register_prefixed_same (u : string) (w : WlScanner.World) :
  HasPrefix u "wl_" = false ->
  fst (WlScanner.caseAndRegister "wl_some_thing" w) = "SomeThing"
  /\ fst (WlScanner.caseAndRegister ("wl_" +:+ u) w)
     = fst (WlScanner.caseAndRegister u w)
  /\ WlScanner.wlNames (snd (WlScanner.caseAndRegister ("wl_" +:+ u) w)) !! ("wl_" +:+ u)
     = Some (CamelCase u)
  /\ WlScanner.wlNames (snd (WlScanner.caseAndRegister u w)) !! u
     = Some (CamelCase u).
Proof.
  intros Hu. unfold WlScanner.caseAndRegister. cbn [fst snd WlScanner.wlNames WlScanner.set_wlNames].
  rewrite (CamelCase_prefixed u Hu), !lookup_insert_eq.
  split; [vm_compute; reflexivity|]. by repeat split.
Qed.

Lemma register_prefixed_same_witness :
  HasPrefix "some_thing" "wl_" = false
  /\ fst (WlScanner.caseAndRegister ("wl_" +:+ "some_thing") Samples.world0)
     = fst (WlScanner.caseAndRegister "some_thing" Samples.world0).
Proof.
  split; [reflexivity|].
  apply (register_prefixed_same "some_thing" Samples.world0). reflexivity.
Defined.

(** ** The request loop: positions and opcodes *)

Section RequestLoop.
Import WlScanner.

Lemma emit_emit (a b : string) (w : World) : emit b (emit a w) = emit (a +:+ b) w.
Proof. unfold emit; cbn. by rewrite append_assoc. Qed.

Lemma emit_empty (w : World) : emit "" w = w.
Proof. destruct w; unfold emit; cbn. by rewrite append_empty_r. Qed.

(** The loop appends, for the request at position [k], the record of
    order [order + k], and prints the records in that order. *)
Lemma ProcessRequests_from_spec (reqs : list Request) :
  forall (order : nat) (i : GoInterface) (w : World),
    let gs := imap (fun k r => GoRequest_of (wlNames w) (GoInterface_Name i) (order + k) r) reqs in
    ProcessRequests_from order reqs i w
    = ({| GoInterface_Name := GoInterface_Name i;
          GoInterface_WlInterface := GoInterface_WlInterface i;
          GoInterface_Requests := GoInterface_Requests i ++ gs;
          GoInterface_Events := GoInterface_Events i;
          GoInterface_Enums := GoInterface_Enums i |},
       emit (String.concat "" (map requestTemplate gs)) w).
Proof.
  induction reqs as [|r reqs IH]; intros order i w; cbn zeta.
  - cbn. rewrite app_nil_r, emit_empty. by destruct i.
  - cbn [ProcessRequests_from]. rewrite IH. unfold executeTemplate.
    cbn [imap map]. rewrite concat_cons, emit_emit.
    cbn [add_Request GoInterface_Name GoInterface_WlInterface GoInterface_Requests
         GoInterface_Events GoInterface_Enums emit wlNames].
    rewrite <-app_assoc. cbn [app].
    rewrite Nat.add_0_r.
    assert (Hext : imap (fun k r0 => GoRequest_of (wlNames w) (GoInterface_Name i) (S order + k) r0) reqs
                   = imap ((fun k r0 => GoRequest_of (wlNames w) (GoInterface_Name i) (order + k) r0) ∘ S) reqs).
    { apply imap_ext. intros k x _. cbn. f_equal. lia. }
    by rewrite Hext.
Qed.

Lemma ProcessRequests_lookup (i : GoInterface) (w : World) (k : nat) (r : Request) :
  GoInterface_Requests i = [] ->
  Interface_Requests (GoInterface_WlInterface i) !! k = Some r ->
  GoInterface_Requests (ProcessRequests i w).1 !! k
  = Some (GoRequest_of (wlNames w) (GoInterface_Name i) k r).
Proof.
  intros Hnil Hk. unfold ProcessRequests. rewrite ProcessRequests_from_spec.
  cbn [fst GoInterface_Requests]. rewrite Hnil, app_nil_l, list_lookup_imap, Hk.
  reflexivity.
Qed.

Lemma ProcessRequests_printed (i : GoInterface) (w : World) (k : nat) (r : Request) :
  Interface_Requests (GoInterface_WlInterface i) !! k = Some r ->
  exists before after : string,
    fileBuffer (ProcessRequests i w).2
    = before +:+ requestTemplate (GoRequest_of (wlNames w) (GoInterface_Name i) k r)
      +:+ after.
Proof.
  intros Hk. unfold ProcessRequests. rewrite ProcessRequests_from_spec.
  cbn [snd emit fileBuffer].
  set (gs := imap _ _).
  assert (Hg : gs !! k = Some (GoRequest_of (wlNames w) (GoInterface_Name i) k r)).
  { subst gs. by rewrite list_lookup_imap, Hk. }
  rewrite (concat_lookup requestTemplate gs k _ Hg).
  eexists (fileBuffer w +:+ _), _. by rewrite append_assoc.
Qed.

(** The call the request template prints: the opcode is the record's
    [Order], followed by the send arguments. *)
Lemma requestTemplate_call (g : GoRequest) :
  exists head : string,
    requestTemplate g
    = head +:+ "p.Context().sendRequest(p," +:+ Itoa (GoRequest_Order g)
      +:+ GoRequest_Args g +:+ ")" +:+ nl +:+ "}" +:+ nl.
Proof.
  unfold requestTemplate. destruct (GoRequest_HasNewId g).
  - eexists (nl +:+ "// " +:+ GoRequest_Name g +:+ " will " +:+ GoRequest_Summary g
             +:+ "." +:+ nl +:+ "//" +:+ nl +:+ GoRequest_Description g
             +:+ "func (p *" +:+ GoRequest_IfaceName g +:+ ") " +:+ GoRequest_Name g
             +:+ "(" +:+ GoRequest_Params g +:+ ") " +:+ GoRequest_Returns g +:+ " {"
             +:+ nl +:+ tab +:+ "ret := New" +:+ GoRequest_NewIdInterface g
             +:+ "(p.Context())" +:+ nl +:+ tab +:+ "return ret , ").
    rewrite !append_assoc. reflexivity.
  - eexists (nl +:+ "// " +:+ GoRequest_Name g +:+ " will " +:+ GoRequest_Summary g
             +:+ "." +:+ nl +:+ "//" +:+ nl +:+ GoRequest_Description g
             +:+ "func (p *" +:+ GoRequest_IfaceName g +:+ ") " +:+ GoRequest_Name g
             +:+ "(" +:+ GoRequest_Params g +:+ ") " +:+ GoRequest_Returns g +:+ " {"
             +:+ nl +:+ tab +:+ "return ").
    rewrite !append_assoc. reflexivity.
Qed.

End RequestLoop.

(** ** The event loop *)

Section EventLoop.
Import WlScanner.

(** The record the loop builds for an event, given the registry. *)
Let GoEvent_for (w : World) (ifaceName : string) (e : Event) : GoEvent :=
  {| GoEvent_Name := CamelCase (Event_Name e);
     GoEvent_IfaceName := ifaceName;
     GoEvent_PName := snakeCase (Event_Name e);
     GoEvent_Args := map (fun a => (event_arg a w).1) (Event_Args e) |}.

Lemma event_arg_world (a : Arg) (w : World) :
  wlNames (event_arg a w).2 = wlNames w
  /\ fileBuffer (event_arg a w).2 = fileBuffer w.
Proof.
  unfold event_arg.
  destruct (wlTypes !! Arg_Type a) as [t|]; [destruct (bufTypesMap !! t)|case_decide];
    by cbn.
Qed.

Lemma event_arg_names (a : Arg) (w w' : World) :
  wlNames w = wlNames w' -> (event_arg a w).1 = (event_arg a w').1.
Proof.
  intros Hw. unfold event_arg. rewrite Hw.
  destruct (wlTypes !! Arg_Type a) as [t|]; [destruct (bufTypesMap !! t)|case_decide];
    by cbn.
Qed.

Lemma event_args_spec (args : list Arg) :
  forall (acc : list GoArg) (w : World),
    (event_args args acc w).1 = acc ++ map (fun a => (event_arg a w).1) args
    /\ wlNames (event_args args acc w).2 = wlNames w
    /\ fileBuffer (event_args args acc w).2 = fileBuffer w.
Proof.
  induction args as [|a args IH]; intros acc w; cbn [event_args].
  - cbn. by rewrite app_nil_r.
  - destruct (event_arg a w) as [goarg w1] eqn:Ha.
    destruct (event_arg_world a w) as [Hn Hb]. rewrite Ha in Hn, Hb. cbn in Hn, Hb.
    destruct (IH (acc ++ [goarg]) w1) as (H1 & H2 & H3).
    rewrite H1, H2, H3, <-app_assoc. repeat split; [|done..].
    cbn [map app]. rewrite Ha. cbn [fst]. do 2 f_equal.
    apply map_ext. intros b. by apply event_arg_names.
Qed.

Lemma ProcessEvents_loop_spec (evs : list Event) :
  forall (i : GoInterface) (w : World),
    let gevs := map (GoEvent_for w (GoInterface_Name i)) evs in
    (ProcessEvents_loop evs i w).1
    = {| GoInterface_Name := GoInterface_Name i;
         GoInterface_WlInterface := GoInterface_WlInterface i;
         GoInterface_Requests := GoInterface_Requests i;
         GoInterface_Events := GoInterface_Events i ++ gevs;
         GoInterface_Enums := GoInterface_Enums i |}
    /\ wlNames (ProcessEvents_loop evs i w).2 = wlNames w
    /\ fileBuffer (ProcessEvents_loop evs i w).2
       = fileBuffer w
         +:+ String.concat ""
               (map (fun ev => eventTemplate ev +:+ ifaceAddRemoveHandlerTemplate ev) gevs).
Proof.
  induction evs as [|e evs IH]; intros i w; cbn zeta.
  - cbn. rewrite app_nil_r, append_empty_r. by destruct i.
  - cbn [ProcessEvents_loop].
    destruct (event_args (Event_Args e) [] w) as [args w1] eqn:Hargs.
    destruct (event_args_spec (Event_Args e) [] w) as (Ha & Hn & Hb).
    rewrite Hargs in Ha, Hn, Hb. cbn in Ha, Hn, Hb. subst args.
    unfold executeTemplate.
    set (ev := {| GoEvent_Name := _ |}).
    destruct (IH (add_Event ev i) (emit (ifaceAddRemoveHandlerTemplate ev) (emit (eventTemplate ev) w1)))
      as (H1 & H2 & H3).
    rewrite H1, H2, H3. cbn [add_Event GoInterface_Name GoInterface_WlInterface
      GoInterface_Requests GoInterface_Events GoInterface_Enums emit wlNames fileBuffer].
    assert (Hev : forall x, GoEvent_for (emit (ifaceAddRemoveHandlerTemplate ev)
                                            (emit (eventTemplate ev) w1))
                                       (GoInterface_Name i) x
                            = GoEvent_for w (GoInterface_Name i) x).
    { intros x. unfold GoEvent_for. f_equal. apply map_ext. intros a.
      apply event_arg_names. by cbn. }
    rewrite (map_ext _ _ Hev).
    cbn [map]. fold ev. rewrite <-app_assoc. cbn [app].
    repeat split; [done|].
    rewrite Hb, concat_cons, !append_assoc. reflexivity.
Qed.

End EventLoop.

(** ** The dispatch switch *)

Section Switch.
Import WlScanner Generated.

Lemma switch_imap {A B : Type} (body : B -> list A) (l : list B) :
  forall (off tag : nat),
    switch tag (imap (fun k x => (off + k, body x)) l)
    = if decide (off <= tag) then from_option body [] (l !! (tag - off)) else [].
Proof.
  induction l as [|x l IH]; intros off tag; cbn [imap switch].
  - by case_decide.
  - rewrite Nat.add_0_r.
    assert (Hext : imap ((fun k y => (off + k, body y)) ∘ S) l
                   = imap (fun k y => (S off + k, body y)) l).
    { apply imap_ext. intros k y _. cbn. f_equal. lia. }
    rewrite Hext, IH. clear Hext IH.
    destruct (decide (tag = off)) as [->|Hne].
    + rewrite Nat.sub_diag. cbn. by rewrite decide_True by lia.
    + destruct (decide (S off <= tag)) as [Hle|Hgt].
      * rewrite decide_True by lia.
        replace (tag - off) with (S (tag - S off)) by lia. reflexivity.
      * by rewrite decide_False by lia.
Qed.

Context {Buffer Value : Type} (decode : string -> Buffer -> Value * Buffer).

(** [Dispatch] runs the case of the event at the position of the opcode,
    and nothing when there is none. *)
Lemma Dispatch_lookup (i : GoInterface) (event : WireEvent Buffer) (p : Instance) :
  Dispatch decode i event p
  = match GoInterface_Events i !! opcode event with
    | Some ev => case_body decode ev event p
    | None => []
    end.
Proof.
  unfold Dispatch.
  rewrite (switch_imap (fun ev => case_body decode ev event p) (GoInterface_Events i) 0).
  rewrite decide_True by lia. rewrite Nat.sub_0_r.
  by destruct (GoInterface_Events i !! opcode event).
Qed.

End Switch.

Lemma concat_middle (l : list string) (k : nat) (s : string) :
  l !! k = Some s ->
  String.concat "" l
  = String.concat "" (take k l) +:+ s +:+ String.concat "" (drop (S k) l).
Proof.
  intros Hk. rewrite <-(take_drop_middle l k s Hk) at 1.
  by rewrite concat_app, concat_cons.
Qed.

(** ** Opcodes *)

Section Opcodes.
Import WlScanner Generated.

Lemma ProcessEvents_fst (i : GoInterface) (w : World) :
  (ProcessEvents i w).1
  = (ProcessEvents_loop (Interface_Events (GoInterface_WlInterface i)) i w).1.
Proof.
  unfold ProcessEvents.
  destruct (ProcessEvents_loop _ i w) as [i' w']. by case_decide.
Qed.

Lemma ProcessEvents_dispatch_printed (i : GoInterface) (w : World) :
  0 < length (GoInterface_Events (ProcessEvents i w).1) ->
  exists before : string,
    fileBuffer (ProcessEvents i w).2
    = before +:+ ifaceDispatchTemplate (ProcessEvents i w).1.
Proof.
  unfold ProcessEvents.
  destruct (ProcessEvents_loop _ i w) as [i' w'].
  case_decide; cbn [fst snd]; [|lia]. intros _.
  by exists (fileBuffer w').
Qed.

(** What [main] hands to the request loop: the interface after the event
    loop, which still is the declared interface with no request yet. *)
Lemma ProcessEvents_new (iface : Interface) (w : World) :
  let i1 := (ProcessEvents (new_GoInterface (wlNames w) iface) w).1 in
  GoInterface_WlInterface i1 = iface
  /\ GoInterface_Requests i1 = []
  /\ GoInterface_Name i1 = map_index (wlNames w) (Interface_Name iface)
  /\ GoInterface_Events i1
     = map (fun e =>
              {| GoEvent_Name := CamelCase (Event_Name e);
                 GoEvent_IfaceName := map_index (wlNames w) (Interface_Name iface);
                 GoEvent_PName := snakeCase (Event_Name e);
                 GoEvent_Args := map (fun a => (event_arg a w).1) (Event_Args e) |})
           (Interface_Events iface).
Proof.
  cbn zeta. rewrite ProcessEvents_fst.
  destruct (ProcessEvents_loop_spec
              (Interface_Events (GoInterface_WlInterface (new_GoInterface (wlNames w) iface)))
              (new_GoInterface (wlNames w) iface) w) as (H1 & _ & _).
  rewrite H1. by cbn.
Qed.



(** Swapping the first two requests swaps the opcodes that their methods
    send. *)
Lemma opcode_follows_swap (r0 r1 : Request) (rest : list Request)
    (i : GoInterface) (w : World) :
  GoInterface_Requests i = [] ->
  Interface_Requests (GoInterface_WlInterface i) = r1 :: r0 :: rest ->
  GoRequest_Order <$> GoInterface_Requests (ProcessRequests i w).1 !! 0 = Some 0
  /\ GoRequest_Name <$> GoInterface_Requests (ProcessRequests i w).1 !! 0
     = Some (CamelCase (Request_Name r1))
  /\ GoRequest_Order <$> GoInterface_Requests (ProcessRequests i w).1 !! 1 = Some 1
  /\ GoRequest_Name <$> GoInterface_Requests (ProcessRequests i w).1 !! 1
     = Some (CamelCase (Request_Name r0)).
Proof.
  intros Hnil Hreqs.
  rewrite (ProcessRequests_lookup i w 0 r1 Hnil) by by rewrite Hreqs.
  rewrite (ProcessRequests_lookup i w 1 r0 Hnil) by by rewrite Hreqs.
  by cbn.
Qed.

End Opcodes.

(** ** Slices: what [append] keeps *)

Section SliceFacts.
Import Slice.

Lemma wf_nil : wf empty_heap nil.
Proof. unfold wf, empty_heap, nil, array; cbn. lia. Qed.

Lemma growcap_gt (c : nat) : c < growcap c.
Proof. unfold growcap. case_decide; lia. Qed.

Lemma array_insert_eq (h : Heap) (p : nat) (a : list string) :
  p < length h -> array (<[p := a]> h) p = a.
Proof. intros Hp. unfold array. by rewrite list_lookup_insert_eq. Qed.

Lemma array_insert_ne (h : Heap) (p q : nat) (a : list string) :
  p <> q -> array (<[p := a]> h) q = array h q.
Proof. intros Hp. unfold array. by rewrite list_lookup_insert_ne. Qed.

Lemma array_app_l (h : Heap) (a : list string) (q : nat) :
  q < length h -> array (h ++ [a]) q = array h q.
Proof. intros Hq. unfold array. by rewrite lookup_app_l. Qed.

Lemma array_app_new (h : Heap) (a : list string) : array (h ++ [a]) (length h) = a.
Proof.
  unfold array. rewrite lookup_app_r by lia. by rewrite Nat.sub_diag.
Qed.

(** After [append] the slice shows one more element. *)
Lemma append_elems (h : Heap) (s : t) (x : string) :
  wf h s ->
  elems (append h s x).1 (append h s x).2 = elems h s ++ [x].
Proof.
  intros (Hp & Hl & Ha). unfold append, elems.
  case_decide as Hroom; cbn [fst snd ptr len cap].
  - rewrite array_insert_eq by done.
    rewrite (take_S_r _ _ x) by (apply list_lookup_insert_eq; lia).
    by rewrite take_insert_ge.
  - rewrite array_app_new.
    assert (Hlen : length (take (len s) (array h (ptr s))) = len s)
      by (rewrite length_take; lia).
    rewrite take_app, Hlen, take_ge by lia.
    replace (S (len s) - len s) with 1 by lia. reflexivity.
Qed.

(** [append] keeps its result, and every other slice, well formed. *)
Lemma append_wf (h : Heap) (s : t) (x : string) :
  wf h s -> wf (append h s x).1 (append h s x).2.
Proof.
  intros (Hp & Hl & Ha). unfold append, wf, elems.
  case_decide as Hroom; cbn [fst snd ptr len cap].
  - rewrite length_insert, array_insert_eq, length_insert by done. lia.
  - rewrite length_app, array_app_new. cbn [length].
    pose proof (growcap_gt (cap s)).
    rewrite length_app, length_take. cbn [length]. rewrite length_replicate.
    lia.
Qed.

Lemma append_wf_other (h : Heap) (s u : t) (x : string) :
  wf h s -> wf h u -> wf (append h s x).1 u.
Proof.
  intros (Hp & Hl & Ha) (Hp' & Hl' & Ha'). unfold append, wf.
  case_decide as Hroom; cbn [fst snd].
  - rewrite length_insert. split; [done|]. split; [done|].
    destruct (decide (ptr s = ptr u)) as [Heq|Hne].
    + rewrite <-Heq, array_insert_eq, length_insert by done.
      by rewrite Heq.
    + by rewrite array_insert_ne.
  - rewrite length_app. cbn [length]. split; [lia|]. split; [done|].
    by rewrite array_app_l.
Qed.

(** The elements of another slice survive when the write, if it is in
    place on the same array, falls at or beyond that slice's length. *)
Lemma append_frame (h : Heap) (s u : t) (x : string) :
  wf h s -> wf h u ->
  (ptr u = ptr s -> len s < cap s -> len u <= len s) ->
  elems (append h s x).1 u = elems h u.
Proof.
  intros (Hp & Hl & Ha) (Hp' & Hl' & Ha') Hfar. unfold append, elems.
  case_decide as Hroom; cbn [fst snd].
  - destruct (decide (ptr s = ptr u)) as [Heq|Hne].
    + rewrite <-Heq, array_insert_eq by done.
      apply take_insert_ge. apply Hfar; [done|lia].
    + by rewrite array_insert_ne.
  - by rewrite array_app_l.
Qed.

(** Where the result of [append] lives. *)
Lemma append_place (h : Heap) (s : t) (x : string) :
  len (append h s x).2 = S (len s)
  /\ ((len s < cap s /\ ptr (append h s x).2 = ptr s /\ cap (append h s x).2 = cap s)
      \/ (~ len s < cap s /\ ptr (append h s x).2 = length h))
  /\ length h <= length (append h s x).1.
Proof.
  unfold append. case_decide; cbn [fst snd ptr len cap].
  - rewrite length_insert. split; [done|]. split; [|done]. by left.
  - rewrite length_app. split; [done|]. split; [|lia]. by right.
Qed.

End SliceFacts.

(** ** The request loop: parameters and returns *)

Section RequestArgs.
Import WlScanner Shape.

Lemma step_params (x : string) (v : ReqVars) (n m : nat) :
  slices_wf v -> aliased_at v n m ->
  slices_wf (append_params x v)
  /\ aliased_at (append_params x v) (S n) m
  /\ Slice.elems (heap (append_params x v)) (params (append_params x v))
     = Slice.elems (heap v) (params v) ++ [x]
  /\ returns (append_params x v) = returns v
  /\ HasNewId (append_params x v) = HasNewId v
  /\ NewIdInterface (append_params x v) = NewIdInterface v.
Proof.
  intros [Hp Hs] Hal. unfold append_params.
  pose proof (append_elems (heap v) (params v) x Hp) as He.
  pose proof (append_wf (heap v) (params v) x Hp) as Hw.
  pose proof (append_wf_other (heap v) (params v) (sendRequestArgs v) x Hp Hs) as Ho.
  pose proof (append_place (heap v) (params v) x) as (Hlen & Hplace & _).
  destruct (Slice.append (heap v) (params v) x) as [h s'].
  cbn [fst snd] in *. cbn [heap params sendRequestArgs returns HasNewId NewIdInterface].
  split; [by split|]. split; [|done].
  unfold aliased_at. cbn [heap params sendRequestArgs]. intros Hptr Hcap.
  destruct Hplace as [(Hroom & Hsame & Hc)|(Hfull & Hnew)].
  - rewrite Hsame in Hptr. rewrite Hc in Hcap.
    specialize (Hal Hptr Hcap). lia.
  - destruct Hs as (Hlt & _). lia.
Qed.

Lemma step_sendRequestArgs (x : string) (v : ReqVars) (n m : nat) :
  slices_wf v -> aliased_at v n m -> n <= m ->
  slices_wf (append_sendRequestArgs x v)
  /\ aliased_at (append_sendRequestArgs x v) n (S m)
  /\ Slice.elems (heap (append_sendRequestArgs x v)) (params (append_sendRequestArgs x v))
     = Slice.elems (heap v) (params v)
  /\ returns (append_sendRequestArgs x v) = returns v
  /\ HasNewId (append_sendRequestArgs x v) = HasNewId v
  /\ NewIdInterface (append_sendRequestArgs x v) = NewIdInterface v.
Proof.
  intros [Hp Hs] Hal Hnm. unfold append_sendRequestArgs.
  assert (Hfar : Slice.ptr (params v) = Slice.ptr (sendRequestArgs v) ->
                 Slice.len (sendRequestArgs v) < Slice.cap (sendRequestArgs v) ->
                 Slice.len (params v) <= Slice.len (sendRequestArgs v)).
  { intros Hptr Hroom. destruct Hp as (_ & _ & Hap), Hs as (_ & _ & Has).
    rewrite Hptr, Has in Hap.
    assert (Hcap : 0 < Slice.cap (params v)) by lia.
    specialize (Hal (eq_sym Hptr) Hcap). lia. }
  pose proof (append_frame (heap v) (sendRequestArgs v) (params v) x Hs Hp Hfar) as He.
  pose proof (append_wf (heap v) (sendRequestArgs v) x Hs) as Hw.
  pose proof (append_wf_other (heap v) (sendRequestArgs v) (params v) x Hs Hp) as Ho.
  pose proof (append_place (heap v) (sendRequestArgs v) x) as (Hlen & Hplace & _).
  destruct (Slice.append (heap v) (sendRequestArgs v) x) as [h s'].
  cbn [fst snd] in *. cbn [heap params sendRequestArgs returns HasNewId NewIdInterface].
  split; [by split|]. split; [|done].
  unfold aliased_at. cbn [heap params sendRequestArgs]. intros Hptr Hcap.
  destruct Hplace as [(Hroom & Hsame & Hc)|(Hfull & Hnew)].
  - rewrite Hsame in Hptr. specialize (Hal Hptr Hcap). lia.
  - destruct Hp as (Hlt & _). lia.
Qed.

(** Line 294: the slice cut from [params] is one longer than [params]. *)
Lemma step_cut (x : string) (v : ReqVars) :
  slices_wf v ->
  slices_wf (sendRequestArgs_append_params x v)
  /\ aliased_at (sendRequestArgs_append_params x v) 0 1
  /\ Slice.elems (heap (sendRequestArgs_append_params x v))
                 (params (sendRequestArgs_append_params x v))
     = Slice.elems (heap v) (params v)
  /\ Slice.elems (heap (sendRequestArgs_append_params x v))
                 (sendRequestArgs (sendRequestArgs_append_params x v))
     = Slice.elems (heap v) (params v) ++ [x]
  /\ returns (sendRequestArgs_append_params x v) = returns v.
Proof.
  intros [Hp Hs]. unfold sendRequestArgs_append_params.
  assert (Hfar : Slice.ptr (params v) = Slice.ptr (params v) ->
                 Slice.len (params v) < Slice.cap (params v) ->
                 Slice.len (params v) <= Slice.len (params v)) by (intros; lia).
  pose proof (append_frame (heap v) (params v) (params v) x Hp Hp Hfar) as He.
  pose proof (append_elems (heap v) (params v) x Hp) as Hx.
  pose proof (append_wf (heap v) (params v) x Hp) as Hw.
  pose proof (append_wf_other (heap v) (params v) (params v) x Hp Hp) as Ho.
  pose proof (append_place (heap v) (params v) x) as (Hlen & Hplace & _).
  destruct (Slice.append (heap v) (params v) x) as [h s'].
  cbn [fst snd] in *. cbn [heap params sendRequestArgs returns].
  split; [by split|]. split; [|done].
  unfold aliased_at. cbn [heap params sendRequestArgs]. intros Hptr Hcap. lia.
Qed.

Lemma aliased_at_shift (v : ReqVars) (n m k : nat) :
  aliased_at v (n + k) (m + k) -> aliased_at v n m.
Proof. unfold aliased_at. intros H Hptr Hcap. specialize (H Hptr Hcap). lia. Qed.

(** One turn of the argument loop keeps the invariant and adds to
    [params] and [returns] what the argument contributes. *)
Lemma request_arg_spec (names : gmap string string) (v : ReqVars) (arg : Arg) :
  slices_wf v -> aliased_at v 0 1 ->
  slices_wf (request_arg names v arg)
  /\ aliased_at (request_arg names v arg) 0 1
  /\ Slice.elems (heap (request_arg names v arg)) (params (request_arg names v arg))
     = Slice.elems (heap v) (params v) ++ arg_params names arg
  /\ returns (request_arg names v arg) = returns v ++ arg_returns names arg.
Proof.
  intros Hwf Hal. unfold request_arg, arg_params, arg_returns.
  destruct (decide (Arg_Type arg = "new_id")) as [Hnew|Hnew].
  - destruct (decide (Arg_Interface arg <> "")) as [Hif|Hif].
    + rewrite decide_True by done.
      destruct (step_cut "Proxy(ret)"
                  (set_NewIdInterface (map_index names (Arg_Interface arg)) v) Hwf)
        as (H1 & H2 & H3 & _ & H5).
      cbn [append_returns set_HasNewId heap params sendRequestArgs returns].
      rewrite H3, H5. cbn [set_NewIdInterface heap params returns].
      split; [exact H1|]. split; [exact H2|]. split; [by rewrite app_nil_r|done].
    + rewrite decide_False by tauto.
      destruct (step_sendRequestArgs "iface" v 0 1 Hwf Hal) as (W1 & A1 & E1 & R1 & _); [lia|].
      destruct (step_sendRequestArgs "version" _ 0 2 W1 A1) as (W2 & A2 & E2 & R2 & _); [lia|].
      destruct (step_sendRequestArgs (Arg_Name arg) _ 0 3 W2 A2) as (W3 & A3 & E3 & R3 & _); [lia|].
      destruct (step_params "iface string" _ 0 4 W3 A3) as (W4 & A4 & E4 & R4 & _).
      destruct (step_params "version uint32" _ 1 4 W4 A4) as (W5 & A5 & E5 & R5 & _).
      destruct (step_params (Arg_Name arg +:+ " Proxy") _ 2 4 W5 A5) as (W6 & A6 & E6 & R6 & _).
      split; [done|]. split; [by apply (aliased_at_shift _ 0 1 3)|]. split.
      * rewrite E6, E5, E4, E3, E2, E1, <-!app_assoc. reflexivity.
      * rewrite R6, R5, R4, R3, R2, R1, app_nil_r. reflexivity.
  - rewrite (decide_False (P := Arg_Type arg = "new_id" /\ Arg_Interface arg <> ""))
      by tauto.
    destruct (decide (Arg_Type arg = "object" /\ Arg_Interface arg <> "")) as [Hobj|Hobj].
    + destruct (step_params (Arg_Name arg +:+ " *" +:+ map_index names (Arg_Interface arg))
                  v 0 1 Hwf Hal) as (W1 & A1 & E1 & R1 & _).
      destruct (step_sendRequestArgs (Arg_Name arg) _ 1 1 W1 A1) as (W2 & A2 & E2 & R2 & _); [lia|].
      split; [done|]. split; [by apply (aliased_at_shift _ 0 1 1)|]. split.
      * by rewrite E2, E1.
      * by rewrite R2, R1, app_nil_r.
    + destruct (step_sendRequestArgs (Arg_Name arg) v 0 1 Hwf Hal) as (W1 & A1 & E1 & R1 & _); [lia|].
      destruct (step_params (Arg_Name arg +:+ " " +:+ map_index wlTypes (Arg_Type arg))
                  _ 0 2 W1 A1) as (W2 & A2 & E2 & R2 & _).
      split; [done|]. split; [by apply (aliased_at_shift _ 0 1 1)|]. split.
      * by rewrite E2, E1.
      * by rewrite R2, R1, app_nil_r.
Qed.

Lemma request_args_from (names : gmap string string) (args : list Arg) :
  forall v : ReqVars,
    slices_wf v -> aliased_at v 0 1 ->
    let v' := fold_left (request_arg names) args v in
    Slice.elems (heap v') (params v')
    = Slice.elems (heap v) (params v) ++ flat_map (arg_params names) args
    /\ returns v' = returns v ++ flat_map (arg_returns names) args.
Proof.
  induction args as [|arg args IH]; intros v Hwf Hal; cbn zeta; cbn [fold_left flat_map].
  - by rewrite !app_nil_r.
  - destruct (request_arg_spec names v arg Hwf Hal) as (W & A & E & R).
    destruct (IH _ W A) as [E' R'].
    rewrite E', R', E, R, <-!app_assoc. done.
Qed.

(** The parameter list and the return list of a request, without slices. *)
Lemma request_args_spec (names : gmap string string) (args : list Arg) :
  Slice.elems (heap (request_args names args)) (params (request_args names args))
  = flat_map (arg_params names) args
  /\ returns (request_args names args) = flat_map (arg_returns names) args.
Proof.
  unfold request_args.
  assert (Hwf : slices_wf ReqVars_init) by (split; apply wf_nil).
  assert (Hal : aliased_at ReqVars_init 0 1).
  { unfold aliased_at. cbn. lia. }
  destruct (request_args_from names args ReqVars_init Hwf Hal) as [E R].
  rewrite E, R. by cbn.
Qed.

End RequestArgs.

(** ** New-object arguments *)

Section NewObject.
Import WlScanner Shape.

Lemma append_params_NewId (x : string) (v : ReqVars) :
  HasNewId (append_params x v) = HasNewId v
  /\ NewIdInterface (append_params x v) = NewIdInterface v.
Proof. unfold append_params. destruct (Slice.append _ _ _). split; reflexivity. Qed.

Lemma append_sendRequestArgs_NewId (x : string) (v : ReqVars) :
  HasNewId (append_sendRequestArgs x v) = HasNewId v
  /\ NewIdInterface (append_sendRequestArgs x v) = NewIdInterface v.
Proof.
  unfold append_sendRequestArgs. destruct (Slice.append _ _ _). split; reflexivity.
Qed.

Lemma request_arg_NewId (names : gmap string string) (v : ReqVars) (arg : Arg) :
  HasNewId (request_arg names v arg)
  = (if decide (typed_new_id arg) then true else HasNewId v)
  /\ NewIdInterface (request_arg names v arg)
     = (if decide (typed_new_id arg)
        then map_index names (Arg_Interface arg) else NewIdInterface v).
Proof.
  unfold request_arg.
  destruct (decide (typed_new_id arg)) as [[Hnew Hif]|Hno].
  - rewrite !decide_True by assumption.
    unfold append_returns, set_HasNewId, sendRequestArgs_append_params.
    cbn [heap params set_NewIdInterface].
    destruct (Slice.append _ _ _). split; reflexivity.
  - destruct (decide (Arg_Type arg = "new_id")) as [Hnew|Hnew].
    + rewrite decide_False by (intros Hif; apply Hno; split; assumption).
      repeat first [rewrite (proj1 (append_params_NewId _ _))
                   |rewrite (proj2 (append_params_NewId _ _))
                   |rewrite (proj1 (append_sendRequestArgs_NewId _ _))
                   |rewrite (proj2 (append_sendRequestArgs_NewId _ _))].
      split; reflexivity.
    + destruct (decide (Arg_Type arg = "object" /\ Arg_Interface arg <> ""));
        repeat first [rewrite (proj1 (append_params_NewId _ _))
                     |rewrite (proj2 (append_params_NewId _ _))
                     |rewrite (proj1 (append_sendRequestArgs_NewId _ _))
                     |rewrite (proj2 (append_sendRequestArgs_NewId _ _))];
        split; reflexivity.
Qed.

Lemma request_args_NewId (names : gmap string string) (args : list Arg) :
  forall v : ReqVars,
    HasNewId (fold_left (request_arg names) args v)
    = (if last (filter typed_new_id args) is Some _ then true else HasNewId v)
    /\ NewIdInterface (fold_left (request_arg names) args v)
       = (if last (filter typed_new_id args) is Some a
          then map_index names (Arg_Interface a) else NewIdInterface v).
Proof.
  induction args as [|arg args IH]; intros v; cbn [fold_left]; [done|].
  destruct (IH (request_arg names v arg)) as [H1 H2]. rewrite H1, H2.
  destruct (request_arg_NewId names v arg) as [H3 H4]. rewrite H3, H4.
  rewrite filter_cons. destruct (decide (typed_new_id arg)) as [Ht|Ht].
  - destruct (filter typed_new_id args) as [|b l] eqn:Hf; [done|].
    change (last (arg :: b :: l)) with (last (b :: l)).
    destruct (last (b :: l)) eqn:Hl; [done|by apply last_None in Hl].
  - done.
Qed.

Lemma flat_map_arg_returns (names : gmap string string) (args : list Arg) :
  flat_map (arg_returns names) args
  = map (fun a => "*" +:+ map_index names (Arg_Interface a)) (filter typed_new_id args).
Proof.
  induction args as [|arg args IH]; [done|].
  cbn [flat_map]. rewrite filter_cons, IH. unfold arg_returns at 1.
  destruct (decide (typed_new_id arg)) as [Ht|Ht].
  - rewrite decide_True by exact Ht. reflexivity.
  - rewrite decide_False by exact Ht. reflexivity.
Qed.

End NewObject.

(** ** The shape of a generated request method *)

Section RequestShape.
Import WlScanner Shape.

Lemma GoRequest_of_shape (names : gmap string string) (ifaceName : string)
    (order : nat) (req : Request) :
  let g := GoRequest_of names ifaceName order req in
  let typed := filter typed_new_id (Request_Args req) in
  GoRequest_Params g = Join (flat_map (arg_params names) (Request_Args req)) ","
  /\ GoRequest_Returns g
     = (if decide (0 < length typed)
        then "(" +:+ Join (map (fun a => "*" +:+ map_index names (Arg_Interface a)) typed) ","
             +:+ " , error)"
        else "error")
  /\ GoRequest_HasNewId g = (if last typed is Some _ then true else false)
  /\ GoRequest_NewIdInterface g
     = (if last typed is Some a then map_index names (Arg_Interface a) else "").
Proof.
  cbn zeta. unfold GoRequest_of. cbv zeta.
  cbn [GoRequest_Params GoRequest_Returns GoRequest_HasNewId GoRequest_NewIdInterface].
  destruct (request_args_spec names (Request_Args req)) as [E R].
  destruct (request_args_NewId names (Request_Args req) ReqVars_init) as [H1 H2].
  fold (request_args names (Request_Args req)) in H1, H2.
  rewrite E, R, flat_map_arg_returns, length_map.
  split; [reflexivity|]. split; [reflexivity|]. split; [exact H1|exact H2].
Qed.

Lemma Legacy_rets_fold (names : gmap string string) (args : list Arg) :
  forall acc : list string,
    fold_left
      (fun rets arg =>
         if decide (Arg_Type arg = "new_id" /\ Arg_Interface arg <> "")
         then rets ++ ["*" +:+ map_index names (Arg_Interface arg)]
         else rets) args acc
    = acc ++ map (fun a => "*" +:+ map_index names (Arg_Interface a))
                 (filter typed_new_id args).
Proof.
  induction args as [|arg args IH]; intros acc; cbn [fold_left].
  - by rewrite app_nil_r.
  - rewrite IH, filter_cons.
    destruct (decide (typed_new_id arg)) as [Ht|Ht].
    + rewrite decide_True by exact Ht. by rewrite <-app_assoc.
    + rewrite decide_False by exact Ht. reflexivity.
Qed.

(** C3, the claim as written fails on a request with two new-object
    arguments: with a late-bound one followed by a typed one the method
    takes the three extra parameters and still returns a pair; with two
    typed ones it returns three values. *)
Lemma new_object_two_args :
  GoRequest_Params (GoRequest_of (wlNames Samples.world0) "Registry" 0 Samples2.bind_both)
  = "iface string,version uint32,id Proxy"
  /\ GoRequest_Returns (GoRequest_of (wlNames Samples.world0) "Registry" 0 Samples2.bind_both)
     = "(*Surface , error)"
  /\ GoRequest_Returns (GoRequest_of (wlNames Samples.world0) "Registry" 0 Samples2.bind_both)
     <> "error"
  /\ GoRequest_Returns (GoRequest_of (wlNames Samples.world0) "Registry" 0 Samples2.make_two)
     = "(*Pointer,*Surface , error)"
  /\ GoRequest_Returns (GoRequest_of (wlNames Samples.world0) "Registry" 0 Samples2.make_two)
     <> "(*Pointer , error)".
Proof. vm_compute. repeat split; discriminate. Qed.

(** C3, amended.  A request whose only typed new-object argument is
    [arg] gets a method that returns the pair of a pointer to the type
    registered for [arg]'s interface and [error], constructs that object
    and returns it.  A late-bound new-object argument adds, at its place,
    the three parameters [iface string], [version uint32] and a [Proxy]
    named after it; when the request has no typed new-object argument the
    method returns only [error].  The older generator prints the same
    return types. *)
Theorem new_object_branching (names : gmap string string) (ifaceName : string)
    (order : nat) (req : Request) :
  let g := GoRequest_of names ifaceName order req in
  (forall arg : Arg,
      filter typed_new_id (Request_Args req) = [arg] ->
      GoRequest_Returns g = "(*" +:+ map_index names (Arg_Interface arg) +:+ " , error)"
      /\ GoRequest_HasNewId g = true
      /\ GoRequest_NewIdInterface g = map_index names (Arg_Interface arg)
      /\ (exists head : string,
             requestTemplate g
             = head +:+ ") (*" +:+ map_index names (Arg_Interface arg) +:+ " , error) {"
               +:+ nl +:+ tab +:+ "ret := New" +:+ map_index names (Arg_Interface arg)
               +:+ "(p.Context())"
               +:+ nl +:+ tab +:+ "return ret , p.Context().sendRequest(p,"
               +:+ Itoa order +:+ GoRequest_Args g +:+ ")" +:+ nl +:+ "}" +:+ nl)
      /\ Legacy.requestRets names req
         = "( *" +:+ map_index names (Arg_Interface arg) +:+ ",error )")
  /\ (forall (before : list Arg) (arg : Arg) (after : list Arg),
         Request_Args req = before ++ arg :: after ->
         untyped_new_id arg ->
         GoRequest_Params g
         = Join (flat_map (arg_params names) before
                 ++ ["iface string"; "version uint32"; Arg_Name arg +:+ " Proxy"]
                 ++ flat_map (arg_params names) after) ","
         /\ (filter typed_new_id (Request_Args req) = [] ->
             GoRequest_Returns g = "error"
             /\ GoRequest_HasNewId g = false
             /\ (exists head : string,
                    requestTemplate g
                    = head +:+ "(" +:+ GoRequest_Params g +:+ ") error {"
                      +:+ nl +:+ tab +:+ "return p.Context().sendRequest(p,"
                      +:+ Itoa order +:+ GoRequest_Args g +:+ ")" +:+ nl +:+ "}" +:+ nl)
             /\ Legacy.requestRets names req = "error")).
Proof.
  cbn zeta.
  destruct (GoRequest_of_shape names ifaceName order req) as (HP & HR & HN & HI).
  cbn zeta in HP, HR, HN, HI.
  assert (HO : GoRequest_Order (GoRequest_of names ifaceName order req) = order)
    by reflexivity.
  remember (GoRequest_of names ifaceName order req) as g eqn:Hg. clear Hg.
  split.
  - intros arg Hone. rewrite Hone in HR, HN, HI. cbn in HR, HN, HI.
    assert (HR' : GoRequest_Returns g
                  = "(*" +:+ map_index names (Arg_Interface arg) +:+ " , error)")
      by exact HR.
    clear HR.
    split; [exact HR'|]. split; [exact HN|]. split; [exact HI|]. split.
    + unfold requestTemplate. rewrite HN, HR', HI, HO.
      exists (nl +:+ "// " +:+ GoRequest_Name g +:+ " will " +:+ GoRequest_Summary g
              +:+ "." +:+ nl +:+ "//" +:+ nl +:+ GoRequest_Description g
              +:+ "func (p *" +:+ GoRequest_IfaceName g +:+ ") " +:+ GoRequest_Name g
              +:+ "(" +:+ GoRequest_Params g).
      rewrite !append_assoc. reflexivity.
    + unfold Legacy.requestRets. rewrite Legacy_rets_fold, Hone.
      cbn [app map length]. rewrite decide_True by lia.
      cbn [Join]. rewrite !append_assoc. reflexivity.
  - intros before arg after Hargs [Hnew Hif].
    split.
    + rewrite HP, Hargs, flat_map_app. cbn [flat_map].
      unfold arg_params at 2.
      rewrite decide_True by exact Hnew.
      rewrite decide_False by (intros Hne; exact (Hne Hif)).
      reflexivity.
    + intros Hnone. rewrite Hnone in HR, HN. cbn in HR, HN.
      split; [exact HR|]. split; [exact HN|]. split.
      * unfold requestTemplate. rewrite HN, HR, HO.
        exists (nl +:+ "// " +:+ GoRequest_Name g +:+ " will " +:+ GoRequest_Summary g
                +:+ "." +:+ nl +:+ "//" +:+ nl +:+ GoRequest_Description g
                +:+ "func (p *" +:+ GoRequest_IfaceName g +:+ ") " +:+ GoRequest_Name g).
        rewrite !append_assoc. reflexivity.
      * unfold Legacy.requestRets. rewrite Legacy_rets_fold, Hnone. reflexivity.
Qed.

Lemma new_object_branching_witness :
  GoRequest_Returns (GoRequest_of (wlNames Samples.world0) "Compositor" 0 Samples2.create_surface)
  = "(*Surface , error)"
  /\ GoRequest_Params (GoRequest_of (wlNames Samples.world0) "Registry" 0 Samples2.bind)
     = "name uint32,iface string,version uint32,id Proxy"
  /\ GoRequest_Returns (GoRequest_of (wlNames Samples.world0) "Registry" 0 Samples2.bind)
     = "error".
Proof.
  split.
  - destruct (new_object_branching (wlNames Samples.world0) "Compositor" 0
                Samples2.create_surface) as [Htyped _].
    apply (Htyped (Samples.mkArg "id" "new_id" "wl_surface")). reflexivity.
  - destruct (new_object_branching (wlNames Samples.world0) "Registry" 0
                Samples2.bind) as [_ Huntyped].
    destruct (Huntyped [Samples.mkArg "name" "uint" ""] (Samples.mkArg "id" "new_id" "") []
                eq_refl (conj eq_refl eq_refl)) as [HP Hret].
    split; [exact HP|]. apply Hret. reflexivity.
Defined.

End RequestShape.

(** ** The arguments of the send call *)

Section SendArgs.
Import WlScanner.

(** C4 at the request [get_thing(x int, id new_id wl_surface)]: line 294
    cuts [sendRequestArgs] from [params], so the call is printed with the
    parameter declaration [x int32] in place of the argument [x]; the
    older generator prints the arguments [x,Proxy(ret)] for the same
    request. *)
Lemma send_args_after_new_id :
  GoRequest_Args (GoRequest_of (wlNames Samples.world0) "Thing" 0 Samples2.get_thing)
  = ",x int32,Proxy(ret)"
  /\ requestTemplate (GoRequest_of (wlNames Samples.world0) "Thing" 0 Samples2.get_thing)
     = nl +:+ "// GetThing will ." +:+ nl +:+ "//" +:+ nl +:+ "// " +:+ nl
       +:+ "func (p *Thing) GetThing(x int32) (*Surface , error) {" +:+ nl
       +:+ tab +:+ "ret := NewSurface(p.Context())" +:+ nl
       +:+ tab +:+ "return ret , p.Context().sendRequest(p,0,x int32,Proxy(ret))" +:+ nl
       +:+ "}" +:+ nl
  /\ Legacy.requestBody (wlNames Samples.world0) Samples2.get_thing "_THING_GET_THING"
     = "ret := NewSurface(p.Connection())" +:+ nl
       +:+ "return ret, p.Connection().SendRequest(p,_THING_GET_THING,x,Proxy(ret))".
Proof. vm_compute. repeat split. Qed.

(** The same line shares the array of [params] when it has room: with
    three arguments before the new-object argument and an object after
    it, the later append to [params] overwrites [Proxy(ret)]. *)
Lemma send_args_overwritten :
  GoRequest_Args
    (GoRequest_of (wlNames Samples.world0) "Thing" 0
       (Samples.mkRequest "get_thing"
          [Samples.mkArg "a" "int" ""; Samples.mkArg "b" "int" "";
           Samples.mkArg "c" "int" ""; Samples.mkArg "id" "new_id" "wl_surface";
           Samples.mkArg "s" "object" "wl_surface"]))
  = ",a int32,b int32,c int32,s *Surface,s".
Proof. vm_compute. reflexivity. Qed.

End SendArgs.

(** ** Handlers and dispatch in the generated code *)

Section Handlers.
Import WlScanner Generated Aux.

Lemma Handlers_Add_same (ev : GoEvent) (h : Handler) (p : Instance) :
  Handlers (AddHandler ev h p) ev
  = if decide (h <> nil_Handler) then Handlers p ev ++ [h] else Handlers p ev.
Proof.
  unfold AddHandler. case_decide; [|done].
  unfold Handlers at 1. by rewrite lookup_insert_eq.
Qed.

Lemma Handlers_Add_other (ev ev' : GoEvent) (h : Handler) (p : Instance) :
  GoEvent_PName ev' <> GoEvent_PName ev ->
  Handlers (AddHandler ev' h p) ev = Handlers p ev.
Proof.
  intros Hne. unfold AddHandler. case_decide; [|done].
  unfold Handlers at 1 3. by rewrite lookup_insert_ne.
Qed.

(** Handlers come to stand in the order of their registration. *)
Lemma Handlers_registered (ev : GoEvent) (hs : list Handler) :
  forall p : Instance,
    Handlers (fold_left (fun q h => AddHandler ev h q) hs p) ev
    = Handlers p ev ++ filter (fun h => h <> nil_Handler) hs.
Proof.
  induction hs as [|h hs IH]; intros p; cbn [fold_left].
  - by rewrite app_nil_r.
  - rewrite IH, Handlers_Add_same, filter_cons.
    case_decide; [|done]. by rewrite <-app_assoc.
Qed.

Lemma remove_first_Forall (P : Handler -> Prop) (h : Handler) (l : list Handler) :
  Forall P l -> Forall P (remove_first h l).
Proof.
  induction 1 as [|e l He Hl IH]; cbn [remove_first]; [constructor|].
  case_decide; [done|]. by constructor.
Qed.

Lemma no_nil_new : no_nil_handler new_Instance.
Proof. intros field l Hl. unfold new_Instance in Hl. by rewrite lookup_empty in Hl. Qed.

Lemma no_nil_run_Op (p : Instance) (o : Op) :
  no_nil_handler p -> no_nil_handler (run_Op p o).
Proof.
  intros Hp field l. destruct o as [ev h|ev h]; cbn [run_Op].
  - unfold AddHandler. case_decide as Hh; [|apply Hp].
    destruct (decide (GoEvent_PName ev = field)) as [<-|Hne].
    + rewrite lookup_insert_eq. intros [= <-].
      apply Forall_app. split; [|by repeat constructor].
      unfold Handlers. destruct (p !! GoEvent_PName ev) as [l0|] eqn:Hl0; cbn.
      * by apply (Hp _ _ Hl0).
      * constructor.
    + rewrite lookup_insert_ne by done. apply Hp.
  - unfold RemoveHandler. destruct (p !! GoEvent_PName ev) as [l0|] eqn:Hl0; [|apply Hp].
    destruct (decide (GoEvent_PName ev = field)) as [<-|Hne].
    + rewrite lookup_insert_eq. intros [= <-].
      apply remove_first_Forall. by apply (Hp _ _ Hl0).
    + rewrite lookup_insert_ne by done. apply Hp.
Qed.

Lemma no_nil_run_Ops (ops : list Op) :
  forall p : Instance, no_nil_handler p -> no_nil_handler (run_Ops ops p).
Proof.
  unfold run_Ops. induction ops as [|o ops IH]; intros p Hp; cbn [fold_left]; [done|].
  apply IH. by apply no_nil_run_Op.
Qed.

Lemma no_nil_Handlers (p : Instance) (ev : GoEvent) :
  no_nil_handler p -> Forall (fun h => h <> nil_Handler) (Handlers p ev).
Proof.
  intros Hp. unfold Handlers.
  destruct (p !! GoEvent_PName ev) as [l|] eqn:Hl; cbn; [by apply (Hp _ _ Hl)|constructor].
Qed.

Context {Buffer Value : Type} (decode : string -> Buffer -> Value * Buffer).

Lemma case_body_calls (ev : GoEvent) (event : WireEvent Buffer) (p : Instance) :
  case_body decode ev event p
  = map (fun h => (h, decode_fields decode (GoEvent_Args ev) (payload event)))
        (Handlers p ev).
Proof.
  unfold case_body. case_decide as Hlen; [done|].
  destruct (Handlers p ev); [done|]. cbn in Hlen. lia.
Qed.

Lemma decode_fields_names (args : list GoArg) :
  forall buf : Buffer, (decode_fields decode args buf).*1 = map GoArg_Name args.
Proof.
  induction args as [|a args IH]; intros buf; cbn [decode_fields]; [done|].
  destruct (decode (GoArg_BufMethod a) buf) as [v buf']. cbn. by rewrite IH.
Qed.

(** The field at position [n] is decoded from what the decode calls of
    the [n] fields before it have left. *)
Lemma decode_fields_lookup (args : list GoArg) :
  forall (buf : Buffer) (n : nat) (a : GoArg),
    args !! n = Some a ->
    decode_fields decode args buf !! n
    = Some (GoArg_Name a,
            (decode (GoArg_BufMethod a) (payload_after decode (take n args) buf)).1).
Proof.
  induction args as [|b args IH]; intros buf n a Hn; [done|].
  cbn [decode_fields]. destruct (decode (GoArg_BufMethod b) buf) as [v buf'] eqn:Hd.
  destruct n as [|n].
  - cbn in Hn. injection Hn as ->. cbn. by rewrite Hd.
  - cbn in Hn.
    change (((GoArg_Name b, v) :: decode_fields decode args buf') !! S n)
      with (decode_fields decode args buf' !! n).
    rewrite (IH buf' n a Hn).
    unfold payload_after. cbn [take fold_left]. by rewrite Hd.
Qed.

Lemma Dispatch_no_nil (i : GoInterface) (event : WireEvent Buffer) (p : Instance) :
  no_nil_handler p ->
  Forall (fun c : Call Value => c.1 <> nil_Handler) (Dispatch decode i event p).
Proof.
  intros Hp. rewrite Dispatch_lookup.
  destruct (GoInterface_Events i !! opcode event) as [ev|]; [|constructor].
  rewrite case_body_calls. apply Forall_fmap.
  eapply Forall_impl; [apply (no_nil_Handlers p ev Hp)|]. done.
Qed.

End Handlers.

Section DispatchCorrect.
Import WlScanner Generated Aux.

Lemma event_arg_Name (arg : Arg) (w : World) :
  GoArg_Name (event_arg arg w).1 = CamelCase (Arg_Name arg)
  /\ GoArg_PName (event_arg arg w).1 = snakeCase (Arg_Name arg).
Proof.
  unfold event_arg.
  destruct (wlTypes !! Arg_Type arg) as [t|]; [destruct (bufTypesMap !! t)|case_decide];
    by cbn.
Qed.

Context {Buffer Value : Type} (decode : string -> Buffer -> Value * Buffer).



End DispatchCorrect.


(** ** The formatting step *)

Section Formatting.
Import WlScanner.




(** Unless the formatter command fails, the run ends normally, whatever
    the protocol holds. *)
Lemma formatter_failure_outcome_total (env : Env) (source output file : string)
    (fs : gmap string string) (protocol : Protocol) :
  output <> "" ->
  sourceData env source = Ok file ->
  xml_Decode env file = Ok protocol ->
  os_Create env output = None ->
  (forall goex : string, exec_LookPath env "go" = Ok goex ->
                         cmd_Run env goex ["fmt"; output] = None) ->
  exit_status (main env source output fs) = 0
  /\ files (main env source output fs)
     = <[output := fileBuffer (generate source protocol)]> fs.
Proof.
  intros Hout Hsrc Hdec Hcreate Hfmt. unfold main.
  rewrite decide_False by exact Hout.
  rewrite Hsrc. unfold decodeWlXML. rewrite Hdec, Hcreate. unfold fmtFile.
  destruct (exec_LookPath env "go") as [goex|err] eqn:Hlook; [|by split].
  rewrite (Hfmt goex eq_refl). by split.
Qed.

End Formatting.

(** ** Qualified enum references (scanner.go) *)

Section EnumReference.
Import Aux.

Lemma Split_length (s : string) (c : ascii) :
  length (Split s c) = S (count_byte s c).
Proof.
  induction s as [|a s IH]; [reflexivity|].
  cbn [Split count_byte]. destruct (byte_eqb a c).
  - cbn [length]. by rewrite IH.
  - destruct (Split s c) as [|p ps]; cbn [length] in *; lia.
Qed.

Lemma Index_from_none (s : string) (c : ascii) :
  forall i : Z, (0 <= i)%Z ->
    Index_from i s c = (-1)%Z <-> count_byte s c = 0.
Proof.
  induction s as [|a s IH]; intros i Hi; [done|].
  cbn [Index_from count_byte]. destruct (byte_eqb a c).
  - split; [lia|discriminate].
  - rewrite (IH (i + 1)%Z) by lia. done.
Qed.

Lemma Index_none (s : string) (c : ascii) :
  Index s c = (-1)%Z <-> count_byte s c = 0.
Proof. apply Index_from_none. lia. Qed.

(** Joining the parts with the separator gives the string back. *)
Lemma Join_Split (s : string) (c : ascii) :
  Join (Split s c) (String c "") = s.
Proof.
  induction s as [|a s IH]; [reflexivity|].
  cbn [Split]. destruct (byte_eqb a c) eqn:Hac.
  - apply Ascii.eqb_eq in Hac as ->.
    pose proof (Split_length s c) as Hlen.
    destruct (Split s c) as [|p ps]; [cbn in Hlen; lia|].
    change (Join ("" :: p :: ps) (String c "")) with (String c (Join (p :: ps) (String c ""))).
    by rewrite IH.
  - pose proof (Split_length s c) as Hlen.
    destruct (Split s c) as [|p ps]; [cbn in Hlen; lia|].
    destruct ps as [|q ps].
    + cbn in IH. cbn. by rewrite IH.
    + change (Join (String a p :: q :: ps) (String c ""))
        with (String a (Join (p :: q :: ps) (String c ""))).
      by rewrite IH.
Qed.


Lemma requestArgs_loop_fatal (names : gmap string string) (ifaceName msg : string)
    (arg : Arg) (after : list Arg) (before : list Arg) :
  forall acc : list string,
    Legacy.requestArg names ifaceName arg = Fatal msg ->
    exists msg' : string,
      Legacy.requestArgs_loop names ifaceName (before ++ arg :: after) acc = Fatal msg'.
Proof.
  induction before as [|b before IH]; intros acc Harg; cbn [app Legacy.requestArgs_loop].
  - rewrite Harg. eauto.
  - destruct (Legacy.requestArg names ifaceName b) as [new|msg0]; [|eauto].
    by apply IH.
Qed.



End EnumReference.

(** ** References to names that were never registered *)

Section Unresolved.
Import WlScanner Shape Aux.


Lemma map_index_unregistered (names : gmap string string) (k : string) :
  names !! k = None -> map_index names k = "".
Proof. intros Hk. unfold map_index. by rewrite Hk. Qed.

(** The enum-reference of an argument plays no part in a request. *)
Lemma request_arg_ignores_Enum (names : gmap string string) (v : ReqVars)
    (arg : Arg) (enum : string) :
  request_arg names v
    {| Arg_Name := Arg_Name arg; Arg_Type := Arg_Type arg;
       Arg_Interface := Arg_Interface arg; Arg_Enum := enum;
       Arg_AllowNull := Arg_AllowNull arg; Arg_Summary := Arg_Summary arg |}
  = request_arg names v arg.
Proof. reflexivity. Qed.


End Unresolved.


(** ** The two casing rules *)

Section Casing.
Import WlScanner Aux.

Lemma ToTitle_space : ToTitle " " = " "%char.
Proof. reflexivity. Qed.

Lemma ToTitle_not_space (r : ascii) :
  byte_eqb r " " = false -> byte_eqb (ToTitle r) " " = false.
Proof.
  destruct r as [[] [] [] [] [] [] [] []]; intros H; vm_compute in H |- *;
    first [reflexivity|discriminate].
Qed.

Lemma Split_not_nil (s : string) (c : ascii) : Split s c <> [].
Proof.
  pose proof (Split_length s c) as Hlen. intros Hnil. rewrite Hnil in Hlen.
  cbn in Hlen. lia.
Qed.

(** Title-casing the spaced name and dropping the spaces title-cases
    each word. *)
Lemma Title_from_words (s : string) :
  forall prev : ascii,
    Replace (Title_from prev s) " " ""
    = match Split s " " with
      | [] => ""
      | p :: ps => Title_from prev p +:+ String.concat "" (map Title ps)
      end.
Proof.
  induction s as [|r s IH]; intros prev; [reflexivity|].
  cbn [Title_from Replace Split].
  destruct (byte_eqb r " ") eqn:Hr.
  - apply Ascii.eqb_eq in Hr as ->.
    assert (Hc : (if isSeparator prev then ToTitle " " else " "%char) = " "%char)
      by (by destruct (isSeparator prev)).
    rewrite Hc. change (byte_eqb " " " ") with true. cbn [Title_from].
    rewrite !append_empty_l, (IH " "%char).
    destruct (Split s " ") as [|p ps] eqn:Hs; [by apply Split_not_nil in Hs|].
    cbn [map]. by rewrite concat_cons.
  - assert (Hc : byte_eqb (if isSeparator prev then ToTitle r else r) " " = false).
    { destruct (isSeparator prev); [by apply ToTitle_not_space|done]. }
    rewrite Hc, (IH r).
    destruct (Split s " ") as [|p ps] eqn:Hs; [by apply Split_not_nil in Hs|].
    cbn [Title_from]. by rewrite !append_cons, append_empty_l.
Qed.

Lemma Join_concat (l : list string) (sep : string) : Join l sep = String.concat sep l.
Proof.
  induction l as [|x l IH]; [reflexivity|].
  destruct l as [|y l]; [reflexivity|].
  change (Join (x :: y :: l) sep) with (x +:+ sep +:+ Join (y :: l) sep).
  by rewrite IH.
Qed.

(** Both rules work on the same words; they differ in the first. *)
Lemma casing_by_words (n : string) :
  CamelCase n = String.concat "" (map Title (name_words n))
  /\ snakeCase n
     = match name_words n with
       | [] => ""
       | p :: ps => p +:+ String.concat "" (map Title ps)
       end.
Proof.
  unfold CamelCase, snakeCase, name_words, Title.
  set (s := Replace _ "_" " "). split.
  - rewrite Title_from_words.
    destruct (Split s " ") as [|p ps]; [reflexivity|].
    cbn [map]. by rewrite concat_cons.
  - destruct (Split s " ") as [|p ps]; [reflexivity|].
    cbn [imap]. rewrite decide_True by reflexivity.
    assert (Himap : imap ((fun i p0 => if decide (i = 0) then p0 else Title_from " " p0) ∘ S) ps
                    = map (Title_from " ") ps).
    { transitivity (imap (const (Title_from " ")) ps); [|apply imap_const].
      apply imap_ext. intros i x _. cbn. by rewrite decide_False by lia. }
    rewrite Himap, Join_concat, concat_cons. reflexivity.
Qed.

End Casing.

(** ** Identifiers of event arguments *)

Section EventIdentifiers.
Import WlScanner Aux.

(** C7, the claim as written fails: the field of the event record for
    the argument [surface_x] is [SurfaceX], the PascalCase name; its
    camelCase name [surfaceX] is computed but printed nowhere. *)
Lemma event_field_is_PascalCase :
  snakeCase "surface_x" = "surfaceX"
  /\ GoArg_Name (event_arg (Samples.mkArg "surface_x" "fixed" "") Samples.world0).1
     = "SurfaceX"
  /\ GoArg_PName (event_arg (Samples.mkArg "surface_x" "fixed" "") Samples.world0).1
     = "surfaceX"
  /\ Contains (fileBuffer (generate_interface Samples.world0 Samples.wl_pointer))
              (nl +:+ tab +:+ "SurfaceX float32" +:+ nl) = true
  /\ Contains (fileBuffer (generate_interface Samples.world0 Samples.wl_pointer))
              "ev.SurfaceX = event.Float32()" = true
  /\ Contains (fileBuffer (generate_interface Samples.world0 Samples.wl_pointer))
              "surfaceX" = false.
Proof. vm_compute. repeat split. Qed.

(** C7, amended.  The camelCase rule strips the same prefix as the
    PascalCase rule and works on the same words, leaving the first word
    as it is and title-casing the later ones.  The generator computes it
    for the name of every event and of every event argument; it prints
    it for the event, as the name of the handler field
    [<name>Handlers], while the fields of the event record carry the
    PascalCase names of the arguments. *)
Theorem event_identifier_casing (iface : Interface) (w : World) :
  let i1 := (ProcessEvents (new_GoInterface (wlNames w) iface) w).1 in
  (forall n : string,
      CamelCase n = String.concat "" (map Title (name_words n))
      /\ snakeCase n
         = match name_words n with
           | [] => ""
           | p :: ps => p +:+ String.concat "" (map Title ps)
           end)
  /\ (forall (k : nat) (e : Event),
         Interface_Events iface !! k = Some e ->
         exists ev : GoEvent,
           GoInterface_Events i1 !! k = Some ev
           /\ GoEvent_PName ev = snakeCase (Event_Name e)
           /\ map GoArg_PName (GoEvent_Args ev)
              = map (fun a => snakeCase (Arg_Name a)) (Event_Args e)
           /\ map GoArg_Name (GoEvent_Args ev)
              = map (fun a => CamelCase (Arg_Name a)) (Event_Args e)
           /\ eventTemplate ev
              = nl +:+ "type " +:+ GoInterface_Name i1 +:+ CamelCase (Event_Name e)
                +:+ "Event struct {"
                +:+ String.concat ""
                      (map (fun a => nl +:+ tab +:+ CamelCase (Arg_Name a) +:+ " "
                                     +:+ GoArg_Type (event_arg a w).1)
                           (Event_Args e))
                +:+ nl +:+ "}" +:+ nl
           /\ (exists before after : string,
                  ifaceTypeTemplate i1
                  = before +:+ nl +:+ tab +:+ snakeCase (Event_Name e)
                    +:+ "Handlers []Handler" +:+ after)).
Proof.
  cbn zeta. split; [apply casing_by_words|].
  destruct (ProcessEvents_new iface w) as (_ & _ & Hname & Hevs).
  set (i1 := (ProcessEvents (new_GoInterface (wlNames w) iface) w).1) in *.
  intros k e Hk.
  set (ev := {| GoEvent_Name := CamelCase (Event_Name e);
                GoEvent_IfaceName := map_index (wlNames w) (Interface_Name iface);
                GoEvent_PName := snakeCase (Event_Name e);
                GoEvent_Args := map (fun a => (event_arg a w).1) (Event_Args e) |}).
  assert (Hlook : GoInterface_Events i1 !! k = Some ev).
  { rewrite Hevs, list_lookup_fmap, Hk. reflexivity. }
  exists ev. split; [exact Hlook|]. split; [reflexivity|].
  split.
  { cbn [ev GoEvent_Args]. rewrite map_map. apply map_ext. intros a. apply event_arg_Name. }
  split.
  { cbn [ev GoEvent_Args]. rewrite map_map. apply map_ext. intros a. apply event_arg_Name. }
  split.
  { unfold eventTemplate. cbn [ev GoEvent_Args GoEvent_Name GoEvent_IfaceName].
    rewrite Hname, map_map.
    assert (Hfields :
              map (fun x => nl +:+ tab +:+ GoArg_Name (event_arg x w).1 +:+ " "
                            +:+ GoArg_Type (event_arg x w).1) (Event_Args e)
              = map (fun a => nl +:+ tab +:+ CamelCase (Arg_Name a) +:+ " "
                              +:+ GoArg_Type (event_arg a w).1) (Event_Args e)).
    { apply map_ext. intros a. by rewrite (proj1 (event_arg_Name a w)). }
    by rewrite Hfields. }
  unfold ifaceTypeTemplate.
  assert (Hline : map (fun ev0 => nl +:+ tab +:+ GoEvent_PName ev0 +:+ "Handlers []Handler")
                      (GoInterface_Events i1) !! k
                  = Some (nl +:+ tab +:+ snakeCase (Event_Name e) +:+ "Handlers []Handler")).
  { by rewrite list_lookup_fmap, Hlook. }
  rewrite (concat_middle _ k _ Hline).
  set (lines := map _ (GoInterface_Events i1)).
  exists (nl +:+ "type " +:+ GoInterface_Name i1 +:+ " struct {" +:+ nl
          +:+ tab +:+ "BaseProxy"
          +:+ (if decide (0 < length (GoInterface_Events i1))
               then nl +:+ tab +:+ "mu sync.RWMutex" else "")
          +:+ String.concat "" (take k lines)),
         (String.concat "" (drop (S k) lines) +:+ nl +:+ "}" +:+ nl).
  rewrite !append_assoc. reflexivity.
Qed.

Lemma event_identifier_casing_witness :
  exists ev : GoEvent,
    GoInterface_Events Samples3.pointer !! 0 = Some ev
    /\ GoEvent_PName ev = "motion"
    /\ map GoArg_Name (GoEvent_Args ev) = ["Time"; "SurfaceX"]
    /\ map GoArg_PName (GoEvent_Args ev) = ["time"; "surfaceX"].
Proof.
  destruct (event_identifier_casing Samples.wl_pointer Samples.world0) as [_ Hev].
  destruct (Hev 0 (Samples.mkEvent "motion"
                     [Samples.mkArg "time" "uint" ""; Samples.mkArg "surface_x" "fixed" ""])
                eq_refl) as (ev & Hlook & Hp & Hpn & Hn & _).
  exists ev. split; [exact Hlook|]. split; [rewrite Hp; vm_compute; reflexivity|].
  split; [rewrite Hn|rewrite Hpn]; vm_compute; reflexivity.
Defined.

End EventIdentifiers.

(** ** When the send arguments stand in declaration order *)

Section SendArgsInOrder.
Import WlScanner Shape.

Lemma separate_params (x : string) (v : ReqVars) :
  slices_wf v -> separate v ->
  slices_wf (append_params x v)
  /\ separate (append_params x v)
  /\ Slice.elems (heap (append_params x v)) (sendRequestArgs (append_params x v))
     = Slice.elems (heap v) (sendRequestArgs v).
Proof.
  intros [Hp Hs] Hsep. unfold append_params.
  assert (Hfar : Slice.ptr (sendRequestArgs v) = Slice.ptr (params v) ->
                 Slice.len (params v) < Slice.cap (params v) ->
                 Slice.len (sendRequestArgs v) <= Slice.len (params v)).
  { intros Hptr Hroom. specialize (Hsep Hptr). lia. }
  pose proof (append_frame (heap v) (params v) (sendRequestArgs v) x Hp Hs Hfar) as He.
  pose proof (append_wf (heap v) (params v) x Hp) as Hw.
  pose proof (append_wf_other (heap v) (params v) (sendRequestArgs v) x Hp Hs) as Ho.
  pose proof (append_place (heap v) (params v) x) as (Hlen & Hplace & _).
  destruct (Slice.append (heap v) (params v) x) as [h s'].
  cbn [fst snd] in *. cbn [heap params sendRequestArgs].
  split; [by split|]. split; [|done].
  unfold separate. cbn [params sendRequestArgs]. intros Hptr.
  destruct Hplace as [(Hroom & Hsame & Hc)|(Hfull & Hnew)].
  - rewrite Hsame in Hptr. specialize (Hsep Hptr). lia.
  - destruct Hs as (Hlt & _). lia.
Qed.

Lemma separate_sendRequestArgs (x : string) (v : ReqVars) :
  slices_wf v -> separate v ->
  slices_wf (append_sendRequestArgs x v)
  /\ separate (append_sendRequestArgs x v)
  /\ Slice.elems (heap (append_sendRequestArgs x v))
                 (sendRequestArgs (append_sendRequestArgs x v))
     = Slice.elems (heap v) (sendRequestArgs v) ++ [x].
Proof.
  intros [Hp Hs] Hsep. unfold append_sendRequestArgs.
  pose proof (append_elems (heap v) (sendRequestArgs v) x Hs) as He.
  pose proof (append_wf (heap v) (sendRequestArgs v) x Hs) as Hw.
  pose proof (append_wf_other (heap v) (sendRequestArgs v) (params v) x Hs Hp) as Ho.
  pose proof (append_place (heap v) (sendRequestArgs v) x) as (Hlen & Hplace & _).
  destruct (Slice.append (heap v) (sendRequestArgs v) x) as [h s'].
  cbn [fst snd] in *. cbn [heap params sendRequestArgs].
  split; [by split|]. split; [|done].
  unfold separate. cbn [params sendRequestArgs]. intros Hptr.
  destruct Hplace as [(Hroom & Hsame & Hc)|(Hfull & Hnew)].
  - rewrite Hsame in Hptr. by apply Hsep.
  - destruct Hp as (Hlt & _). lia.
Qed.

(** A turn of the loop for an argument that is no typed new-object
    appends the argument's wire values to [sendRequestArgs]. *)
Lemma request_arg_send (names : gmap string string) (v : ReqVars) (arg : Arg) :
  slices_wf v -> separate v -> ~ typed_new_id arg ->
  slices_wf (request_arg names v arg)
  /\ separate (request_arg names v arg)
  /\ Slice.elems (heap (request_arg names v arg)) (sendRequestArgs (request_arg names v arg))
     = Slice.elems (heap v) (sendRequestArgs v) ++ arg_send arg.
Proof.
  intros Hwf Hsep Hno. unfold request_arg, arg_send.
  destruct (decide (Arg_Type arg = "new_id")) as [Hnew|Hnew].
  - rewrite !decide_False by (intros Hif; apply Hno; split; assumption).
    destruct (separate_sendRequestArgs "iface" v Hwf Hsep) as (W1 & S1 & E1).
    destruct (separate_sendRequestArgs "version" _ W1 S1) as (W2 & S2 & E2).
    destruct (separate_sendRequestArgs (Arg_Name arg) _ W2 S2) as (W3 & S3 & E3).
    destruct (separate_params "iface string" _ W3 S3) as (W4 & S4 & E4).
    destruct (separate_params "version uint32" _ W4 S4) as (W5 & S5 & E5).
    destruct (separate_params (Arg_Name arg +:+ " Proxy") _ W5 S5) as (W6 & S6 & E6).
    split; [done|]. split; [done|].
    rewrite E6, E5, E4, E3, E2, E1, <-!app_assoc. reflexivity.
  - destruct (decide (Arg_Type arg = "object" /\ Arg_Interface arg <> "")).
    + destruct (separate_params (Arg_Name arg +:+ " *" +:+ map_index names (Arg_Interface arg))
                  v Hwf Hsep) as (W1 & S1 & E1).
      destruct (separate_sendRequestArgs (Arg_Name arg) _ W1 S1) as (W2 & S2 & E2).
      split; [done|]. split; [done|]. by rewrite E2, E1.
    + destruct (separate_sendRequestArgs (Arg_Name arg) v Hwf Hsep) as (W1 & S1 & E1).
      destruct (separate_params (Arg_Name arg +:+ " " +:+ map_index wlTypes (Arg_Type arg))
                  _ W1 S1) as (W2 & S2 & E2).
      split; [done|]. split; [done|]. by rewrite E2, E1.
Qed.

Lemma request_args_send (names : gmap string string) (args : list Arg) :
  forall v : ReqVars,
    slices_wf v -> separate v -> Forall (fun a => ~ typed_new_id a) args ->
    Slice.elems (heap (fold_left (request_arg names) args v))
                (sendRequestArgs (fold_left (request_arg names) args v))
    = Slice.elems (heap v) (sendRequestArgs v) ++ flat_map arg_send args.
Proof.
  induction args as [|arg args IH]; intros v Hwf Hsep Hall; cbn [fold_left flat_map].
  - by rewrite app_nil_r.
  - apply Forall_cons in Hall as [Hno Hall].
    destruct (request_arg_send names v arg Hwf Hsep Hno) as (W & S & E).
    rewrite (IH _ W S Hall), E, <-app_assoc. reflexivity.
Qed.

(** A typed new-object argument met first leaves the slices apart, with
    the new object as the only wire argument so far. *)
Lemma request_arg_first (names : gmap string string) (arg : Arg) :
  typed_new_id arg ->
  slices_wf (request_arg names ReqVars_init arg)
  /\ separate (request_arg names ReqVars_init arg)
  /\ Slice.elems (heap (request_arg names ReqVars_init arg))
                 (sendRequestArgs (request_arg names ReqVars_init arg))
     = arg_send arg.
Proof.
  intros [Hnew Hif]. unfold request_arg, arg_send.
  rewrite !decide_True by assumption.
  split; [|split].
  - split; unfold Slice.wf; vm_compute; repeat split; lia.
  - unfold separate. vm_compute. lia.
  - reflexivity.
Qed.

(** The send arguments of a request are the wire values of its arguments
    in declaration order whenever no typed new-object argument comes
    after the first argument. *)
Lemma send_args_in_order (names : gmap string string) (ifaceName : string)
    (order : nat) (req : Request) :
  Forall (fun a => ~ typed_new_id a) (tail (Request_Args req)) ->
  GoRequest_Args (GoRequest_of names ifaceName order req)
  = String.concat "" (map (fun x => "," +:+ x) (flat_map arg_send (Request_Args req))).
Proof.
  intros Htail.
  assert (Helems : Slice.elems (heap (request_args names (Request_Args req)))
                               (sendRequestArgs (request_args names (Request_Args req)))
                   = flat_map arg_send (Request_Args req)).
  { unfold request_args. destruct (Request_Args req) as [|a args]; [reflexivity|].
    cbn [tail] in Htail. cbn [fold_left flat_map].
    destruct (decide (typed_new_id a)) as [Ht|Ht].
    - destruct (request_arg_first names a Ht) as (W & S & E).
      by rewrite (request_args_send names args _ W S Htail), E.
    - assert (Hwf : slices_wf ReqVars_init) by (split; apply wf_nil).
      assert (Hsep : separate ReqVars_init) by (intros _; reflexivity).
      destruct (request_arg_send names ReqVars_init a Hwf Hsep Ht) as (W & S & E).
      by rewrite (request_args_send names args _ W S Htail), E. }
  unfold GoRequest_of. cbv zeta. cbn [GoRequest_Args]. rewrite Helems.
  generalize (flat_map arg_send (Request_Args req)). intros l.
  destruct l as [|x l]; [reflexivity|].
  rewrite decide_True by (cbn; lia).
  rewrite Join_concat. revert x. induction l as [|y l IH]; intros x.
  - reflexivity.
  - change (String.concat "," (x :: y :: l)) with (x +:+ "," +:+ String.concat "," (y :: l)).
    change (map (fun z => "," +:+ z) (x :: y :: l))
      with (("," +:+ x) :: map (fun z => "," +:+ z) (y :: l)).
    rewrite concat_cons, <-IH, !append_assoc. reflexivity.
Qed.

(** The older generator sends the wire values in declaration order for
    every request. *)
Lemma Legacy_send_args_in_order (names : gmap string string) (req : Request)
    (reqCodeName : string) :
  exists body hasRet : string,
    Legacy.requestBody names req reqCodeName
    = body +:+ "return " +:+ hasRet +:+ " p.Connection().SendRequest(p," +:+ reqCodeName
      +:+ String.concat "" (map (fun x => "," +:+ x) (flat_map arg_send (Request_Args req)))
      +:+ ")".
Proof.
  unfold Legacy.requestBody. cbv zeta.
  set (step := fun (v : Legacy.BodyVars) (arg : Arg) => _).
  assert (Hparams : forall args v,
             Legacy.params (fold_left step args v)
             = Legacy.params v ++ flat_map arg_send args).
  { induction args as [|a args IH]; intros v; cbn [fold_left flat_map].
    - by rewrite app_nil_r.
    - rewrite IH, app_assoc. f_equal. unfold step, arg_send.
      repeat case_decide; reflexivity. }
  assert (Hbuf : forall l acc,
             fold_left (fun buf param => buf +:+ "," +:+ param) l acc
             = acc +:+ String.concat "" (map (fun x => "," +:+ x) l)).
  { induction l as [|x l IH]; intros acc; cbn [fold_left map].
    - by rewrite append_empty_r.
    - by rewrite IH, concat_cons, !append_assoc. }
  rewrite Hparams, Hbuf. cbn [Legacy.params app]. rewrite append_empty_l.
  eexists _, _. reflexivity.
Qed.

End SendArgsInOrder.

(** * Further properties *)

(** ** The type tables *)

Section Tables.
Import WlScanner Pieces.

(** Every Go type that [wlTypes] yields has a decode call. *)
Lemma bufTypesMap_covers (k t : string) :
  wlTypes !! k = Some t ->
  exists m : string, bufTypesMap !! t = Some m /\ m <> "".
Proof.
  intros Hk. unfold wlTypes in Hk. apply elem_of_list_to_map_2 in Hk.
  repeat (apply elem_of_cons in Hk as [Hk|Hk];
          [injection Hk as -> ->; eexists; split; [vm_compute; reflexivity|discriminate]|]).
  by apply elem_of_nil in Hk.
Qed.

(** So the event loop leaves the world alone, and its record depends on
    the registry only. *)
Lemma event_arg_pure (a : Arg) (w : World) :
  event_arg a w = ((event_arg a (world_of (wlNames w))).1, w).
Proof.
  unfold event_arg.
  destruct (wlTypes !! Arg_Type a) as [t|] eqn:Ht.
  - destruct (bufTypesMap_covers _ _ Ht) as (m & Hm & _). by rewrite Hm.
  - cbn [world_of wlNames]. by case_decide.
Qed.

Lemma event_args_pure (args : list Arg) :
  forall (acc : list GoArg) (w : World),
    event_args args acc w
    = (acc ++ map (fun a => (event_arg a (world_of (wlNames w))).1) args, w).
Proof.
  induction args as [|a args IH]; intros acc w; cbn [event_args map].
  - by rewrite app_nil_r.
  - rewrite (event_arg_pure a w), IH, <-app_assoc. reflexivity.
Qed.

End Tables.

(** ** The output in order *)

Section Emitter.
Import WlScanner Pieces.

Lemma ProcessEvents_loop_pure (evs : list Event) :
  forall (i : GoInterface) (w : World),
    ProcessEvents_loop evs i w
    = ({| GoInterface_Name := GoInterface_Name i;
          GoInterface_WlInterface := GoInterface_WlInterface i;
          GoInterface_Requests := GoInterface_Requests i;
          GoInterface_Events :=
            GoInterface_Events i
            ++ map (event_record (wlNames w) (GoInterface_Name i)) evs;
          GoInterface_Enums := GoInterface_Enums i |},
       emit (String.concat ""
               (map (fun ev => eventTemplate ev +:+ ifaceAddRemoveHandlerTemplate ev)
                    (map (event_record (wlNames w) (GoInterface_Name i)) evs))) w).
Proof.
  induction evs as [|e evs IH]; intros i w.
  - cbn. rewrite app_nil_r, emit_empty. by destruct i.
  - cbn [ProcessEvents_loop]. rewrite event_args_pure. cbn [app].
    unfold executeTemplate. rewrite IH.
    fold (event_record (wlNames w) (GoInterface_Name i) e).
    cbn [add_Event GoInterface_Name GoInterface_WlInterface GoInterface_Requests
         GoInterface_Events GoInterface_Enums emit wlNames map].
    rewrite <-app_assoc. cbn [app]. f_equal.
    rewrite concat_cons. unfold emit. cbn [wlNames fileBuffer logged].
    by rewrite !append_assoc.
Qed.

Lemma ProcessEvents_pure (iface : Interface) (w : World) :
  ProcessEvents (new_GoInterface (wlNames w) iface) w
  = (with_events (wlNames w) iface, emit (events_text (wlNames w) iface) w).
Proof.
  unfold ProcessEvents. rewrite ProcessEvents_loop_pure.
  cbn [new_GoInterface GoInterface_Name GoInterface_WlInterface GoInterface_Requests
       GoInterface_Events GoInterface_Enums app].
  fold (with_events (wlNames w) iface). unfold events_text.
  cbn [with_events GoInterface_Events]. rewrite length_map.
  case_decide.
  - unfold executeTemplate. rewrite emit_emit. reflexivity.
  - by rewrite append_empty_r.
Qed.

Lemma map_imap {A B C : Type} (g : B -> C) (l : list A) :
  forall f : nat -> A -> B, map g (imap f l) = imap (fun k x => g (f k x)) l.
Proof.
  induction l as [|x l IH]; intros f; [reflexivity|].
  cbn [imap map]. f_equal. apply IH.
Qed.

Lemma ProcessRequests_pure (names : gmap string string) (iface : Interface) (w : World) :
  wlNames w = names ->
  (ProcessRequests (with_events names iface) w).2 = emit (requests_text names iface) w.
Proof.
  intros <-. unfold ProcessRequests. rewrite ProcessRequests_from_spec.
  cbn [snd]. rewrite map_imap. reflexivity.
Qed.

Lemma ProcessEnums_pure (i : GoInterface) (w : World) :
  ProcessEnums i w
  = emit (String.concat ""
            (map (fun e => ifaceEnums (enum_record (GoInterface_Name i) e))
                 (Interface_Enums (GoInterface_WlInterface i)))) w.
Proof.
  unfold ProcessEnums.
  generalize (Interface_Enums (GoInterface_WlInterface i)). intros enums. revert w.
  induction enums as [|e enums IH]; intros w; cbn [fold_left map].
  - by rewrite emit_empty.
  - rewrite IH. unfold executeTemplate. fold (enum_record (GoInterface_Name i) e).
    by rewrite emit_emit, concat_cons.
Qed.

(** One interface adds its text to the buffer and touches nothing else. *)
Lemma generate_interface_pure (w : World) (iface : Interface) :
  generate_interface w iface = emit (interface_text (wlNames w) iface) w.
Proof.
  unfold generate_interface. rewrite ProcessEvents_pure.
  unfold Constructor, executeTemplate.
  destruct (ProcessRequests (with_events (wlNames w) iface) _) as [i2 w2] eqn:Hreq.
  assert (Hw2 : w2 = (ProcessRequests (with_events (wlNames w) iface)
                        (emit (ifaceConstructorTemplate (with_events (wlNames w) iface))
                           (emit (ifaceTypeTemplate (with_events (wlNames w) iface))
                              (emit (events_text (wlNames w) iface) w)))).2)
    by (by rewrite Hreq).
  assert (Hi2 : GoInterface_Name i2 = map_index (wlNames w) (Interface_Name iface)
                /\ GoInterface_WlInterface i2 = iface).
  { assert (Hfst : i2 = (ProcessRequests (with_events (wlNames w) iface)
                          (emit (ifaceConstructorTemplate (with_events (wlNames w) iface))
                             (emit (ifaceTypeTemplate (with_events (wlNames w) iface))
                                (emit (events_text (wlNames w) iface) w)))).1)
      by (by rewrite Hreq).
    rewrite Hfst. unfold ProcessRequests. rewrite ProcessRequests_from_spec. by cbn. }
  destruct Hi2 as [Hname Hwl].
  rewrite ProcessEnums_pure, Hname, Hwl, Hw2.
  rewrite (ProcessRequests_pure (wlNames w)) by reflexivity.
  rewrite !emit_emit. unfold interface_text, enums_text.
  rewrite ?append_assoc. reflexivity.
Qed.

Lemma generate_interfaces_pure (ifaces : list Interface) :
  forall w : World,
    fold_left generate_interface ifaces w
    = emit (String.concat "" (map (interface_text (wlNames w)) ifaces)) w.
Proof.
  induction ifaces as [|iface ifaces IH]; intros w; cbn [fold_left map].
  - by rewrite emit_empty.
  - rewrite IH, generate_interface_pure. cbn [emit wlNames].
    by rewrite emit_emit, concat_cons.
Qed.

End Emitter.

(** ** The registry *)

Section Registry.
Import WlScanner Pieces.

Lemma register_names_lookup (l : list string) :
  forall (m : gmap string string) (k : string),
    fold_left (fun m n => <[n := CamelCase n]> m) l m !! k
    = if decide (k ∈ l) then Some (CamelCase k) else m !! k.
Proof.
  induction l as [|n l IH]; intros m k; cbn [fold_left].
  - rewrite decide_False by apply not_elem_of_nil. reflexivity.
  - rewrite IH. destruct (decide (k ∈ l)) as [Hin|Hout].
    + rewrite decide_True by (by right). reflexivity.
    + destruct (decide (k = n)) as [->|Hne].
      * rewrite decide_True by (by left). by rewrite lookup_insert_eq.
      * rewrite decide_False by (intros [?|?]%elem_of_cons; done).
        by rewrite lookup_insert_ne.
Qed.

Lemma register_interfaces (ifaces : list Interface) :
  forall w : World,
    fold_left (fun w iface => snd (caseAndRegister (Interface_Name iface) w)) ifaces w
    = set_wlNames (fold_left (fun m n => <[n := CamelCase n]> m)
                             (map Interface_Name ifaces) (wlNames w)) w.
Proof.
  induction ifaces as [|iface ifaces IH]; intros w; cbn [fold_left map].
  - by destruct w.
  - rewrite IH. reflexivity.
Qed.

(** What [generate] leaves: the registry of the first pass, the header
    followed by the text of each interface, and an empty log. *)
Lemma generate_pure (source : string) (protocol : Protocol) :
  let names :=
    fold_left (fun m n => <[n := CamelCase n]> m)
              (map Interface_Name (Protocol_Interfaces protocol))
              (if decide (Protocol_Name protocol <> "wayland")
               then fold_left (fun m n => <[n := CamelCase n]> m) inheritedNames ∅
               else ∅) in
  generate source protocol
  = {| wlNames := names;
       fileBuffer := header source
                     +:+ String.concat "" (map (interface_text names)
                                               (Protocol_Interfaces protocol));
       logged := [] |}.
Proof.
  cbn zeta. unfold generate. rewrite register_interfaces.
  rewrite generate_interfaces_pure. rewrite !emit_emit.
  unfold emit, set_wlNames, header. cbn [wlNames fileBuffer logged].
  rewrite append_empty_l, ?append_assoc. reflexivity.
Qed.

Lemma registry_lookup_declared (source : string) (protocol : Protocol) (k : string) :
  k ∈ map Interface_Name (Protocol_Interfaces protocol) ->
  wlNames (generate source protocol) !! k = Some (CamelCase k).
Proof.
  intros Hin. rewrite generate_pure. cbn [wlNames]. rewrite register_names_lookup.
  by rewrite decide_True.
Qed.

(** The text of a declared interface stands in the output. *)
Lemma output_text_split (source : string) (protocol : Protocol) (A : Interface) :
  A ∈ Protocol_Interfaces protocol ->
  exists pre post : string,
    fileBuffer (generate source protocol)
    = pre +:+ interface_text (wlNames (generate source protocol)) A +:+ post.
Proof.
  intros HA. apply list_elem_of_lookup in HA as [j Hj].
  rewrite generate_pure. cbn [wlNames fileBuffer].
  set (names := fold_left _ _ _).
  assert (Hj' : map (interface_text names) (Protocol_Interfaces protocol) !! j
                = Some (interface_text names A)) by (by rewrite list_lookup_fmap, Hj).
  rewrite (concat_middle _ j _ Hj').
  eexists (header source +:+ _), _. by rewrite append_assoc.
Qed.

End Registry.

Section RegistryProperties.
Import WlScanner Pieces Shape.

(** X1.  After generation the registry holds exactly the declared
    interface names and, for a protocol that is not [wayland], the
    inherited names; each is mapped to its canonical form. *)
Theorem registry_after_generate (source : string) (protocol : Protocol) (k : string) :
  wlNames (generate source protocol) !! k
  = if decide (registered protocol k) then Some (CamelCase k) else None.
Proof.
  rewrite generate_pure. cbn [wlNames]. rewrite register_names_lookup.
  unfold registered.
  destruct (decide (k ∈ map Interface_Name (Protocol_Interfaces protocol))) as [Hin|Hout].
  { rewrite decide_True by (by left). reflexivity. }
  destruct (decide (Protocol_Name protocol <> "wayland")) as [Hw|Hw].
  - rewrite register_names_lookup, lookup_empty.
    destruct (decide (k ∈ inheritedNames)) as [Hi|Hi].
    + rewrite decide_True by (right; by split). reflexivity.
    + rewrite decide_False by (intros [?|[_ ?]]; done). reflexivity.
  - rewrite lookup_empty. rewrite decide_False by (intros [?|[? _]]; done). reflexivity.
Qed.

(** X2.  The output is the header followed by the text of each
    interface in the order of the protocol, every text made with the
    registry of the first pass; generation writes nothing to the log. *)
Theorem output_in_declaration_order (source : string) (protocol : Protocol) :
  fileBuffer (generate source protocol)
  = header source
    +:+ String.concat ""
          (map (interface_text (wlNames (generate source protocol)))
               (Protocol_Interfaces protocol))
  /\ logged (generate source protocol) = [].
Proof. rewrite generate_pure. by cbn. Qed.

(** X3.  A request argument that refers to an interface of the protocol
    resolves to that interface's canonical name, wherever the two
    interfaces stand in the protocol; the method is in the output. *)
Theorem forward_reference_resolves (source : string) (protocol : Protocol)
    (A B : Interface) (k : nat) (r : Request) (before after : list Arg) (arg : Arg) :
  A ∈ Protocol_Interfaces protocol ->
  B ∈ Protocol_Interfaces protocol ->
  Interface_Requests A !! k = Some r ->
  Request_Args r = before ++ arg :: after ->
  Arg_Type arg = "object" ->
  Arg_Interface arg = Interface_Name B ->
  Interface_Name B <> "" ->
  let names := wlNames (generate source protocol) in
  let g := GoRequest_of names (CamelCase (Interface_Name A)) k r in
  GoRequest_Params g
  = Join (flat_map (arg_params names) before
          ++ [Arg_Name arg +:+ " *" +:+ CamelCase (Interface_Name B)]
          ++ flat_map (arg_params names) after) ","
  /\ exists pre post : string,
       fileBuffer (generate source protocol) = pre +:+ requestTemplate g +:+ post.
Proof.
  intros HA HB Hk Hargs Htype Hiface Hne. cbn zeta.
  set (names := wlNames (generate source protocol)).
  assert (Hreg : forall I, I ∈ Protocol_Interfaces protocol ->
                   map_index names (Interface_Name I) = CamelCase (Interface_Name I)).
  { intros I HI. unfold map_index, names. rewrite registry_lookup_declared; [done|].
    apply list_elem_of_fmap. by exists I. }
  split.
  - destruct (GoRequest_of_shape names (CamelCase (Interface_Name A)) k r) as (HP & _).
    cbn zeta in HP. rewrite HP, Hargs, flat_map_app. cbn [flat_map].
    unfold arg_params at 2.
    rewrite decide_False by (rewrite Htype; discriminate).
    rewrite decide_True by (split; [exact Htype|by rewrite Hiface]).
    by rewrite Hiface, (Hreg B HB).
  - destruct (output_text_split source protocol A HA) as (pre1 & post1 & Hout).
    fold names in Hout. rewrite Hout. unfold interface_text, requests_text.
    assert (Hk' : imap (fun k0 r0 => requestTemplate
                          (GoRequest_of names (map_index names (Interface_Name A)) k0 r0))
                       (Interface_Requests A) !! k
                  = Some (requestTemplate (GoRequest_of names (CamelCase (Interface_Name A)) k r))).
    { by rewrite list_lookup_imap, Hk, (Hreg A HA). }
    rewrite (concat_middle _ k _ Hk').
    set (reqs := imap _ (Interface_Requests A)).
    exists (pre1 +:+ events_text names A +:+ ifaceTypeTemplate (with_events names A)
            +:+ ifaceConstructorTemplate (with_events names A)
            +:+ String.concat "" (take k reqs)),
           (String.concat "" (drop (S k) reqs) +:+ enums_text names A +:+ post1).
    rewrite !append_assoc. reflexivity.
Qed.

Lemma forward_reference_resolves_witness :
  GoRequest_Params
    (GoRequest_of (wlNames (generate "wayland.xml" Forward.protocol)) "Seat" 0
       (Samples.mkRequest "set_focus"
          [Samples.mkArg "serial" "uint" ""; Samples.mkArg "pointer" "object" "wl_pointer"]))
  = "serial uint32,pointer *Pointer".
Proof.
  destruct (forward_reference_resolves "wayland.xml" Forward.protocol
              Forward.wl_seat Samples.wl_pointer 0
              (Samples.mkRequest "set_focus"
                 [Samples.mkArg "serial" "uint" "";
                  Samples.mkArg "pointer" "object" "wl_pointer"])
              [Samples.mkArg "serial" "uint" ""] []
              (Samples.mkArg "pointer" "object" "wl_pointer"))
    as [HP _].
  - unfold Forward.protocol. cbn [Protocol_Interfaces]. apply list_elem_of_here.
  - unfold Forward.protocol. cbn [Protocol_Interfaces].
    apply list_elem_of_further, list_elem_of_here.
  - reflexivity.
  - reflexivity.
  - reflexivity.
  - reflexivity.
  - discriminate.
  - exact HP.
Defined.

End RegistryProperties.

Section Registration.
Import WlScanner Pieces Shape.

Lemma register_list (l : list string) :
  forall w : World,
    fold_left (fun w n => (caseAndRegister n w).2) l w
    = set_wlNames (fold_left (fun m n => <[n := CamelCase n]> m) l (wlNames w)) w.
Proof.
  induction l as [|n l IH]; intros w; cbn [fold_left].
  - by destruct w.
  - rewrite IH. reflexivity.
Qed.

(** X4.  Registering is idempotent and its order does not matter: two
    lists with the same names, in any order and with any repetitions,
    leave the same registry; and every lookup that succeeds afterwards
    yields the canonical form of its key or what was there before. *)
Theorem registration_order_irrelevant (l l' : list string) (w : World) :
  (forall k : string, k ∈ l <-> k ∈ l') ->
  fold_left (fun w n => (caseAndRegister n w).2) l w
  = fold_left (fun w n => (caseAndRegister n w).2) l' w
  /\ (forall n : string, caseAndRegister n (caseAndRegister n w).2 = caseAndRegister n w)
  /\ (forall k : string,
         wlNames (fold_left (fun w n => (caseAndRegister n w).2) l w) !! k
         = if decide (k ∈ l) then Some (CamelCase k) else wlNames w !! k).
Proof.
  intros Hsame. rewrite !register_list. split; [|split].
  - f_equal. apply map_eq. intros k. rewrite !register_names_lookup.
    destruct (decide (k ∈ l)) as [Hin|Hout].
    + by rewrite decide_True by (by apply Hsame).
    + by rewrite decide_False by (by rewrite <-Hsame).
  - intros n. unfold caseAndRegister, set_wlNames. cbn [snd wlNames fileBuffer logged].
    by rewrite insert_insert_eq.
  - intros k. cbn [set_wlNames wlNames]. apply register_names_lookup.
Qed.

Lemma registration_order_irrelevant_witness :
  fold_left (fun w n => (caseAndRegister n w).2) ["wl_seat"; "wl_pointer"; "wl_seat"]
            Samples.world0
  = fold_left (fun w n => (caseAndRegister n w).2) ["wl_pointer"; "wl_seat"]
              Samples.world0.
Proof.
  apply (registration_order_irrelevant
           ["wl_seat"; "wl_pointer"; "wl_seat"] ["wl_pointer"; "wl_seat"] Samples.world0).
  intros k. rewrite !elem_of_cons, !elem_of_nil. tauto.
Defined.

(** X5.  An event argument never fails to get a decode call: a basic
    wire type gets the Go type and the decode call of the two tables, an
    object or new-object with an interface the registered pointer type
    with a checked [Proxy] call, anything else a bare [Proxy]; the world
    is left as it was, so the warning of line 354 is never logged. *)
Theorem event_arg_classification (a : Arg) (w : World) :
  (event_arg a w).2 = w
  /\ GoArg_BufMethod (event_arg a w).1 <> ""
  /\ (forall t : string,
         wlTypes !! Arg_Type a = Some t ->
         GoArg_Type (event_arg a w).1 = t
         /\ bufTypesMap !! t = Some (GoArg_BufMethod (event_arg a w).1))
  /\ (wlTypes !! Arg_Type a = None ->
      if decide ((Arg_Type a = "object" \/ Arg_Type a = "new_id") /\ Arg_Interface a <> "")
      then GoArg_Type (event_arg a w).1 = "*" +:+ map_index (wlNames w) (Arg_Interface a)
           /\ GoArg_BufMethod (event_arg a w).1
              = "Proxy(p.Context()).(*" +:+ map_index (wlNames w) (Arg_Interface a) +:+ ")"
      else GoArg_Type (event_arg a w).1 = "Proxy"
           /\ GoArg_BufMethod (event_arg a w).1 = "Proxy(p.Context())").
Proof.
  split; [by rewrite event_arg_pure|].
  unfold event_arg.
  destruct (wlTypes !! Arg_Type a) as [t|] eqn:Ht.
  - destruct (bufTypesMap_covers _ _ Ht) as (m & Hm & Hne). rewrite Hm.
    cbn [fst GoArg_Type GoArg_BufMethod]. split; [exact Hne|]. split.
    + intros t' [= <-]. by split.
    + discriminate.
  - split; [|split; [discriminate|]].
    + case_decide; cbn [fst GoArg_BufMethod]; discriminate.
    + intros _. case_decide; cbn [fst GoArg_Type GoArg_BufMethod]; by split.
Qed.

(** X6.  In a request, an argument whose wire type is neither in
    [wlTypes] nor a new-object nor an object with an interface (an
    [object] without interface, say) becomes a parameter with an empty
    type: the table is read without a check. *)
Theorem request_param_unknown_type (names : gmap string string) (ifaceName : string)
    (order : nat) (req : Request) (before after : list Arg) (arg : Arg) :
  Request_Args req = before ++ arg :: after ->
  wlTypes !! Arg_Type arg = None ->
  Arg_Type arg <> "new_id" ->
  ~ (Arg_Type arg = "object" /\ Arg_Interface arg <> "") ->
  GoRequest_Params (GoRequest_of names ifaceName order req)
  = Join (flat_map (arg_params names) before
          ++ [Arg_Name arg +:+ " "]
          ++ flat_map (arg_params names) after) ",".
Proof.
  intros Hargs Htab Hnew Hobj.
  destruct (GoRequest_of_shape names ifaceName order req) as (HP & _).
  cbn zeta in HP. rewrite HP, Hargs, flat_map_app. cbn [flat_map].
  unfold arg_params at 2.
  rewrite decide_False by exact Hnew. rewrite decide_False by exact Hobj.
  unfold map_index. rewrite Htab. cbn [default]. reflexivity.
Qed.

Lemma request_param_unknown_type_witness :
  GoRequest_Params
    (GoRequest_of ∅ "DataDevice" 0
       (Samples.mkRequest "set" [Samples.mkArg "source" "object" ""]))
  = "source ".
Proof.
  apply (request_param_unknown_type ∅ "DataDevice" 0
           (Samples.mkRequest "set" [Samples.mkArg "source" "object" ""])
           [] [] (Samples.mkArg "source" "object" "")).
  - reflexivity.
  - vm_compute. reflexivity.
  - discriminate.
  - intros [_ Hne]. by apply Hne.
Defined.

End Registration.

(** ** Comment text *)

Section Reflow.
Import WlScanner Aux.

Lemma count_byte_app (s t : string) (c : ascii) :
  count_byte (s +:+ t) c = count_byte s c + count_byte t c.
Proof.
  induction s as [|a s IH]; [reflexivity|].
  rewrite append_cons. cbn [count_byte]. rewrite IH. lia.
Qed.

(** No part of a split holds the separator. *)
Lemma Split_parts_no_sep (s : string) (c : ascii) :
  Forall (fun p => count_byte p c = 0) (Split s c).
Proof.
  induction s as [|a s IH]; cbn [Split].
  - by repeat constructor.
  - destruct (byte_eqb a c) eqn:Hac.
    + by constructor.
    + destruct (Split s c) as [|p ps]; [by repeat constructor; cbn; rewrite Hac|].
      apply Forall_cons in IH as [Hp Hps]. constructor; [|done].
      cbn [count_byte]. by rewrite Hac, Hp.
Qed.

(** A string without the separator, followed by it, is the first part. *)
Lemma Split_app_sep (s t : string) (c : ascii) :
  count_byte s c = 0 -> Split (s +:+ String c t) c = s :: Split t c.
Proof.
  induction s as [|a s IH]; intros Hs.
  - rewrite append_empty_l. cbn [Split]. unfold byte_eqb.
    by rewrite Ascii.eqb_refl.
  - cbn [count_byte] in Hs. destruct (byte_eqb a c) eqn:Hac; [lia|].
    rewrite append_cons. cbn [Split]. rewrite Hac, IH by lia. reflexivity.
Qed.

Lemma trim_left_no_byte (s : string) (c : ascii) :
  count_byte s c = 0 -> count_byte (trim_left s) c = 0.
Proof.
  induction s as [|a s IH]; intros Hs; [done|].
  cbn [trim_left]. destruct (is_space a); [|done].
  apply IH. cbn [count_byte] in Hs. lia.
Qed.

Lemma trim_right_no_byte (s : string) (c : ascii) :
  count_byte s c = 0 -> count_byte (trim_right s) c = 0.
Proof.
  induction s as [|a s IH]; intros Hs; [done|].
  cbn [count_byte] in Hs. cbn [trim_right].
  destruct (byte_eqb a c) eqn:Hac; [lia|].
  specialize (IH ltac:(lia)).
  destruct (trim_right s) as [|b t].
  - destruct (is_space a); cbn [count_byte]; [done|]. by rewrite Hac.
  - cbn [count_byte] in *. rewrite Hac. lia.
Qed.

Lemma reflow_concat (text : string) :
  reflow text
  = String.concat ""
      (map (fun line => "// " +:+ TrimSpace line +:+ nl) (Split text (ascii_of_nat 10))).
Proof.
  unfold reflow.
  assert (Hfold : forall (l : list string) (acc : string),
             fold_left (fun ret line => ret +:+ "// " +:+ TrimSpace line +:+ nl) l acc
             = acc +:+ String.concat ""
                         (map (fun line => "// " +:+ TrimSpace line +:+ nl) l)).
  { induction l as [|x l IH]; intros acc; cbn [fold_left map].
    - by rewrite append_empty_r.
    - rewrite IH, concat_cons, !append_assoc. reflexivity. }
  by rewrite Hfold, append_empty_l.
Qed.

(** X7.  [reflow] turns a text of n lines into n comment lines: each
    line of its result starts with [// ] and holds one line of the text
    without the white space around it; the result ends with a newline,
    so the text cannot reach beyond the comment. *)
Theorem reflow_comment_lines (text : string) :
  Split (reflow text) (ascii_of_nat 10)
  = map (fun line => "// " +:+ TrimSpace line) (Split text (ascii_of_nat 10)) ++ [""].
Proof.
  rewrite reflow_concat.
  pose proof (Split_parts_no_sep text (ascii_of_nat 10)) as Hparts.
  induction Hparts as [|line l Hline Hl IH]; [reflexivity|].
  cbn [map]. rewrite concat_cons, !append_assoc.
  change (nl +:+ String.concat "" (map (fun line0 => "// " +:+ TrimSpace line0 +:+ nl) l))
    with (String (ascii_of_nat 10)
                 (String.concat "" (map (fun line0 => "// " +:+ TrimSpace line0 +:+ nl) l))).
  rewrite <-append_assoc, Split_app_sep, IH; [reflexivity|].
  rewrite count_byte_app. unfold TrimSpace.
  rewrite trim_right_no_byte by (by apply trim_left_no_byte). reflexivity.
Qed.

End Reflow.

(** ** Canonical names hold no separator *)

Section NoSeparator.
Import Aux.

Lemma Replace_removes (s : string) (c : ascii) :
  count_byte (Replace s c "") c = 0.
Proof.
  induction s as [|a s IH]; [reflexivity|].
  cbn [Replace]. destruct (byte_eqb a c) eqn:Hac.
  - by rewrite append_empty_l.
  - rewrite append_cons, append_empty_l. cbn [count_byte]. by rewrite Hac, IH.
Qed.

Lemma Replace_removes_keeps (s : string) (c d : ascii) :
  count_byte s d = 0 -> count_byte (Replace s c "") d = 0.
Proof.
  induction s as [|a s IH]; intros Hs; [reflexivity|].
  cbn [count_byte] in Hs. destruct (byte_eqb a d) eqn:Had; [lia|].
  cbn [Replace]. destruct (byte_eqb a c).
  - rewrite append_empty_l. apply IH. lia.
  - rewrite append_cons, append_empty_l. cbn [count_byte]. rewrite Had, IH; lia.
Qed.

Lemma Replace_to_space (s : string) :
  count_byte (Replace s "_" " ") "_" = 0.
Proof.
  induction s as [|a s IH]; [reflexivity|].
  cbn [Replace]. destruct (byte_eqb a "_") eqn:Ha.
  - rewrite append_cons, append_empty_l. cbn [count_byte]. by rewrite IH.
  - rewrite append_cons, append_empty_l. cbn [count_byte]. by rewrite Ha, IH.
Qed.

Lemma ToTitle_not_underscore (r : ascii) :
  byte_eqb r "_" = false -> byte_eqb (ToTitle r) "_" = false.
Proof.
  destruct r as [[] [] [] [] [] [] [] []]; intros H; vm_compute in H |- *;
    first [reflexivity|discriminate].
Qed.

Lemma Title_from_no_underscore (s : string) :
  forall prev : ascii,
    count_byte s "_" = 0 -> count_byte (Title_from prev s) "_" = 0.
Proof.
  induction s as [|r s IH]; intros prev Hs; [reflexivity|].
  cbn [count_byte] in Hs. destruct (byte_eqb r "_") eqn:Hr; [lia|].
  cbn [Title_from count_byte].
  assert (Hc : byte_eqb (if isSeparator prev then ToTitle r else r) "_" = false).
  { destruct (isSeparator prev); [by apply ToTitle_not_underscore|done]. }
  rewrite Hc, IH; lia.
Qed.

Lemma Title_from_no_space (s : string) :
  forall prev : ascii,
    count_byte s " " = 0 -> count_byte (Title_from prev s) " " = 0.
Proof.
  induction s as [|r s IH]; intros prev Hs; [reflexivity|].
  cbn [count_byte] in Hs. destruct (byte_eqb r " ") eqn:Hr; [lia|].
  cbn [Title_from count_byte].
  assert (Hc : byte_eqb (if isSeparator prev then ToTitle r else r) " " = false).
  { destruct (isSeparator prev); [by apply ToTitle_not_space|done]. }
  rewrite Hc, IH; lia.
Qed.

(** The parts of a split hold no byte that the string does not hold. *)
Lemma Split_parts_no_byte (s : string) (c d : ascii) :
  count_byte s d = 0 -> Forall (fun p => count_byte p d = 0) (Split s c).
Proof.
  induction s as [|a s IH]; intros Hs; cbn [Split].
  - by repeat constructor.
  - cbn [count_byte] in Hs. destruct (byte_eqb a d) eqn:Had; [lia|].
    specialize (IH ltac:(lia)).
    destruct (byte_eqb a c).
    + by constructor.
    + destruct (Split s c) as [|p ps]; [by repeat constructor; cbn; rewrite Had|].
      apply Forall_cons in IH as [Hp Hps]. constructor; [|done].
      cbn [count_byte]. by rewrite Had, Hp.
Qed.

Lemma concat_no_byte (l : list string) (d : ascii) :
  Forall (fun p => count_byte p d = 0) l -> count_byte (String.concat "" l) d = 0.
Proof.
  induction 1 as [|p l Hp Hl IH]; [reflexivity|].
  by rewrite concat_cons, count_byte_app, Hp, IH.
Qed.

(** X8.  A canonical name, PascalCase or camelCase, holds neither an
    underscore nor a space, whatever the native name. *)
Theorem canonical_name_no_separator (n : string) :
  count_byte (CamelCase n) "_" = 0 /\ count_byte (CamelCase n) " " = 0
  /\ count_byte (snakeCase n) "_" = 0 /\ count_byte (snakeCase n) " " = 0.
Proof.
  split; [|split].
  - unfold CamelCase, Title. apply Replace_removes_keeps, Title_from_no_underscore.
    apply Replace_to_space.
  - unfold CamelCase. apply Replace_removes.
  - destruct (casing_by_words n) as [_ Hsnake]. rewrite Hsnake. unfold name_words.
    set (s := Replace _ "_" " ").
    pose proof (Split_parts_no_byte s " " "_" (Replace_to_space _)) as Hu.
    pose proof (Split_parts_no_sep s " ") as Hsp.
    destruct (Split s " ") as [|p ps]; [done|].
    apply Forall_cons in Hu as [Hpu Hpsu]. apply Forall_cons in Hsp as [Hps Hpss].
    rewrite !count_byte_app, Hpu, Hps. split.
    + rewrite concat_no_byte; [done|]. apply Forall_fmap.
      eapply Forall_impl; [exact Hpsu|]. intros x Hx. by apply Title_from_no_underscore.
    + rewrite concat_no_byte; [done|]. apply Forall_fmap.
      eapply Forall_impl; [exact Hpss|]. intros x Hx. by apply Title_from_no_space.
Qed.

End NoSeparator.

(** ** What a run touches *)

Section RunFrame.
Import WlScanner.


End RunFrame.

(** ** Handlers that are removed *)

Section RemoveHandlers.
Import WlScanner Generated.

Lemma remove_first_absent (h : Handler) (l : list Handler) :
  h ∉ l -> remove_first h l = l.
Proof.
  induction l as [|e l IH]; intros Hl; [reflexivity|].
  apply not_elem_of_cons in Hl as [Hne Hl]. cbn [remove_first].
  rewrite decide_False by (intros ->; done). by rewrite IH.
Qed.

Lemma remove_first_middle (h : Handler) (l1 l2 : list Handler) :
  h ∉ l1 -> remove_first h (l1 ++ h :: l2) = l1 ++ l2.
Proof.
  induction l1 as [|e l1 IH]; intros Hl; cbn [app remove_first].
  - by rewrite decide_True.
  - apply not_elem_of_cons in Hl as [Hne Hl].
    rewrite decide_False by (intros ->; done). by rewrite IH.
Qed.

Lemma Handlers_Remove_same (ev : GoEvent) (h : Handler) (p : Instance) :
  Handlers (RemoveHandler ev h p) ev = remove_first h (Handlers p ev).
Proof.
  unfold RemoveHandler, Handlers.
  destruct (p !! GoEvent_PName ev) as [l|] eqn:Hl.
  - by rewrite lookup_insert_eq.
  - by rewrite Hl.
Qed.



Context {Buffer Value : Type} (decode : string -> Buffer -> Value * Buffer).


End RemoveHandlers.


(** ** Parameters and wire arguments, once more *)

Section Agreement.
Import WlScanner Shape Aux.

(** X12.  A request in which no typed new-object argument follows the
    first argument sends the wire values of its arguments in declaration
    order. *)
Theorem send_args_declaration_order (names : gmap string string) (ifaceName : string)
    (order : nat) (req : Request) :
  Forall (fun a => ~ typed_new_id a) (tail (Request_Args req)) ->
  GoRequest_Args (GoRequest_of names ifaceName order req)
  = String.concat "" (map (fun x => "," +:+ x) (flat_map arg_send (Request_Args req)))
  /\ exists head : string,
       requestTemplate (GoRequest_of names ifaceName order req)
       = head +:+ "p.Context().sendRequest(p," +:+ Itoa order
         +:+ String.concat "" (map (fun x => "," +:+ x)
                                   (flat_map arg_send (Request_Args req)))
         +:+ ")" +:+ nl +:+ "}" +:+ nl.
Proof.
  intros Htail. pose proof (send_args_in_order names ifaceName order req Htail) as Hargs.
  split; [exact Hargs|].
  destruct (requestTemplate_call (GoRequest_of names ifaceName order req)) as [head Hcall].
  exists head. by rewrite Hcall, Hargs.
Qed.

Lemma send_args_declaration_order_witness :
  GoRequest_Args
    (GoRequest_of (wlNames Samples.world0) "Shell" 0
       (Samples.mkRequest "get_shell_surface"
          [Samples.mkArg "id" "new_id" "wl_surface";
           Samples.mkArg "surface" "object" "wl_surface"]))
  = ",Proxy(ret),surface".
Proof.
  apply (send_args_declaration_order (wlNames Samples.world0) "Shell" 0
           (Samples.mkRequest "get_shell_surface"
              [Samples.mkArg "id" "new_id" "wl_surface";
               Samples.mkArg "surface" "object" "wl_surface"])).
  cbn [tail Request_Args Samples.mkRequest]. constructor; [|constructor].
  intros [Hnew _]. discriminate.
Defined.

Lemma Legacy_requestArgs_loop_Ok (names : gmap string string) (ifaceName : string)
    (l : list Arg) :
  forall acc : list string,
    Forall (fun a => ~ (Arg_Type a = "uint" /\ Arg_Enum a <> "")) l ->
    Legacy.requestArgs_loop names ifaceName l acc
    = Ok (acc ++ flat_map (arg_params names) l).
Proof.
  induction l as [|a l IH]; intros acc Hall; cbn [Legacy.requestArgs_loop flat_map].
  - by rewrite app_nil_r.
  - apply Forall_cons in Hall as [Ha Hl].
    assert (Harg : Legacy.requestArg names ifaceName a = Ok (arg_params names a)).
    { unfold Legacy.requestArg, arg_params.
      destruct (decide (Arg_Type a = "new_id")).
      - destruct (decide (Arg_Interface a = "")) as [He|He].
        + by rewrite decide_False by (intros Hne; by apply Hne).
        + by rewrite decide_True.
      - destruct (decide (Arg_Type a = "object" /\ Arg_Interface a <> "")); [done|].
        by rewrite decide_False. }
    rewrite Harg, IH by done. by rewrite <-app_assoc.
Qed.

(** X13.  For a request without enum-typed arguments the older generator
    never fails and prints the parameter list that wl-scanner prints. *)
Theorem generators_agree_on_parameters (names : gmap string string)
    (ifaceName : string) (order : nat) (req : Request) :
  Forall (fun a => ~ (Arg_Type a = "uint" /\ Arg_Enum a <> "")) (Request_Args req) ->
  Legacy.requestArgs names ifaceName req
  = Ok (GoRequest_Params (GoRequest_of names ifaceName order req)).
Proof.
  intros Hall. unfold Legacy.requestArgs. rewrite Legacy_requestArgs_loop_Ok by done.
  destruct (GoRequest_of_shape names ifaceName order req) as (HP & _).
  cbn zeta in HP. by rewrite HP.
Qed.

Lemma generators_agree_on_parameters_witness :
  Legacy.requestArgs (wlNames Samples.world0) "Registry" Samples2.bind
  = Ok "name uint32,iface string,version uint32,id Proxy".
Proof.
  rewrite (generators_agree_on_parameters (wlNames Samples.world0) "Registry" 0
             Samples2.bind).
  - vm_compute. reflexivity.
  - repeat constructor; intros [_ Hne]; by apply Hne.
Defined.

(** X14.  [enumArgName] ends the run exactly for a reference with two or
    more dots; a reference without a dot names an enum of the owning
    interface. *)
Theorem enumArgName_fatal_iff (ifaceName enumName : string) :
  ((exists msg : string, Legacy.enumArgName ifaceName enumName = Fatal msg)
   <-> 2 <= count_byte enumName ".")
  /\ (count_byte enumName "." = 0 ->
      Legacy.enumArgName ifaceName enumName = Ok (ifaceName +:+ CamelCase enumName)).
Proof.
  unfold Legacy.enumArgName.
  pose proof (Index_none enumName ".") as Hidx.
  pose proof (Split_length enumName ".") as Hlen.
  destruct (decide (Index enumName "." = (-1)%Z)) as [Hno|Hdot].
  - apply Hidx in Hno. split; [|done]. split; [intros [msg Hmsg]; discriminate|lia].
  - assert (Hpos : count_byte enumName "." <> 0) by (intros H0; by apply Hdot, Hidx).
    split; [|lia].
    destruct (decide (length (Split enumName ".") <> 2)) as [Hlen2|Hlen2].
    + split; [lia|eauto].
    + split; [intros [msg Hmsg]; discriminate|lia].
Qed.

End Agreement.

(** ** The older generator: when it fails *)

Section LegacyFailure.
Import Legacy LegacyMain Aux Rejects.

Lemma enumArgName_fatal_dots (ifaceName enumName : string) :
  (exists msg : string, enumArgName ifaceName enumName = Fatal msg)
  <-> 2 <= count_byte enumName ".".
Proof.
  unfold enumArgName.
  pose proof (Index_none enumName ".") as Hidx.
  pose proof (Split_length enumName ".") as Hlen.
  destruct (decide (Index enumName "." = (-1)%Z)) as [Hno|Hdot].
  - apply Hidx in Hno. split; [intros [msg Hmsg]; discriminate|lia].
  - assert (Hpos : count_byte enumName "." <> 0) by (intros H0; by apply Hdot, Hidx).
    destruct (decide (length (Split enumName ".") <> 2)) as [Hlen2|Hlen2].
    + split; [lia|eauto].
    + split; [intros [msg Hmsg]; discriminate|lia].
Qed.

Lemma requestArg_fatal_iff (names : gmap string string) (ifaceName : string) (arg : Arg) :
  (exists msg : string, requestArg names ifaceName arg = Fatal msg) <-> bad_enum_arg arg.
Proof.
  unfold requestArg, bad_enum_arg.
  destruct (decide (Arg_Type arg = "new_id")) as [Hnew|Hnew].
  { split.
    - destruct (decide (Arg_Interface arg = "")); intros [msg Hmsg]; discriminate.
    - intros [Hu _]. rewrite Hu in Hnew. discriminate. }
  destruct (decide (Arg_Type arg = "object" /\ Arg_Interface arg <> "")) as [Hobj|Hobj].
  { split; [intros [msg Hmsg]; discriminate|].
    intros [Hu _]. destruct Hobj as [Ho _]. rewrite Hu in Ho. discriminate. }
  destruct (decide (Arg_Type arg = "uint" /\ Arg_Enum arg <> "")) as [[Hu He]|Henum].
  - destruct (enumArgName_fatal_dots ifaceName (Arg_Enum arg)) as [H1 H2].
    destruct (enumArgName ifaceName (Arg_Enum arg)) as [t|msg] eqn:Hname.
    + split; [intros [m Hm]; discriminate|].
      intros [_ Hdots]. destruct (H2 Hdots) as [m Hm]. discriminate.
    + split; [intros _; split; [done|]; apply H1; eauto|eauto].
  - split; [intros [m Hm]; discriminate|].
    intros [Hu Hdots]. exfalso. apply Henum. split; [done|].
    intros He. rewrite He in Hdots. cbn in Hdots. lia.
Qed.

Lemma requestArgs_loop_fatal_iff (names : gmap string string) (ifaceName : string)
    (l : list Arg) :
  forall acc : list string,
    (exists msg : string, requestArgs_loop names ifaceName l acc = Fatal msg)
    <-> Exists bad_enum_arg l.
Proof.
  induction l as [|a l IH]; intros acc; cbn [requestArgs_loop].
  - split; [intros [m Hm]; discriminate|intros H; inversion H].
  - rewrite Exists_cons, <-(requestArg_fatal_iff names ifaceName a).
    destruct (requestArg names ifaceName a) as [new|msg].
    + rewrite IH. split; [by right|].
      intros [[m Hm]|H]; [discriminate|done].
    + split; eauto.
Qed.

Lemma requestArgs_fatal_iff (names : gmap string string) (ifaceName : string)
    (req : Request) :
  (exists msg : string, requestArgs names ifaceName req = Fatal msg) <-> bad_request req.
Proof.
  unfold requestArgs, bad_request.
  rewrite <-(requestArgs_loop_fatal_iff names ifaceName (Request_Args req) []).
  destruct (requestArgs_loop names ifaceName (Request_Args req) []).
  - split; intros [m Hm]; discriminate.
  - split; eauto.
Qed.

Lemma interfaceRequests_loop_fatal_iff (ifaceName : string) (reqs : list Request) :
  forall (order : nat) (st : State),
    (exists msg : string, interfaceRequests_loop ifaceName order reqs st = Fatal msg)
    <-> Exists bad_request reqs.
Proof.
  induction reqs as [|req reqs IH]; intros order st; cbn [interfaceRequests_loop].
  - split; [intros [m Hm]; discriminate|intros H; inversion H].
  - cbv zeta. rewrite Exists_cons.
    set (st1 := to_ifaceBuffer _ (to_reqCodesBuffer _ st)).
    rewrite <-(requestArgs_fatal_iff (names st1) ifaceName req).
    destruct (requestArgs (names st1) ifaceName req) as [args|msg].
    + rewrite IH. split; [by right|].
      intros [[m Hm]|H]; [discriminate|done].
    + split; eauto.
Qed.

Lemma generate_interface_fatal_iff (iface : Interface) (st : State) :
  (exists msg : string, generate_interface iface st = Fatal msg) <-> bad_interface iface.
Proof.
  unfold generate_interface, bad_interface.
  destruct (interfaceEvents iface st) as [[eventBuffer eventNames] st1].
  set (st2 := interfaceConstructor _ _ _).
  unfold interfaceRequests.
  rewrite <-(interfaceRequests_loop_fatal_iff
               (map_index (names st2) (Interface_Name iface))
               (Interface_Requests iface) 0 st2).
  destruct (interfaceRequests_loop _ 0 (Interface_Requests iface) st2).
  - split; intros [m Hm]; discriminate.
  - split; eauto.
Qed.

Lemma generate_interfaces_fatal_iff (ifaces : list Interface) :
  forall st : State,
    (exists msg : string, generate_interfaces ifaces st = Fatal msg)
    <-> Exists bad_interface ifaces.
Proof.
  induction ifaces as [|iface ifaces IH]; intros st; cbn [generate_interfaces].
  - split; [intros [m Hm]; discriminate|intros H; inversion H].
  - rewrite Exists_cons, <-(generate_interface_fatal_iff iface st).
    destruct (generate_interface iface st) as [st'|msg].
    + rewrite IH. split; [by right|].
      intros [[m Hm]|H]; [discriminate|done].
    + split; eauto.
Qed.

(** X15.  The older generator fails on a protocol exactly when some
    request has an unsigned argument whose enum-reference holds two dots
    or more; then the run ends with status 1 and no file is touched. *)
Theorem legacy_generation_fails_iff (env : Env) (overwrite : bool) (protocol : Protocol)
    (fs : gmap string string) :
  ((exists msg : string, generate protocol = Fatal msg)
   <-> Exists bad_interface (Protocol_Interfaces protocol))
  /\ (Exists bad_interface (Protocol_Interfaces protocol) ->
      exit_status (main_decoded env overwrite protocol fs) = 1
      /\ files (main_decoded env overwrite protocol fs) = fs).
Proof.
  assert (Hiff : (exists msg : string, generate protocol = Fatal msg)
                 <-> Exists bad_interface (Protocol_Interfaces protocol)).
  { unfold generate. cbv zeta.
    set (st := to_reqCodesBuffer _ (to_reqCodesBuffer _ _)).
    rewrite <-(generate_interfaces_fatal_iff (Protocol_Interfaces protocol) st).
    destruct (generate_interfaces (Protocol_Interfaces protocol) st).
    - split; intros [m Hm]; discriminate.
    - split; eauto. }
  split; [exact Hiff|].
  intros Hbad. apply Hiff in Hbad as [msg Hmsg].
  unfold main_decoded. by rewrite Hmsg.
Qed.

Lemma legacy_generation_fails_iff_witness :
  exit_status (main_decoded (Runs.env_with None) true (protocol_with "a.b.c") ∅) = 1
  /\ files (main_decoded (Runs.env_with None) true (protocol_with "a.b.c") ∅) = ∅.
Proof.
  apply (legacy_generation_fails_iff (Runs.env_with None) true (protocol_with "a.b.c") ∅).
  apply Exists_cons_hd. apply Exists_cons_hd. apply Exists_cons_hd.
  split; [reflexivity|]. vm_compute. lia.
Defined.

End LegacyFailure.

(** ** The older generator: request codes *)

Section LegacyRequestCodes.
Import Legacy LegacyMain Aux Rejects LegacyPieces Shape.

Lemma interfaceRequests_loop_Ok (ifaceName : string) (reqs : list Request) :
  forall (order : nat) (st : State),
    ~ Exists bad_request reqs ->
    exists (st' : State) (texts : list string),
      interfaceRequests_loop ifaceName order reqs st = Ok st'
      /\ names st' = names st
      /\ constBuffer st' = constBuffer st
      /\ reqCodesBuffer (world st')
         = reqCodesBuffer (world st)
           +:+ String.concat ""
                 (imap (fun k req => reqCodeName ifaceName (CamelCase (Request_Name req))
                                     +:+ " = " +:+ Itoa (order + k) +:+ nl) reqs)
      /\ ifaceBuffer (world st') = ifaceBuffer (world st) +:+ String.concat "" texts
      /\ (forall (k : nat) (req : Request),
             reqs !! k = Some req ->
             exists args : string,
               requestArgs (names st) ifaceName req = Ok args
               /\ texts !! k = Some (method_text (names st) ifaceName req args)).
Proof.
  induction reqs as [|req reqs IH]; intros order st Hgood.
  - exists st, []. cbn [interfaceRequests_loop imap].
    repeat split; try (by rewrite append_empty_r).
    intros k r Hk. discriminate.
  - cbn [interfaceRequests_loop]. cbv zeta.
    set (code := reqCodeName ifaceName (CamelCase (Request_Name req))).
    set (st1 := to_ifaceBuffer _ (to_reqCodesBuffer _ st)).
    assert (Hn1 : names st1 = names st) by reflexivity.
    destruct (requestArgs (names st1) ifaceName req) as [args|msg] eqn:Hargs.
    2:{ exfalso. apply Hgood. apply Exists_cons_hd.
        apply (requestArgs_fatal_iff (names st1) ifaceName req). eauto. }
    set (st2 := to_ifaceBuffer (nl +:+ "}" +:+ nl) _).
    destruct (IH (S order) st2) as (st' & texts & Hrun & Hnames & Hconst & Hcodes & Htext & Hk).
    { intros H. apply Hgood. by apply Exists_cons_tl. }
    exists st', (method_text (names st) ifaceName req args :: texts).
    split; [exact Hrun|]. split; [by rewrite Hnames|]. split; [by rewrite Hconst|].
    split; [|split].
    + rewrite Hcodes. cbn [imap]. rewrite concat_cons.
      assert (Hshift :
                imap ((fun k r => reqCodeName ifaceName (CamelCase (Request_Name r))
                                  +:+ " = " +:+ Itoa (order + k) +:+ nl) ∘ S) reqs
                = imap (fun k r => reqCodeName ifaceName (CamelCase (Request_Name r))
                                   +:+ " = " +:+ Itoa (S order + k) +:+ nl) reqs).
      { apply imap_ext. intros k r _. cbn.
        by replace (order + S k) with (S (order + k)) by lia. }
      rewrite Hshift, Nat.add_0_r.
      unfold st2, st1, to_ifaceBuffer, to_reqCodesBuffer.
      cbn [reqCodesBuffer world]. fold code.
      rewrite ?append_assoc. reflexivity.
    + rewrite Htext, concat_cons.
      unfold st2, st1, to_ifaceBuffer, to_reqCodesBuffer, names.
      cbn [ifaceBuffer world wlNames].
      unfold method_text, names. fold code.
      rewrite ?append_assoc. reflexivity.
    + intros [|k] r Hr.
      * injection Hr as <-. exists args. split; [by rewrite <-Hn1|reflexivity].
      * destruct (Hk k r Hr) as (a & Ha & Ht). exists a. split; [exact Ha|exact Ht].
Qed.

(** X16.  On an interface that the older generator accepts, the request
    at position [k] gets the request code constant with value [k], named
    after the interface and the request in upper case, and its method
    sends that constant followed by the wire values of its arguments in
    declaration order.  Nothing else of the state changes. *)
Theorem legacy_request_code_is_position (iface : Interface) (st : State) :
  ~ bad_interface iface ->
  let ifaceName := map_index (names st) (Interface_Name iface) in
  let code := fun req : Request => reqCodeName ifaceName (CamelCase (Request_Name req)) in
  exists st' : State,
    interfaceRequests iface st = Ok st'
    /\ names st' = names st
    /\ constBuffer st' = constBuffer st
    /\ reqCodesBuffer (world st')
       = reqCodesBuffer (world st)
         +:+ String.concat ""
               (imap (fun k req => code req +:+ " = " +:+ Itoa k +:+ nl)
                     (Interface_Requests iface))
    /\ (forall (k : nat) (req : Request),
           Interface_Requests iface !! k = Some req ->
           exists before head hasRet after : string,
             ifaceBuffer (world st')
             = before +:+ "func (p *" +:+ ifaceName +:+ ") "
               +:+ CamelCase (Request_Name req) +:+ "(" +:+ head
               +:+ "return " +:+ hasRet +:+ " p.Connection().SendRequest(p," +:+ code req
               +:+ String.concat ""
                     (map (fun x => "," +:+ x) (flat_map arg_send (Request_Args req)))
               +:+ ")" +:+ nl +:+ "}" +:+ nl +:+ after).
Proof.
  intros Hgood ifaceName code. unfold interfaceRequests. fold ifaceName.
  destruct (interfaceRequests_loop_Ok ifaceName (Interface_Requests iface) 0 st Hgood)
    as (st' & texts & Hrun & Hnames & Hconst & Hcodes & Htext & Hk).
  exists st'. split; [exact Hrun|]. split; [exact Hnames|]. split; [exact Hconst|].
  split; [exact Hcodes|].
  intros k req Hreq. destruct (Hk k req Hreq) as (args & Hargs & Ht).
  destruct (Legacy_send_args_in_order (names st) req (code req)) as (body & hasRet & Hbody).
  exists (ifaceBuffer (world st) +:+ String.concat "" (take k texts) +:+ nl),
         (args +:+ ")" +:+ requestRets (names st) req +:+ "{" +:+ nl +:+ body),
         hasRet, (String.concat "" (drop (S k) texts)).
  rewrite Htext, (concat_middle texts k _ Ht). unfold method_text. fold (code req).
  rewrite Hbody. rewrite ?append_assoc. reflexivity.
Qed.

End LegacyRequestCodes.

Lemma legacy_request_code_is_position_witness :
  exists st' : LegacyMain.State,
    LegacyMain.interfaceRequests (Rejects.pointer_with "axis")
      (LegacyPieces.registered_state (Rejects.protocol_with "axis")) = Ok st'
    /\ Legacy.reqCodesBuffer (LegacyMain.world st')
       = "_POINTER_SETAXIS = 0" +:+ nl +:+ "_POINTER_RELEASE = 1" +:+ nl.
Proof.
  destruct (legacy_request_code_is_position
              (Rejects.pointer_with "axis")
              (LegacyPieces.registered_state (Rejects.protocol_with "axis")))
    as (st' & Hrun & _ & _ & Hcodes & _).
  - apply (bool_decide_unpack _). vm_compute. exact I.
  - exists st'. split; [exact Hrun|]. rewrite Hcodes. vm_compute. reflexivity.
Defined.

(** ** The older generator: what a run writes *)

Section LegacyRunFrame.
Import Legacy LegacyMain.


End LegacyRunFrame.

(** ** The older generator: enum types *)

Section LegacyEnums.
Import Legacy LegacyMain Aux LegacyPieces.

Lemma Split_no_sep (s : string) (c : ascii) :
  count_byte s c = 0 -> Split s c = [s].
Proof.
  induction s as [|a s IH]; intros Hs; [reflexivity|].
  cbn [count_byte] in Hs. cbn [Split].
  destruct (byte_eqb a c); [lia|]. by rewrite IH by lia.
Qed.

Lemma enumEntries_loop_text (ifaceName enumName : string) (entries : list Entry) :
  forall st : State,
    constBuffer (enumEntries_loop ifaceName enumName (ifaceName +:+ enumName) entries st)
    = constBuffer st
      +:+ String.concat "" (map (entry_text (ifaceName +:+ enumName)) entries).
Proof.
  induction entries as [|entry entries IH]; intros st; cbn [enumEntries_loop map].
  - by rewrite append_empty_r.
  - unfold register, caseAndRegister. cbv zeta. rewrite IH, concat_cons.
    unfold to_constBuffer, entry_text. cbn [constBuffer].
    rewrite ?append_assoc. reflexivity.
Qed.

Lemma interfaceEnums_loop_text (ifaceName : string) (enums : list Enum) :
  forall st : State,
    constBuffer (interfaceEnums_loop ifaceName enums st)
    = constBuffer st +:+ String.concat "" (map (enum_text ifaceName) enums).
Proof.
  induction enums as [|enum enums IH]; intros st; cbn [interfaceEnums_loop map].
  - by rewrite append_empty_r.
  - unfold register, caseAndRegister. cbv zeta. rewrite IH, concat_cons.
    unfold to_constBuffer at 1. cbn [constBuffer].
    rewrite enumEntries_loop_text.
    unfold to_constBuffer, enum_text. cbn [constBuffer]. cbv zeta.
    rewrite ?append_assoc. reflexivity.
Qed.

(** X18.  The type an enum is declared with is the type its references
    name.  The enum at any position of an interface is declared as
    interface name and PascalCase enum name, with one constant of that
    type for each entry, its value as written in the protocol.  A
    reference by the bare enum name, from a request parameter or an
    event field of that interface, names this type; so does a request
    parameter of any interface that refers to it as
    [interface.enum]. *)
Theorem legacy_enum_reference_names_declared_type (ifaceName : string)
    (enums : list Enum) (st : State) (j : nat) (enum : Enum) :
  enums !! j = Some enum ->
  let T := ifaceName +:+ CamelCase (Enum_Name enum) in
  (exists before after : string,
      constBuffer (interfaceEnums_loop ifaceName enums st)
      = constBuffer st +:+ before
        +:+ nl +:+ "type " +:+ T +:+ " uint32" +:+ nl
        +:+ "const (" +:+ nl
        +:+ String.concat ""
              (map (fun entry => T +:+ CamelCase (Entry_Name entry) +:+ " " +:+ T
                                 +:+ " = " +:+ Entry_Value entry +:+ nl)
                   (Enum_Entries enum))
        +:+ ")" +:+ nl +:+ after)
  /\ (forall (names : gmap string string) (arg : Arg),
         Arg_Type arg = "uint" -> Arg_Enum arg = Enum_Name enum ->
         Enum_Name enum <> "" -> count_byte (Enum_Name enum) "." = 0 ->
         requestArg names ifaceName arg = Ok [Arg_Name arg +:+ " " +:+ T]
         /\ eventField names ifaceName arg
            = CamelCase (Arg_Name arg) +:+ " " +:+ T +:+ nl)
  /\ (forall (names : gmap string string) (other wlIface : string) (arg : Arg),
         Arg_Type arg = "uint" ->
         Arg_Enum arg = wlIface +:+ "." +:+ Enum_Name enum ->
         count_byte wlIface "." = 0 -> count_byte (Enum_Name enum) "." = 0 ->
         CamelCase wlIface = ifaceName ->
         requestArg names other arg = Ok [Arg_Name arg +:+ " " +:+ T]).
Proof.
  intros Hj T. split; [|split].
  - exists (String.concat "" (map (enum_text ifaceName) (take j enums))),
           (String.concat "" (map (enum_text ifaceName) (drop (S j) enums))).
    rewrite interfaceEnums_loop_text, (concat_lookup (enum_text ifaceName) enums j enum Hj).
    unfold enum_text. cbv zeta. fold T. unfold entry_text.
    rewrite ?append_assoc. reflexivity.
  - intros names arg Htype Href Hne Hdots.
    assert (Hidx : Index (Arg_Enum arg) "." = (-1)%Z) by (rewrite Href; by apply Index_none).
    split.
    + unfold requestArg.
      rewrite (decide_False (P := Arg_Type arg = "new_id")) by (by rewrite Htype).
      rewrite (decide_False (P := Arg_Type arg = "object" /\ Arg_Interface arg <> ""))
        by (intros [H _]; by rewrite Htype in H).
      rewrite (decide_True (P := Arg_Type arg = "uint" /\ Arg_Enum arg <> ""))
        by (by rewrite Href).
      unfold enumArgName. rewrite decide_True by exact Hidx. by rewrite Href.
    + unfold eventField. rewrite Htype.
      change (wlTypes !! "uint") with (Some "uint32").
      destruct (decide ("uint" = "uint" /\ Arg_Enum arg <> "")) as [_|Hno].
      * by rewrite Href.
      * exfalso. apply Hno. by rewrite Href.
  - intros names other wlIface arg Htype Href Hw He Hcamel.
    assert (Hsplit : Split (Arg_Enum arg) "." = [wlIface; Enum_Name enum]).
    { rewrite Href. change (wlIface +:+ "." +:+ Enum_Name enum)
        with (wlIface +:+ String "." (Enum_Name enum)).
      by rewrite Split_app_sep, Split_no_sep. }
    assert (Hidx : Index (Arg_Enum arg) "." <> (-1)%Z).
    { rewrite Index_none, Href.
      change (wlIface +:+ "." +:+ Enum_Name enum)
        with (wlIface +:+ String "." (Enum_Name enum)).
      rewrite count_byte_app. cbn [count_byte].
      change (byte_eqb "." ".") with true. cbv iota. lia. }
    assert (Hne : Arg_Enum arg <> "").
    { intros H. rewrite H in Hidx. by apply Hidx. }
    unfold requestArg.
    rewrite (decide_False (P := Arg_Type arg = "new_id")) by (by rewrite Htype).
    rewrite (decide_False (P := Arg_Type arg = "object" /\ Arg_Interface arg <> ""))
      by (intros [H _]; by rewrite Htype in H).
    rewrite (decide_True (P := Arg_Type arg = "uint" /\ Arg_Enum arg <> "")) by done.
    unfold enumArgName. rewrite decide_False by exact Hidx. rewrite Hsplit.
    rewrite decide_False by (cbn; lia).
    change ([wlIface; Enum_Name enum] !!! 0) with wlIface.
    change ([wlIface; Enum_Name enum] !!! 1) with (Enum_Name enum).
    by rewrite Hcamel.
Qed.

End LegacyEnums.

Lemma legacy_enum_reference_names_declared_type_witness :
  Legacy.requestArg ∅ "Pointer" (Samples.mkEnumArg "ax" "axis") = Ok ["ax PointerAxis"]
  /\ Legacy.requestArg ∅ "Seat" (Samples.mkEnumArg "ax" "wl_pointer.axis")
     = Ok ["ax PointerAxis"].
Proof.
  destruct (legacy_enum_reference_names_declared_type
              "Pointer" [Rejects.axis]
              (LegacyPieces.registered_state (Rejects.protocol_with "axis"))
              0 Rejects.axis eq_refl) as (_ & Hbare & Hqualified).
  split.
  - apply (Hbare ∅ (Samples.mkEnumArg "ax" "axis")); [reflexivity|reflexivity|done|reflexivity].
  - apply (Hqualified ∅ "Seat" "wl_pointer" (Samples.mkEnumArg "ax" "wl_pointer.axis"));
      reflexivity.
Defined.

(** ** Enum constants of the two generators *)

Section EnumConstants.
Import WlScanner Pieces.

(** X19.  For every entry of every enum of an interface, both generators
    print a constant with the same name (interface, enum and entry in
    PascalCase, joined) and with the value as the protocol writes it;
    the older one gives the constant the enum's type, this one leaves it
    untyped.  [ProcessEnums] registers nothing and logs nothing. *)
Theorem generators_agree_on_constants (i : GoInterface) (w : World)
    (st : LegacyMain.State) (j k : nat) (e : Enum) (en : Entry) :
  Interface_Enums (GoInterface_WlInterface i) !! j = Some e ->
  Enum_Entries e !! k = Some en ->
  let constName :=
    GoInterface_Name i +:+ CamelCase (Enum_Name e) +:+ CamelCase (Entry_Name en) in
  (exists before after : string,
      fileBuffer (ProcessEnums i w)
      = fileBuffer w +:+ before
        +:+ nl +:+ tab +:+ constName +:+ " = " +:+ Entry_Value en +:+ after)
  /\ (exists before after : string,
         LegacyMain.constBuffer
           (LegacyMain.interfaceEnums_loop (GoInterface_Name i)
              (Interface_Enums (GoInterface_WlInterface i)) st)
         = LegacyMain.constBuffer st +:+ before
           +:+ constName +:+ " " +:+ GoInterface_Name i +:+ CamelCase (Enum_Name e)
           +:+ " = " +:+ Entry_Value en +:+ nl +:+ after)
  /\ wlNames (ProcessEnums i w) = wlNames w
  /\ logged (ProcessEnums i w) = logged w.
Proof.
  intros Hj Hk constName. split; [|split].
  - rewrite ProcessEnums_pure. unfold emit. cbn [fileBuffer].
    rewrite (concat_lookup _ _ j e Hj).
    unfold ifaceEnums at 2. unfold enum_record at 2 3 4.
    cbn [GoEnum_Name GoEnum_IfaceName GoEnum_Entries].
    rewrite map_map.
    rewrite (concat_lookup _ (Enum_Entries e) k en Hk).
    cbn [GoEntry_Name GoEntry_Value].
    set (enums := Interface_Enums (GoInterface_WlInterface i)).
    set (f := fun e0 : Enum => ifaceEnums (enum_record (GoInterface_Name i) e0)).
    set (g := fun x : Entry =>
                nl +:+ tab +:+ GoInterface_Name i +:+ CamelCase (Enum_Name e)
                +:+ CamelCase (Entry_Name x) +:+ " = " +:+ Entry_Value x).
    exists (String.concat "" (map f (take j enums)) +:+ nl +:+ "const ("
            +:+ String.concat "" (map g (take k (Enum_Entries e)))),
           (String.concat "" (map g (drop (S k) (Enum_Entries e))) +:+ nl +:+ ")" +:+ nl
            +:+ String.concat "" (map f (drop (S j) enums))).
    unfold constName. rewrite ?append_assoc. reflexivity.
  - rewrite interfaceEnums_loop_text.
    rewrite (concat_lookup _ _ j e Hj).
    unfold LegacyPieces.enum_text at 2. cbv zeta.
    rewrite (concat_lookup _ (Enum_Entries e) k en Hk).
    unfold LegacyPieces.entry_text at 2.
    set (enums := Interface_Enums (GoInterface_WlInterface i)).
    set (T := GoInterface_Name i +:+ CamelCase (Enum_Name e)).
    exists (String.concat "" (map (LegacyPieces.enum_text (GoInterface_Name i))
                                  (take j enums))
            +:+ nl +:+ "type " +:+ T +:+ " uint32" +:+ nl +:+ "const (" +:+ nl
            +:+ String.concat "" (map (LegacyPieces.entry_text T)
                                      (take k (Enum_Entries e)))),
           (String.concat "" (map (LegacyPieces.entry_text T) (drop (S k) (Enum_Entries e)))
            +:+ ")" +:+ nl
            +:+ String.concat "" (map (LegacyPieces.enum_text (GoInterface_Name i))
                                      (drop (S j) enums))).
    unfold constName, T. rewrite ?append_assoc. reflexivity.
  - by rewrite ProcessEnums_pure.
Qed.

End EnumConstants.

Lemma generators_agree_on_constants_witness :
  exists before after : string,
    WlScanner.fileBuffer
      (WlScanner.ProcessEnums
         (WlScanner.new_GoInterface {["wl_pointer" := "Pointer"]} (Rejects.pointer_with "axis"))
         Samples.world0)
    = WlScanner.fileBuffer Samples.world0 +:+ before
      +:+ nl +:+ tab +:+ "PointerAxisHorizontalScroll = 0x1" +:+ after.
Proof.
  destruct (generators_agree_on_constants
              (WlScanner.new_GoInterface {["wl_pointer" := "Pointer"]}
                                         (Rejects.pointer_with "axis"))
              Samples.world0
              (LegacyPieces.registered_state (Rejects.protocol_with "axis"))
              0 1 Rejects.axis
              {| Entry_Name := "horizontal_scroll"; Entry_Value := "0x1";
                 Entry_Summary := EmptyString |} eq_refl eq_refl) as [H _].
  exact H.
Defined.

(** ** The older generator: events and their channels *)

Section LegacyEventChannels.
Import Legacy LegacyMain LegacyEvents.

Lemma eventField_fold (names : gmap string string) (ifaceName : string) (args : list Arg) :
  forall buf : string,
    fold_left (fun buf arg => buf +:+ eventField names ifaceName arg) args buf
    = buf +:+ String.concat "" (map (eventField names ifaceName) args).
Proof.
  induction args as [|arg args IH]; intros buf; cbn [fold_left map].
  - by rewrite append_empty_r.
  - by rewrite IH, concat_cons, append_assoc.
Qed.

Lemma to_ifaceBuffer_fold (g : string -> string) (l : list string) :
  forall st : State,
    fold_left (fun st x => to_ifaceBuffer (g x) st) l st
    = to_ifaceBuffer (String.concat "" (map g l)) st.
Proof.
  induction l as [|x l IH]; intros st; cbn [fold_left map].
  - unfold to_ifaceBuffer. cbn [String.concat]. rewrite append_empty_r.
    by destruct st as [[] ?].
  - rewrite IH, concat_cons. unfold to_ifaceBuffer. cbn [world ifaceBuffer wlNames
      reqCodesBuffer constBuffer]. by rewrite append_assoc.
Qed.

Lemma interfaceEvents_loop_spec (ifaceName : string) (events : list Event) :
  forall (eventBuffer : string) (eventNames : list string) (st : State),
    interfaceEvents_loop ifaceName events eventBuffer eventNames st
    = (eventBuffer
       +:+ String.concat ""
             (imap (fun j event =>
                      event_struct (register_events (take (S j) events) (names st))
                                   ifaceName event)
                   events),
       eventNames ++ map (fun event => CamelCase (Event_Name event)) events,
       {| world := {| wlNames := register_events events (names st);
                      ifaceBuffer := ifaceBuffer (world st);
                      reqCodesBuffer := reqCodesBuffer (world st) |};
          constBuffer := constBuffer st |}).
Proof.
  induction events as [|event events IH]; intros eventBuffer eventNames st.
  - cbn [interfaceEvents_loop imap map]. rewrite app_nil_r.
    cbn [String.concat]. rewrite append_empty_r.
    by destruct st as [[] ?].
  - cbn [interfaceEvents_loop]. unfold register, caseAndRegister. cbv zeta.
    rewrite eventField_fold, IH. unfold names. cbn [world wlNames ifaceBuffer
      reqCodesBuffer constBuffer].
    f_equal. f_equal.
    + cbn [imap]. rewrite concat_cons.
      assert (Hshift :
                imap ((fun j ev =>
                         event_struct
                           (register_events (take (S j) (event :: events))
                                            (wlNames (world st))) ifaceName ev) ∘ S) events
                = imap (fun j ev =>
                          event_struct
                            (register_events (take (S j) events)
                               (<[Event_Name event := CamelCase (Event_Name event)]>
                                  (wlNames (world st)))) ifaceName ev) events).
      { apply imap_ext. intros j ev _. reflexivity. }
      rewrite Hshift. unfold event_struct at 2.
      change (register_events (take 1 (event :: events)) (wlNames (world st)))
        with (<[Event_Name event := CamelCase (Event_Name event)]> (wlNames (world st))).
      rewrite ?append_assoc. reflexivity.
    + by rewrite <-app_assoc.
Qed.

(** X20.  The older generator declares the events of an interface in
    declaration order, and what it declares for an event fits together:
    the struct type is named interface, event in PascalCase, [Event];
    the interface's struct holds one channel of that type for each
    event and the constructor makes each of these channels.  Event
    names are registered as they are met, and a field of an event
    refers to the registry as it is then. *)
Theorem legacy_event_channels (iface : Interface) (st : State) :
  let ifaceName := map_index (names st) (Interface_Name iface) in
  let events := Interface_Events iface in
  let eventBuffer := (interfaceEvents iface st).1.1 in
  let eventNames := (interfaceEvents iface st).1.2 in
  let st1 := (interfaceEvents iface st).2 in
  let ifaceName1 := map_index (names st1) (Interface_Name iface) in
  eventNames = map (fun event => CamelCase (Event_Name event)) events
  /\ eventBuffer
     = String.concat ""
         (imap (fun j event =>
                  event_struct (register_events (take (S j) events) (names st))
                               ifaceName event) events)
  /\ names st1 = register_events events (names st)
  /\ ifaceBuffer (world st1) = ifaceBuffer (world st)
  /\ ifaceBuffer (world (interfaceTypes iface eventNames st1))
     = ifaceBuffer (world st)
       +:+ nl +:+ "type " +:+ ifaceName1 +:+ " struct {" +:+ nl
       +:+ "BaseProxy" +:+ nl
       +:+ String.concat ""
             (map (fun event => CamelCase (Event_Name event) +:+ "Chan chan " +:+ ifaceName1
                                +:+ CamelCase (Event_Name event) +:+ "Event" +:+ nl)
                  events)
       +:+ "}" +:+ nl
  /\ ifaceBuffer (world (interfaceConstructor iface eventNames st1))
     = ifaceBuffer (world st)
       +:+ nl +:+ "func New" +:+ ifaceName1 +:+ "(conn *Connection) *" +:+ ifaceName1
       +:+ " {" +:+ nl
       +:+ "ret := new(" +:+ ifaceName1 +:+ ")" +:+ nl
       +:+ String.concat ""
             (map (fun event => "ret." +:+ CamelCase (Event_Name event)
                                +:+ "Chan = make(chan " +:+ ifaceName1
                                +:+ CamelCase (Event_Name event) +:+ "Event)" +:+ nl)
                  events)
       +:+ "conn.Register(ret)" +:+ nl
       +:+ "return ret" +:+ nl
       +:+ "}" +:+ nl
  /\ (names st !! Interface_Name iface = Some (CamelCase (Interface_Name iface)) ->
      ifaceName1 = ifaceName).
Proof.
  cbv zeta. unfold interfaceEvents. rewrite interfaceEvents_loop_spec.
  cbn [fst snd]. rewrite append_empty_l. cbn [app].
  split; [reflexivity|]. split; [reflexivity|]. split; [reflexivity|].
  split; [reflexivity|].
  set (st1 := {| world := _; constBuffer := constBuffer st |}).
  split; [|split].
  - unfold interfaceTypes. cbv zeta. rewrite to_ifaceBuffer_fold.
    unfold to_ifaceBuffer. cbn [world ifaceBuffer]. rewrite map_map.
    rewrite ?append_assoc. reflexivity.
  - unfold interfaceConstructor. cbv zeta. rewrite to_ifaceBuffer_fold.
    unfold to_ifaceBuffer. cbn [world ifaceBuffer]. rewrite map_map.
    rewrite ?append_assoc. reflexivity.
  - intros Hreg. unfold map_index, names, st1. cbn [world wlNames].
    fold (names st). rewrite Hreg.
    assert (Hkeep : forall (evs : list Event) (m : gmap string string),
               m !! Interface_Name iface = Some (CamelCase (Interface_Name iface)) ->
               register_events evs m !! Interface_Name iface
               = Some (CamelCase (Interface_Name iface))).
    { induction evs as [|ev evs IH]; intros m Hm; [exact Hm|].
      cbn [register_events fold_left]. apply IH.
      destruct (decide (Event_Name ev = Interface_Name iface)) as [->|Hne].
      - by rewrite lookup_insert_eq.
      - by rewrite lookup_insert_ne. }
    by rewrite (Hkeep _ _ Hreg).
Qed.

End LegacyEventChannels.

(** ** The older generator: the blocks of the output *)

Section LegacyBlocks.
Import Legacy LegacyMain Rejects LegacyPieces LegacyEvents.

Lemma register_keeps (n : string) (st : State) (k : string) :
  names st !! k = Some (CamelCase k) ->
  names (register n st).2 !! k = Some (CamelCase k).
Proof.
  intros Hk. unfold register, caseAndRegister, names. cbn [snd world wlNames].
  destruct (decide (n = k)) as [->|Hne].
  - by rewrite lookup_insert_eq.
  - by rewrite lookup_insert_ne.
Qed.

Lemma register_frame (n : string) (st : State) :
  reqCodesBuffer (world (register n st).2) = reqCodesBuffer (world st)
  /\ ifaceBuffer (world (register n st).2) = ifaceBuffer (world st)
  /\ constBuffer (register n st).2 = constBuffer st.
Proof. done. Qed.

Lemma register_events_keeps (events : list Event) :
  forall (m : gmap string string) (k : string),
    m !! k = Some (CamelCase k) -> register_events events m !! k = Some (CamelCase k).
Proof.
  induction events as [|ev events IH]; intros m k Hk; [exact Hk|].
  cbn [register_events fold_left]. apply IH.
  destruct (decide (Event_Name ev = k)) as [->|Hne].
  - by rewrite lookup_insert_eq.
  - by rewrite lookup_insert_ne.
Qed.

Lemma enumEntries_loop_frame (ifaceName enumName constTypeName : string)
    (entries : list Entry) :
  forall st : State,
    reqCodesBuffer (world (enumEntries_loop ifaceName enumName constTypeName entries st))
    = reqCodesBuffer (world st)
    /\ (forall k : string,
           names st !! k = Some (CamelCase k) ->
           names (enumEntries_loop ifaceName enumName constTypeName entries st) !! k
           = Some (CamelCase k)).
Proof.
  induction entries as [|entry entries IH]; intros st; cbn [enumEntries_loop]; [done|].
  unfold register, caseAndRegister. cbv zeta.
  match goal with
  | |- context [enumEntries_loop _ _ _ entries ?s] => destruct (IH s) as [Hcodes Hkeep]
  end.
  split.
  - rewrite Hcodes. reflexivity.
  - intros k Hk. apply Hkeep. exact (register_keeps (Entry_Name entry) st k Hk).
Qed.

Lemma interfaceEnums_loop_frame (ifaceName : string) (enums : list Enum) :
  forall st : State,
    reqCodesBuffer (world (interfaceEnums_loop ifaceName enums st))
    = reqCodesBuffer (world st)
    /\ (forall k : string,
           names st !! k = Some (CamelCase k) ->
           names (interfaceEnums_loop ifaceName enums st) !! k = Some (CamelCase k)).
Proof.
  induction enums as [|enum enums IH]; intros st; cbn [interfaceEnums_loop]; [done|].
  unfold register, caseAndRegister. cbv zeta.
  match goal with
  | |- context [interfaceEnums_loop _ enums (to_constBuffer _ ?s3)] =>
      match s3 with
      | enumEntries_loop ?a ?b ?c ?d ?s2 =>
          destruct (enumEntries_loop_frame a b c d s2) as [Hcodes2 Hkeep2];
          destruct (IH (to_constBuffer (")" +:+ nl) s3)) as [Hcodes Hkeep]
      end
  end.
  split.
  - rewrite Hcodes. cbn [to_constBuffer world]. rewrite Hcodes2. reflexivity.
  - intros k Hk. apply Hkeep. unfold names. cbn [to_constBuffer world].
    apply Hkeep2. exact (register_keeps (Enum_Name enum) st k Hk).
Qed.

Lemma interfaceTypes_frame (iface : Interface) (eventNames : list string) (st : State) :
  names (interfaceTypes iface eventNames st) = names st
  /\ reqCodesBuffer (world (interfaceTypes iface eventNames st)) = reqCodesBuffer (world st)
  /\ constBuffer (interfaceTypes iface eventNames st) = constBuffer st.
Proof. unfold interfaceTypes. cbv zeta. by rewrite to_ifaceBuffer_fold. Qed.

Lemma interfaceConstructor_frame (iface : Interface) (eventNames : list string)
    (st : State) :
  names (interfaceConstructor iface eventNames st) = names st
  /\ reqCodesBuffer (world (interfaceConstructor iface eventNames st))
     = reqCodesBuffer (world st)
  /\ constBuffer (interfaceConstructor iface eventNames st) = constBuffer st.
Proof. unfold interfaceConstructor. cbv zeta. by rewrite to_ifaceBuffer_fold. Qed.

(** One turn of the second loop of [main] on a registered interface. *)
Lemma generate_interface_Ok (iface : Interface) (st : State) :
  ~ bad_interface iface ->
  names st !! Interface_Name iface = Some (CamelCase (Interface_Name iface)) ->
  exists st' : State,
    generate_interface iface st = Ok st'
    /\ reqCodesBuffer (world st')
       = reqCodesBuffer (world st)
         +:+ String.concat ""
               (imap (fun k req =>
                        reqCodeName (CamelCase (Interface_Name iface))
                                    (CamelCase (Request_Name req))
                        +:+ " = " +:+ Itoa k +:+ nl)
                     (Interface_Requests iface))
    /\ constBuffer st'
       = constBuffer st
         +:+ String.concat "" (map (enum_text (CamelCase (Interface_Name iface)))
                                   (Interface_Enums iface))
    /\ (forall k : string,
           names st !! k = Some (CamelCase k) -> names st' !! k = Some (CamelCase k)).
Proof.
  intros Hgood Hreg. unfold generate_interface, interfaceEvents.
  rewrite interfaceEvents_loop_spec.
  set (eventNames := [] ++ _).
  set (st1 := {| world := _; constBuffer := constBuffer st |}).
  set (eventBuffer := _ +:+ _).
  assert (Hn1 : names st1 = register_events (Interface_Events iface) (names st))
    by reflexivity.
  set (st2 := interfaceConstructor iface eventNames
                (interfaceTypes iface eventNames (to_ifaceBuffer eventBuffer st1))).
  destruct (interfaceConstructor_frame iface eventNames
              (interfaceTypes iface eventNames (to_ifaceBuffer eventBuffer st1)))
    as (Hn2 & Hc2 & Hk2).
  destruct (interfaceTypes_frame iface eventNames (to_ifaceBuffer eventBuffer st1))
    as (Hn2' & Hc2' & Hk2').
  fold st2 in Hn2, Hc2, Hk2.
  assert (Hnames2 : names st2 = register_events (Interface_Events iface) (names st)).
  { by rewrite Hn2, Hn2'. }
  assert (Hcodes2 : reqCodesBuffer (world st2) = reqCodesBuffer (world st)).
  { by rewrite Hc2, Hc2'. }
  assert (Hconst2 : constBuffer st2 = constBuffer st).
  { by rewrite Hk2, Hk2'. }
  assert (Hname2 : map_index (names st2) (Interface_Name iface)
                   = CamelCase (Interface_Name iface)).
  { unfold map_index. rewrite Hnames2.
    by rewrite (register_events_keeps _ _ _ Hreg). }
  unfold interfaceRequests. rewrite Hname2.
  destruct (interfaceRequests_loop_Ok (CamelCase (Interface_Name iface))
              (Interface_Requests iface) 0 st2 Hgood)
    as (st3 & texts & Hrun & Hnames3 & Hconst3 & Hcodes3 & _).
  rewrite Hrun. exists (interfaceEnums iface st3). split; [reflexivity|].
  assert (Hname3 : map_index (names st3) (Interface_Name iface)
                   = CamelCase (Interface_Name iface)).
  { by rewrite Hnames3. }
  unfold interfaceEnums. rewrite Hname3.
  destruct (interfaceEnums_loop_frame (CamelCase (Interface_Name iface))
                                      (Interface_Enums iface) st3) as [Hcodes4 Hkeep4].
  split; [|split].
  - by rewrite Hcodes4, Hcodes3, Hcodes2.
  - by rewrite interfaceEnums_loop_text, Hconst3, Hconst2.
  - intros k Hk. apply Hkeep4. rewrite Hnames3, Hnames2.
    by apply register_events_keeps.
Qed.

Lemma generate_interfaces_Ok (ifaces : list Interface) :
  forall st : State,
    ~ Exists bad_interface ifaces ->
    Forall (fun iface => names st !! Interface_Name iface
                         = Some (CamelCase (Interface_Name iface))) ifaces ->
    exists st' : State,
      generate_interfaces ifaces st = Ok st'
      /\ reqCodesBuffer (world st')
         = reqCodesBuffer (world st)
           +:+ String.concat ""
                 (map (fun iface =>
                         String.concat ""
                           (imap (fun k req =>
                                    reqCodeName (CamelCase (Interface_Name iface))
                                                (CamelCase (Request_Name req))
                                    +:+ " = " +:+ Itoa k +:+ nl)
                                 (Interface_Requests iface)))
                      ifaces)
      /\ constBuffer st'
         = constBuffer st
           +:+ String.concat ""
                 (map (fun iface =>
                         String.concat ""
                           (map (enum_text (CamelCase (Interface_Name iface)))
                                (Interface_Enums iface)))
                      ifaces).
Proof.
  induction ifaces as [|iface ifaces IH]; intros st Hgood Hreg.
  - exists st. cbn [generate_interfaces map String.concat].
    by rewrite !append_empty_r.
  - apply Forall_cons in Hreg as [Hhd Htl].
    destruct (generate_interface_Ok iface st) as (st1 & Hrun1 & Hcodes1 & Hconst1 & Hkeep1);
      [by intros H; apply Hgood, Exists_cons_hd|exact Hhd|].
    destruct (IH st1) as (st' & Hrun & Hcodes & Hconst).
    { intros H. by apply Hgood, Exists_cons_tl. }
    { eapply Forall_impl; [exact Htl|]. intros x Hx. by apply Hkeep1. }
    exists st'. cbn [generate_interfaces]. rewrite Hrun1. split; [exact Hrun|].
    cbn [map]. rewrite !concat_cons, Hcodes, Hconst, Hcodes1, Hconst1.
    by rewrite !append_assoc.
Qed.

Lemma register_interfaces_names (ifaces : list Interface) :
  forall (st : State) (k : string),
    (k ∈ map Interface_Name ifaces \/ names st !! k = Some (CamelCase k)) ->
    names (fold_left (fun st iface => snd (register (Interface_Name iface) st)) ifaces st)
      !! k = Some (CamelCase k).
Proof.
  induction ifaces as [|iface ifaces IH]; intros st k Hk; cbn [fold_left map] in *.
  - destruct Hk as [Hk|Hk]; [by apply elem_of_nil in Hk|exact Hk].
  - apply IH. destruct Hk as [Hk|Hk].
    + apply elem_of_cons in Hk as [->|Hk]; [right|by left].
      unfold register, caseAndRegister, names. cbn [snd world wlNames].
      by rewrite lookup_insert_eq.
    + right. by apply register_keeps.
Qed.

Lemma register_interfaces_frame (ifaces : list Interface) :
  forall st : State,
    reqCodesBuffer
      (world (fold_left (fun st iface => snd (register (Interface_Name iface) st))
                        ifaces st))
    = reqCodesBuffer (world st)
    /\ constBuffer (fold_left (fun st iface => snd (register (Interface_Name iface) st))
                              ifaces st)
       = constBuffer st.
Proof.
  induction ifaces as [|iface ifaces IH]; intros st; cbn [fold_left]; [done|].
  destruct (IH (register (Interface_Name iface) st).2) as [H1 H2].
  by rewrite H1, H2.
Qed.

(** X21.  On a protocol that it accepts the older generator ends with
    the constants block and the request codes block in this form: after
    [package wl], for each interface in the order of the protocol, its
    enums in declaration order; and one [const] block that numbers the
    requests of each interface from 0 in declaration order, every name
    made of the canonical interface name and the request name. *)
Theorem legacy_output_blocks (protocol : Protocol) :
  ~ Exists bad_interface (Protocol_Interfaces protocol) ->
  exists st : State,
    generate protocol = Ok st
    /\ constBuffer st
       = "package wl"
         +:+ String.concat ""
               (map (fun iface =>
                       String.concat ""
                         (map (enum_text (CamelCase (Interface_Name iface)))
                              (Interface_Enums iface)))
                    (Protocol_Interfaces protocol))
    /\ reqCodesBuffer (world st)
       = nl +:+ "//Interface Request Codes" +:+ nl
         +:+ nl +:+ "const (" +:+ nl
         +:+ String.concat ""
               (map (fun iface =>
                       String.concat ""
                         (imap (fun k req =>
                                  reqCodeName (CamelCase (Interface_Name iface))
                                              (CamelCase (Request_Name req))
                                  +:+ " = " +:+ Itoa k +:+ nl)
                               (Interface_Requests iface)))
                    (Protocol_Interfaces protocol))
         +:+ ")".
Proof.
  intros Hgood. unfold generate. cbv zeta.
  set (st0 := {| world := _; constBuffer := "package wl" |}).
  set (st1 := fold_left _ (Protocol_Interfaces protocol) st0).
  set (st2 := to_reqCodesBuffer _ (to_reqCodesBuffer _ st1)).
  destruct (register_interfaces_frame (Protocol_Interfaces protocol) st0) as [Hc1 Hk1].
  fold st1 in Hc1, Hk1.
  destruct (generate_interfaces_Ok (Protocol_Interfaces protocol) st2 Hgood)
    as (st' & Hrun & Hcodes & Hconst).
  { apply Forall_forall. intros iface Hin.
    change (names st2) with (names st1).
    apply register_interfaces_names. left.
    apply list_elem_of_fmap. by exists iface. }
  rewrite Hrun. exists (to_reqCodesBuffer ")" st'). split; [reflexivity|].
  split.
  - change (constBuffer (to_reqCodesBuffer ")" st')) with (constBuffer st').
    rewrite Hconst. change (constBuffer st2) with (constBuffer st1).
    by rewrite Hk1.
  - change (reqCodesBuffer (world (to_reqCodesBuffer ")" st')))
      with (reqCodesBuffer (world st') +:+ ")").
    rewrite Hcodes.
    change (reqCodesBuffer (world st2))
      with ((reqCodesBuffer (world st1) +:+ (nl +:+ "//Interface Request Codes" +:+ nl))
            +:+ (nl +:+ "const (" +:+ nl)).
    rewrite Hc1. change (reqCodesBuffer (world st0)) with EmptyString.
    rewrite append_empty_l. rewrite ?append_assoc. reflexivity.
Qed.

End LegacyBlocks.

Lemma legacy_output_blocks_witness :
  exists st : LegacyMain.State,
    LegacyMain.generate (Rejects.protocol_with "axis") = Ok st
    /\ Legacy.reqCodesBuffer (LegacyMain.world st)
       = nl +:+ "//Interface Request Codes" +:+ nl +:+ nl +:+ "const (" +:+ nl
         +:+ "_POINTER_SETAXIS = 0" +:+ nl +:+ "_POINTER_RELEASE = 1" +:+ nl +:+ ")".
Proof.
  destruct (legacy_output_blocks (Rejects.protocol_with "axis")) as (st & Hrun & _ & Hcodes).
  - apply (bool_decide_unpack _). vm_compute. exact I.
  - exists st. split; [exact Hrun|]. rewrite Hcodes. vm_compute. reflexivity.
Defined.

(** ** The older generator: the formatter *)

Section LegacyFormatter.
Import Legacy LegacyMain Rejects.

Lemma generate_Ok (protocol : Protocol) :
  ~ Exists bad_interface (Protocol_Interfaces protocol) ->
  exists st : State, generate protocol = Ok st.
Proof.
  intros Hgood. unfold generate. cbv zeta.
  set (st := to_reqCodesBuffer _ (to_reqCodesBuffer _ _)).
  pose proof (generate_interfaces_fatal_iff (Protocol_Interfaces protocol) st) as Hiff.
  destruct (generate_interfaces (Protocol_Interfaces protocol) st) as [st'|msg].
  - by eexists.
  - exfalso. apply Hgood, Hiff. by eexists.
Qed.


End LegacyFormatter.

